(** * PySeed demo project: a shallow embedding of the browser automation demo

    The development follows the Python package file by file:
    [config.py], [utils.py] (FileHandler), [chrome_driver.py]
    (ChromeDriverManager), [youtube_automation.py] (YouTubeAutomation) and
    [core.py] (MainApplication).  Python code runs in a state-and-exception
    monad over a [World] that holds everything outside the interpreter: the
    console, the filesystem, the clock, the browser processes and the
    behaviour of the automated browser. *)

From Stdlib Require Import ZArith String Ascii List Lia QArith DecimalString DecimalZ.
From Stdlib Require SpecFloat.
From stdpp Require Import base option list strings gmap.

Local Open Scope Z_scope.
Local Open Scope string_scope.
Local Open Scope list_scope.

(** ** Python exceptions *)

Module Py.

(** The exception classes the program can meet, with the class tree of
    CPython, selenium, json and csv. *)
Inductive exn_class :=
| BaseException
| KeyboardInterrupt
| Exception
| RuntimeError
| TypeError
| ValueError
| EOFError
| UnicodeDecodeError
| JSONDecodeError
| CsvError
| OSError
| FileNotFoundError
| FileExistsError
| IsADirectoryError
| NotADirectoryError
| PermissionError
| WebDriverException
| TimeoutException
| NoSuchElementException
| StaleElementReferenceException.

#[global] Instance exn_class_eq_dec : EqDecision exn_class.
Proof. solve_decision. Defined.

(** The direct base class ([__base__]); [UnicodeError] between
    [UnicodeDecodeError] and [ValueError] is skipped. *)
Definition base_class (c : exn_class) : option exn_class :=
  match c with
  | BaseException => None
  | KeyboardInterrupt => Some BaseException
  | Exception => Some BaseException
  | RuntimeError | TypeError | ValueError | EOFError | CsvError | OSError
  | WebDriverException => Some Exception
  | UnicodeDecodeError | JSONDecodeError => Some ValueError
  | FileNotFoundError | FileExistsError | IsADirectoryError
  | NotADirectoryError | PermissionError => Some OSError
  | TimeoutException | NoSuchElementException
  | StaleElementReferenceException => Some WebDriverException
  end.

Fixpoint issubclass_upto (depth : nat) (c d : exn_class) : bool :=
  bool_decide (c = d) ||
  match depth, base_class c with
  | S n, Some b => issubclass_upto n b d
  | _, _ => false
  end.

(** The class tree has height 4. *)
Definition issubclass (c d : exn_class) : bool := issubclass_upto 4 c d.

(** An exception object: its class and [str(e)]. *)
Record exn := mk_exn { exn_cls : exn_class; exn_str : string }.

Definition isinstance (e : exn) (c : exn_class) : bool := issubclass (exn_cls e) c.

Inductive outcome (A : Type) :=
| Val (a : A)
| Exc (e : exn).
Arguments Val {A} a.
Arguments Exc {A} e.

End Py.
Import Py.

(** ** Text helpers

    A Python [str] is held as the bytes of its UTF-8 encoding, one
    character of a Rocq [string] per byte: the characters of ASCII are
    single bytes, and no byte of another character is below 128.  A [str]
    with a lone surrogate has no such encoding; Python can hold one but
    cannot write it to a file opened with [encoding='utf-8']. *)

(** [str(n)] for an [int]. *)
Definition str_of_Z (z : Z) : string := NilZero.string_of_int (Z.to_int z).

(** The line feed, written [\n] in the source. *)
Definition nl : string := String "010"%char "".

(** Universal newlines, as a file opened for reading in text mode with
    the default [newline=None] has them: a carriage return, alone or
    before a line feed, is read as a line feed. *)
Fixpoint universal_newlines (s : string) : string :=
  match s with
  | EmptyString => ""
  | String c r =>
      if Ascii.eqb c "013" then
        String "010"
          (match r with
           | String d r' =>
               if Ascii.eqb d "010" then universal_newlines r' else universal_newlines r
           | EmptyString => ""
           end)
      else String c (universal_newlines r)
  end.

(** The UTF-8 encoding of a code point; a surrogate gets the three bytes
    its number would have. *)
Definition utf8 (cp : N) : string :=
  let byte (n : N) := ascii_of_N n in
  let tail (n : N) := byte (128 + n mod 64)%N in
  if (cp <? 128)%N then String (byte cp) ""
  else if (cp <? 2048)%N then String (byte (192 + cp / 64)%N) (String (tail cp) "")
  else if (cp <? 65536)%N then
    String (byte (224 + cp / 4096)%N) (String (tail (cp / 64)%N) (String (tail cp) ""))
  else
    String (byte (240 + cp / 262144)%N)
      (String (tail (cp / 4096)%N) (String (tail (cp / 64)%N) (String (tail cp) ""))).

(** [s * n] on strings. *)
Fixpoint str_repeat (s : string) (n : nat) : string :=
  match n with
  | O => ""
  | S k => s +:+ str_repeat s k
  end.

(** [str.lower], on the ASCII letters. *)
Definition lower_ascii (c : ascii) : ascii :=
  let n := nat_of_ascii c in
  if (Nat.leb 65 n && Nat.leb n 90)%bool then ascii_of_nat (n + 32) else c.

Fixpoint str_lower (s : string) : string :=
  match s with
  | EmptyString => EmptyString
  | String c r => String (lower_ascii c) (str_lower r)
  end.

(** ** pathlib paths *)

Record path := Path { is_absolute : bool; parts : list string }.

#[global] Instance path_eq_dec : EqDecision path.
Proof. solve_decision. Defined.

(** [a / b] *)
Definition joinpath (a b : path) : path :=
  if is_absolute b then b else Path (is_absolute a) (parts a ++ parts b).

(** [a / "x/y"]: the right operand given by its segments. *)
Definition joinsegs (a : path) (segs : list string) : path :=
  joinpath a (Path false segs).

Infix "/:" := joinsegs (at level 40, left associativity).

(** [p.parent]; anchors and dot segments are left out of the model. *)
Definition path_parent (p : path) : path :=
  Path (is_absolute p) (removelast (parts p)).

(** [p.name] *)
Definition path_name (p : path) : string := List.last (parts p) "".

(** [sep.join(l)] *)
Fixpoint str_join (sep : string) (l : list string) : string :=
  match l with
  | [] => ""
  | [x] => x
  | x :: r => x +:+ sep +:+ str_join sep r
  end.

(** [str(p)], in the POSIX flavour. *)
Definition str_of_path (p : path) : string :=
  match is_absolute p, parts p with
  | false, [] => "."
  | false, l => str_join "/" l
  | true, l => "/" +:+ str_join "/" l
  end.

(** [s.split(sep)] for a separator of one character: [seg] is the segment
    read so far. *)
Fixpoint split_on (sep : ascii) (s : string) (seg : string) : list string :=
  match s with
  | EmptyString => [seg]
  | String c r =>
      if Ascii.eqb c sep then seg :: split_on sep r ""
      else split_on sep r (seg +:+ String c "")
  end.

Definition keep_segment (seg : string) : bool :=
  negb (String.eqb seg "" || String.eqb seg ".").

(** [Path(s)], in the POSIX flavour: empty and [.] segments are dropped. *)
Definition path_of_str (s : string) : path :=
  Path (match s with String c _ => Ascii.eqb c "/" | EmptyString => false end)
       (List.filter keep_segment (split_on "/" s "")).

(** ** The world outside the interpreter *)

Definition handle := nat.
Definition element := nat.

(** selenium's [By] strategies used by the program. *)
Inductive by_ := TAG_NAME | NAME | ID | CSS_SELECTOR.
Definition locator : Type := by_ * string.

(** What [send_keys] receives: text, or the [Keys.RETURN] key. *)
Inductive keys := Text (s : string) | RETURN.

(** [Options] as built by [create_driver]. *)
Record chrome_options := {
  binary_location : string;
  arguments : list string;
  detach_option : bool;
  excludeSwitches : list string;
  useAutomationExtension : bool;
}.

(** Calls that cross into the driver, in the order they are made. *)
Inductive call :=
| CLaunch (executable_path : string) (options : chrome_options)
| CGet (h : handle) (url : string)
| CWait (h : handle) (timeout : Z) (loc : locator)
| CWaitAll (h : handle) (timeout : Z) (loc : locator)
| CClear (h : handle) (el : element)
| CSendKeys (h : handle) (el : element) (k : keys)
| CGetAttribute (h : handle) (el : element) (name : string)
| CQuit (h : handle).

(** The behaviour of browser, driver and site: each answer depends on the
    calls made before it.  This is the part of the world the program does
    not control. *)
Record Web := {
  on_launch : list call -> string -> chrome_options -> option exn;
  on_get : list call -> handle -> string -> option exn;
  on_wait : list call -> handle -> Z -> locator -> exn + element;
  on_wait_all : list call -> handle -> Z -> locator -> exn + list element;
  on_clear : list call -> handle -> element -> option exn;
  on_send_keys : list call -> handle -> element -> keys -> option exn;
  on_get_attribute : list call -> handle -> element -> string -> exn + option string;
}.

(** Files and directories.  A file holds UTF-8 text or bytes that do not
    decode; [readable] and [writable] stand for the permission bits. *)
Inductive fdata := Utf8 (text : string) | NotUtf8.

Inductive fnode :=
| Dir (writable : bool)
| File (readable writable : bool) (data : fdata).

(** What [input()] finds on standard input. *)
Inductive stdin_item := Line (s : string) | CtrlC.

(** Constants of the [appmanager] package (not part of [project/]). *)
Record AppManager := {
  get_platform : string;
  CHROME_FOR_TESTING_DIR : path;
  CHROMEDRIVER_PATH : path;
  APP_DATA_DIR : path;
}.

(** The host: platform, environment, and the values [config.py] computes at
    import time from the location of the package. *)
Record Host := {
  platform_system : string;
  environ : gmap string string;
  home : path;
  appmanager : option AppManager;
  PROJECT_ROOT : path;
  PROJECT_DIR : path;
  PROJECT_NAME : string;
  VERSION : string;
  strftime : Q -> string;
}.

Record World := {
  web : Web;
  calls : list call;
  procs : list bool;
  console : list string;
  stdin : list stdin_item;
  fs : gmap (list string) fnode;
  cwd : list string;
  now : Q;
  host : Host;
  mgr_keep_open : option bool;
}.

Definition add_call (c : call) (w : World) : World :=
  {| web := web w; calls := calls w ++ [c]; procs := procs w;
     console := console w; stdin := stdin w; fs := fs w; cwd := cwd w;
     now := now w; host := host w; mgr_keep_open := mgr_keep_open w |}.

Definition set_procs (p : list bool) (w : World) : World :=
  {| web := web w; calls := calls w; procs := p;
     console := console w; stdin := stdin w; fs := fs w; cwd := cwd w;
     now := now w; host := host w; mgr_keep_open := mgr_keep_open w |}.

Definition add_console (s : string) (w : World) : World :=
  {| web := web w; calls := calls w; procs := procs w;
     console := console w ++ [s]; stdin := stdin w; fs := fs w; cwd := cwd w;
     now := now w; host := host w; mgr_keep_open := mgr_keep_open w |}.

Definition set_stdin (i : list stdin_item) (w : World) : World :=
  {| web := web w; calls := calls w; procs := procs w;
     console := console w; stdin := i; fs := fs w; cwd := cwd w;
     now := now w; host := host w; mgr_keep_open := mgr_keep_open w |}.

Definition set_fs (f : gmap (list string) fnode) (w : World) : World :=
  {| web := web w; calls := calls w; procs := procs w;
     console := console w; stdin := stdin w; fs := f; cwd := cwd w;
     now := now w; host := host w; mgr_keep_open := mgr_keep_open w |}.

Definition set_mgr_keep_open (b : option bool) (w : World) : World :=
  {| web := web w; calls := calls w; procs := procs w;
     console := console w; stdin := stdin w; fs := fs w; cwd := cwd w;
     now := now w; host := host w; mgr_keep_open := b |}.

(** ** The monad of Python statements *)

Definition M (A : Type) : Type := World -> outcome A * World.

Definition ret {A} (a : A) : M A := fun w => (Val a, w).

Definition raise {A} (c : exn_class) (msg : string) : M A :=
  fun w => (Exc (mk_exn c msg), w).

Definition reraise {A} (e : exn) : M A := fun w => (Exc e, w).

Definition bind {A B} (m : M A) (k : A -> M B) : M B :=
  fun w => match m w with
           | (Val a, w') => k a w'
           | (Exc e, w') => (Exc e, w')
           end.

Declare Scope py_scope.
Delimit Scope py_scope with py.
Notation "x <- m ;; k" := (bind m (fun x => k))
  (at level 100, m at next level, right associativity) : py_scope.
Notation "m ;; k" := (bind m (fun _ => k))
  (at level 100, right associativity) : py_scope.
Local Open Scope py_scope.

(** [try: body except C as e: handler e]: [clauses e] is the first matching
    [except] clause, if any. *)
Definition try_except {A} (body : M A) (clauses : exn -> option (M A)) : M A :=
  fun w => match body w with
           | (Val a, w') => (Val a, w')
           | (Exc e, w') =>
               match clauses e with
               | Some handler => handler w'
               | None => (Exc e, w')
               end
           end.

(** One clause [except C as e]. *)
Definition except {A} (c : exn_class) (handler : exn -> M A) (e : exn) : option (M A) :=
  if isinstance e c then Some (handler e) else None.

(** Clauses are tried in order. *)
Definition orelse {A} (c1 c2 : exn -> option (M A)) (e : exn) : option (M A) :=
  match c1 e with
  | Some h => Some h
  | None => c2 e
  end.

(** [try: body finally: cleanup]: the cleanup runs on every exit; an
    exception of the cleanup replaces the pending one. *)
Definition try_finally {A} (body : M A) (cleanup : M unit) : M A :=
  fun w => match body w with
           | (r, w') =>
               match cleanup w' with
               | (Val _, w'') => (r, w'')
               | (Exc e, w'') => (Exc e, w'')
               end
           end.

(** [print(s)] *)
Definition print (s : string) : M unit := fun w => (Val tt, add_console s w).

(** [time.time()] *)
Definition time_time : M Q := fun w => (Val (now w), w).

(** Reading the host's constants. *)
Definition get_host : M Host := fun w => (Val (host w), w).

(** [input(prompt)]: the prompt goes to the console; an exhausted standard
    input is [EOFError], Ctrl-C is [KeyboardInterrupt]. *)
Definition input (prompt : string) : M string :=
  fun w =>
    let w1 := add_console prompt w in
    match stdin w with
    | Line s :: rest => (Val s, set_stdin rest w1)
    | CtrlC :: rest => (Exc (mk_exn KeyboardInterrupt ""), set_stdin rest w1)
    | [] => (Exc (mk_exn EOFError "EOF when reading a line"), w1)
    end.

(** *** Driver calls *)

Definition answer_unit (r : option exn) (w : World) : outcome unit * World :=
  match r with
  | None => (Val tt, w)
  | Some e => (Exc e, w)
  end.

Definition answer {A} (r : exn + A) (w : World) : outcome A * World :=
  match r with
  | inr a => (Val a, w)
  | inl e => (Exc e, w)
  end.

(** [driver.get(url)] *)
Definition driver_get (h : handle) (url : string) : M unit :=
  fun w => answer_unit (on_get (web w) (calls w) h url) (add_call (CGet h url) w).

(** [WebDriverWait(driver, timeout).until(EC.presence_of_element_located(loc))] *)
Definition wait_until_presence (h : handle) (timeout : Z) (loc : locator) : M element :=
  fun w => answer (on_wait (web w) (calls w) h timeout loc) (add_call (CWait h timeout loc) w).

(** [WebDriverWait(driver, timeout).until(EC.presence_of_all_elements_located(loc))]:
    [until] polls while the value is falsy, so an empty list of elements
    ends in [TimeoutException] like no answer at all. *)
Definition wait_until_presence_all (h : handle) (timeout : Z) (loc : locator)
  : M (list element) :=
  fun w =>
    let w' := add_call (CWaitAll h timeout loc) w in
    match on_wait_all (web w) (calls w) h timeout loc with
    | inr [] => (Exc (mk_exn TimeoutException "Message: "), w')
    | inr els => (Val els, w')
    | inl e => (Exc e, w')
    end.

(** [element.clear()] *)
Definition element_clear (h : handle) (el : element) : M unit :=
  fun w => answer_unit (on_clear (web w) (calls w) h el) (add_call (CClear h el) w).

(** [element.send_keys(k)] *)
Definition element_send_keys (h : handle) (el : element) (k : keys) : M unit :=
  fun w => answer_unit (on_send_keys (web w) (calls w) h el k) (add_call (CSendKeys h el k) w).

(** [element.get_attribute(name)] *)
Definition element_get_attribute (h : handle) (el : element) (name : string)
  : M (option string) :=
  fun w => answer (on_get_attribute (web w) (calls w) h el name)
                  (add_call (CGetAttribute h el name) w).

(** [lst[:n]] for an [int] n: a negative bound counts from the end. *)
Definition slice_to {A} (l : list A) (n : Z) : list A :=
  if (0 <=? n)%Z then take (Z.to_nat n) l
  else take (length l - Z.to_nat (- n)) l.

(** ** config.py *)

Module Config.

Definition YOUTUBE_URL : string := "https://www.youtube.com".
Definition DEFAULT_SEARCH_TERM : string := "What's New".
Definition PAGE_LOAD_TIMEOUT : Z := 10.
Definition ELEMENT_WAIT_TIMEOUT : Z := 10.

Definition DEFAULT_PROFILE_NAME (hst : Host) : string :=
  PROJECT_NAME hst +:+ "_profile".

(** The truth value of an optional string such as [os.environ.get(name)]:
    [None] and the empty string are falsy. *)
Definition env_truthy (v : option string) : bool :=
  match v with
  | Some (String _ _) => true
  | _ => false
  end.

Definition get_chrome_profile_path : M path :=
  hst <- get_host ;;
  match appmanager hst with
  | Some app_config =>
      ret (APP_DATA_DIR app_config /: ["ChromeProfiles"] /: [DEFAULT_PROFILE_NAME hst])
  | None =>
      let system := platform_system hst in
      let project_name := str_lower (path_name (PROJECT_ROOT hst)) in
      let finish (base_path : path) : M path :=
        ret (base_path /: [project_name] /: ["ChromeProfiles"] /: [DEFAULT_PROFILE_NAME hst]) in
      if String.eqb system "Windows" then
        let app_data := environ hst !! "LOCALAPPDATA" in
        if env_truthy app_data then finish (path_of_str (default "" app_data))
        else raise RuntimeError "LOCALAPPDATA environment variable not found."
      else if String.eqb system "Linux" then
        let xdg_data_home := environ hst !! "XDG_DATA_HOME" in
        finish (if env_truthy xdg_data_home then path_of_str (default "" xdg_data_home)
                else home hst /: [".local"] /: ["share"])
      else
        ret (home hst /: ["." +:+ project_name] /: ["ChromeProfiles"]
               /: [DEFAULT_PROFILE_NAME hst])
  end.

End Config.

(** ** youtube_automation.py *)

Module YouTubeAutomation.

Record t := { driver : handle; wait : Z }.

(** [__init__] *)
Definition init (drv : handle) : t :=
  {| driver := drv; wait := Config.ELEMENT_WAIT_TIMEOUT |}.

Definition navigate_to_youtube (self : t) : M unit :=
  print "[INFO] Navigating to YouTube..." ;;
  driver_get (driver self) Config.YOUTUBE_URL ;;
  _ <- wait_until_presence (driver self) (wait self) (TAG_NAME, "body") ;;
  print "[SUCCESS] YouTube loaded successfully".

Definition search (self : t) (search_term : string) : M bool :=
  try_except
    (print ("[INFO] Searching for: " +:+ search_term) ;;
     search_box <- wait_until_presence (driver self) (wait self) (NAME, "search_query") ;;
     element_clear (driver self) search_box ;;
     element_send_keys (driver self) search_box (Text search_term) ;;
     element_send_keys (driver self) search_box RETURN ;;
     _ <- wait_until_presence (driver self) (wait self) (ID, "contents") ;;
     print ("[SUCCESS] Search completed for: " +:+ search_term) ;;
     ret true)
    (except Exception (fun e =>
       print ("[ERROR] Search failed: " +:+ exn_str e) ;;
       ret false)).

(** The truth value of what [get_attribute] returns: [None] and the empty
    string are falsy. *)
Definition truthy (title : option string) : bool :=
  match title with
  | Some (String _ _) => true
  | _ => false
  end.

(** The [for element in ...] loop of [get_video_titles], with [titles] the
    list built so far. *)
Fixpoint collect_titles (self : t) (els : list element) (titles : list string)
  : M (list string) :=
  match els with
  | [] => ret titles
  | el :: rest =>
      title <- element_get_attribute (driver self) el "title" ;;
      if truthy title then collect_titles self rest (titles ++ [default "" title])
      else collect_titles self rest titles
  end.

Definition get_video_titles (self : t) (max_results : Z) : M (list string) :=
  try_except
    (video_elements <-
       wait_until_presence_all (driver self) (wait self) (CSS_SELECTOR, "a#video-title") ;;
     titles <- collect_titles self (slice_to video_elements max_results) [] ;;
     print ("[INFO] Found " +:+ str_of_Z (Z.of_nat (length titles)) +:+ " video titles") ;;
     ret titles)
    (except Exception (fun e =>
       print ("[ERROR] Failed to get video titles: " +:+ exn_str e) ;;
       ret [])).

(** [for i, title in enumerate(titles, i): print(f"{i}. {title}")] *)
Fixpoint print_numbered (i : Z) (titles : list string) : M unit :=
  match titles with
  | [] => ret tt
  | title :: rest =>
      print (str_of_Z i +:+ ". " +:+ title) ;;
      print_numbered (i + 1) rest
  end.

Definition search_tech_news (self : t) (search_term : option string) : M (list string) :=
  let search_term := default Config.DEFAULT_SEARCH_TERM search_term in
  navigate_to_youtube self ;;
  success <- search self search_term ;;
  if success : bool then
    titles <- get_video_titles self 10 ;;
    (match titles with
     | [] => ret tt
     | _ =>
         print (nl +:+ "=== Search Results for '" +:+ search_term +:+ "' ===") ;;
         print_numbered 1 titles ;;
         print (str_repeat "=" 40)
     end) ;;
    ret titles
  else ret [].

End YouTubeAutomation.

(** ** The filesystem *)

Module Fs.

(** The error numbers the model's system calls fail with. *)
Inductive errno := ENOENT | EACCES | EEXIST | ENOTDIR | EISDIR.

#[global] Instance errno_eq_dec : EqDecision errno.
Proof. solve_decision. Defined.

(** The node at a key; the root is a directory. *)
Definition node_at (f : gmap (list string) fnode) (k : list string) : option fnode :=
  match k with
  | [] => Some (Dir true)
  | _ => f !! k
  end.

Definition is_dir (f : gmap (list string) fnode) (k : list string) : bool :=
  match node_at f k with
  | Some (Dir _) => true
  | _ => false
  end.

(** Path resolution: every proper prefix of the key has to be a directory.
    [pre] is the prefix reached, [rest] what is left of the key. *)
Fixpoint walk (f : gmap (list string) fnode) (pre rest : list string) : option errno :=
  match rest with
  | [] => None
  | s :: rest' =>
      match node_at f pre with
      | Some (Dir _) => walk f (pre ++ [s]) rest'
      | Some (File _ _ _) => Some ENOTDIR
      | None => Some ENOENT
      end
  end.

(** [os.mkdir(k)] *)
Definition os_mkdir (k : list string) (f : gmap (list string) fnode)
  : errno + gmap (list string) fnode :=
  match walk f [] k with
  | Some c => inl c
  | None =>
      match node_at f k with
      | Some _ => inl EEXIST
      | None =>
          match node_at f (removelast k) with
          | Some (Dir true) => inr (<[k := Dir true]> f)
          | _ => inl EACCES
          end
      end
  end.

(** [Path.mkdir(parents=True, exist_ok=True)], as pathlib writes it: try
    [os.mkdir]; on [FileNotFoundError] make the parent and try again; on
    another [OSError] accept an existing directory. *)
Fixpoint mkdir_parents (n : nat) (k : list string) (f : gmap (list string) fnode)
  : errno + gmap (list string) fnode :=
  match os_mkdir k f with
  | inr f' => inr f'
  | inl ENOENT =>
      match n, k with
      | S n', _ :: _ =>
          match mkdir_parents n' (removelast k) f with
          | inr f1 =>
              match os_mkdir k f1 with
              | inr f2 => inr f2
              | inl ENOENT => inl ENOENT
              | inl c => if is_dir f1 k then inr f1 else inl c
              end
          | inl c => inl c
          end
      | _, _ => inl ENOENT
      end
  | inl c => if is_dir f k then inr f else inl c
  end.

(** [open(k, 'w')]: the file is created or truncated. *)
Definition open_write (k : list string) (f : gmap (list string) fnode)
  : errno + gmap (list string) fnode :=
  match walk f [] k with
  | Some c => inl c
  | None =>
      match node_at f k with
      | Some (Dir _) => inl EISDIR
      | Some (File r true _) => inr (<[k := File r true (Utf8 "")]> f)
      | Some (File _ false _) => inl EACCES
      | None =>
          match node_at f (removelast k) with
          | Some (Dir true) => inr (<[k := File true true (Utf8 "")]> f)
          | _ => inl EACCES
          end
      end
  end.

(** [open(k, 'r')] *)
Definition open_read (k : list string) (f : gmap (list string) fnode) : option errno :=
  match walk f [] k with
  | Some c => Some c
  | None =>
      match node_at f k with
      | None => Some ENOENT
      | Some (Dir _) => Some EISDIR
      | Some (File false _ _) => Some EACCES
      | Some (File true _ _) => None
      end
  end.

Definition errno_text (c : errno) : string :=
  match c with
  | ENOENT => "[Errno 2] No such file or directory"
  | EACCES => "[Errno 13] Permission denied"
  | EEXIST => "[Errno 17] File exists"
  | ENOTDIR => "[Errno 20] Not a directory"
  | EISDIR => "[Errno 21] Is a directory"
  end.

(** The subclass of [OSError] Python raises for an error number. *)
Definition errno_class (c : errno) : exn_class :=
  match c with
  | ENOENT => FileNotFoundError
  | EACCES => PermissionError
  | EEXIST => FileExistsError
  | ENOTDIR => NotADirectoryError
  | EISDIR => IsADirectoryError
  end.

Definition os_error (c : errno) (p : path) : exn :=
  mk_exn (errno_class c) (errno_text c +:+ ": '" +:+ str_of_path p +:+ "'").

End Fs.

(** The key of a path: relative paths start at the working directory. *)
Definition os_key (w : World) (p : path) : list string :=
  if is_absolute p then parts p else cwd w ++ parts p.

(** [p.exists()] *)
Definition path_exists (p : path) : M bool :=
  fun w => (Val (bool_decide (is_Some (Fs.node_at (fs w) (os_key w p)))), w).

(** [Path.cwd()] *)
Definition path_cwd : M path := fun w => (Val (Path true (cwd w)), w).

(** [p.mkdir(parents=True, exist_ok=True)] *)
Definition path_mkdir_parents (p : path) : M unit :=
  fun w =>
    let k := os_key w p in
    match Fs.mkdir_parents (length k) k (fs w) with
    | inr f' => (Val tt, set_fs f' w)
    | inl c => (Exc (Fs.os_error c p), w)
    end.

Inductive open_mode := ModeR | ModeW.

(** A file object of [open(p, mode, encoding='utf-8')] is the path it was
    opened on. *)
Definition file := path.

Definition open_ (p : path) (mode : open_mode) : M file :=
  fun w =>
    let k := os_key w p in
    match mode with
    | ModeR =>
        match Fs.open_read k (fs w) with
        | None => (Val p, w)
        | Some c => (Exc (Fs.os_error c p), w)
        end
    | ModeW =>
        match Fs.open_write k (fs w) with
        | inr f' => (Val p, set_fs f' w)
        | inl c => (Exc (Fs.os_error c p), w)
        end
    end.

(** [f.read()] on a file opened for reading with the default
    [newline=None]: the text comes with universal newlines. *)
Definition file_read (f : file) : M string :=
  fun w =>
    match fs w !! os_key w f with
    | Some (File _ _ (Utf8 text)) => (Val (universal_newlines text), w)
    | Some (File _ _ NotUtf8) =>
        (Exc (mk_exn UnicodeDecodeError "'utf-8' codec can't decode byte"), w)
    | _ => (Exc (Fs.os_error Fs.ENOENT f), w)
    end.

(** [f.write(s)] on a file opened for writing.  The text is kept with the
    line ends as written; the carriage return Windows puts before each
    line feed of a file opened with [newline=None], and drops again when
    it reads, is left out. *)
Definition file_write (f : file) (s : string) : M unit :=
  fun w =>
    match fs w !! os_key w f with
    | Some (File r wr (Utf8 text)) =>
        (Val tt, set_fs (<[os_key w f := File r wr (Utf8 (text +:+ s))]> (fs w)) w)
    | _ => (Exc (Fs.os_error Fs.ENOENT f), w)
    end.

(** ** Floats

    CPython's [float] is an IEEE 754 double: with [SpecFloat], a signed
    zero, a signed infinity, the one NaN, or a sign, a mantissa [m] and an
    exponent [e] for [m * 2**e]. *)

Module Float.

Import SpecFloat.

Definition float : Type := spec_float.

#[global] Instance float_eq_dec : EqDecision spec_float.
Proof. solve_decision. Defined.

Definition prec : Z := 53.
Definition emax : Z := 1024.

(** The integer nearest to [a / b], the even one of two. *)
Definition nearest (a b : Z) : Z :=
  let q := (a / b)%Z in
  match (2 * (a mod b) ?= b)%Z with
  | Lt => q
  | Gt => (q + 1)%Z
  | Eq => if Z.even q then q else (q + 1)%Z
  end.

(** The exponent of the double nearest to [a / 2**1074 / b], counted from
    the least one, -1074: the first [E] from 0 on with
    [a / b < 2**(E + 53)]. *)
Definition exponent (a b : Z) : Z :=
  let E := Z.max 0 (Z.log2 a - Z.log2 b - 53) in
  if (a <? b * 2 ^ (E + 53))%Z then E else (E + 1)%Z.

(** The double nearest to the quotient [a / b] of two positive numbers,
    ties to even: 53 bits at the exponent of the quotient, a subnormal or
    a zero below [2**-1022], an infinity from [2**1024 - 2**970] on. *)
Definition of_ratio (neg : bool) (a b : Z) : float :=
  let a := (a * 2 ^ 1074)%Z in
  let E := exponent a b in
  let m := nearest a (b * 2 ^ E) in
  if (m =? 0)%Z then S754_zero neg
  else if (m =? 2 ^ 53)%Z then
    if (E + 1 <=? 2045)%Z then S754_finite neg 4503599627370496 (E + 1 - 1074)
    else S754_infinity neg
  else if (E <=? 2045)%Z then S754_finite neg (Z.to_pos m) (E - 1074)
  else S754_infinity neg.

(** [float(s)] for a decimal literal with the digits [d] and the
    exponent [k]: the double nearest to [d * 10**k], ties to even. *)
Definition of_decimal (neg : bool) (d k : Z) : float :=
  match d with
  | Zpos m =>
      if (0 <=? k)%Z then of_ratio neg (Z.pos m * 10 ^ k) 1
      else of_ratio neg (Z.pos m) (10 ^ (- k))
  | _ => S754_zero neg
  end.

(** The doubles among the values of the type: 53 bits at most, and the
    exponent in its range and the least one for the mantissa. *)
Definition valid (x : float) : bool := valid_binary prec emax x.

(** [x == y] *)
Definition eqb (x y : float) : bool := SFeqb x y.

(** [x == z] for an [int] [z]: the values are compared exactly. *)
Definition eq_int (x : float) (z : Z) : bool :=
  match x with
  | S754_zero _ => (z =? 0)%Z
  | S754_finite s m e =>
      let v := if s then Z.neg m else Z.pos m in
      if (0 <=? e)%Z then (v * 2 ^ e =? z)%Z
      else (v =? z * 2 ^ (- e))%Z
  | _ => false
  end.


(** [bool(x)] *)
Definition truthy (x : float) : bool :=
  match x with
  | S754_zero _ => false
  | _ => true
  end.

(** *** [float.__repr__]: the shortest decimal that reads back *)

(** [x < 10**k] for [x = num / den]. *)
Definition below_pow10 (num den k : Z) : bool :=
  if (0 <=? k)%Z then (num <? den * 10 ^ k)%Z else (num * 10 ^ (- k) <? den)%Z.

(** The first [k] from [k] on with [x < 10**k]. *)
Fixpoint first_pow10 (fuel : nat) (num den k : Z) : Z :=
  match fuel with
  | O => k
  | S f => if below_pow10 num den k then k else first_pow10 f num den (k + 1)
  end.

(** [x * 10**t] as a quotient. *)
Definition scaled (num den t : Z) : Z * Z :=
  if (0 <=? t)%Z then (num * 10 ^ t, den) else (num, den * 10 ^ (- t)).

(** Of the two decimals with [n] digits around [x = num / den], where
    [10**(decpt-1) <= x < 10**decpt]: the one that reads back as [x], and
    of two the nearer one.  [(c, k)] stands for [c * 10**k]. *)
Definition decimal_with (x : float) (num den decpt n : Z) : option (Z * Z) :=
  let '(a, b) := scaled num den (n - decpt) in
  let lo := a / b in
  let hi := lo + 1 in
  let k := decpt - n in
  match bool_decide (of_decimal false lo k = x), bool_decide (of_decimal false hi k = x) with
  | true, true => Some (nearest a b, k)
  | true, false => Some (lo, k)
  | false, true => Some (hi, k)
  | false, false => None
  end.

(** The shortest decimal that reads back as [x], looked for from [n]
    digits on; 17 digits tell every double from its neighbours. *)
Fixpoint shortest (fuel : nat) (x : float) (num den decpt n : Z) : Z * Z :=
  match fuel with
  | O =>
      let '(a, b) := scaled num den (17 - decpt) in
      (nearest a b, decpt - 17)
  | S f =>
      match decimal_with x num den decpt n with
      | Some r => r
      | None => shortest f x num den decpt (n + 1)
      end
  end.

(** The digits without the zeros at their end. *)
Fixpoint drop_zeros (s : string) : string :=
  match s with
  | EmptyString => ""
  | String c r =>
      match drop_zeros r with
      | EmptyString => if Ascii.eqb c "0" then "" else String c ""
      | r' => String c r'
      end
  end.

(** [s[:n]] and [s[n:]] *)
Fixpoint str_take (n : nat) (s : string) : string :=
  match n, s with
  | S k, String c r => String c (str_take k r)
  | _, _ => ""
  end.

Fixpoint str_drop (n : nat) (s : string) : string :=
  match n, s with
  | S k, String _ r => str_drop k r
  | _, _ => s
  end.

(** A number as [repr] writes it: the sign, the digits before the point,
    the digits after it (none when there is no point), and the exponent
    with its sign. *)
Record literal := {
  lit_neg : bool;
  lit_int : string;
  lit_frac : string;
  lit_exp : option (bool * string);
}.

Definition frac_part (f : string) : string :=
  match f with
  | EmptyString => ""
  | String _ _ => "." +:+ f
  end.

Definition exp_part (e : option (bool * string)) : string :=
  match e with
  | Some (s, d) => "e" +:+ (if s : bool then "-" else "+") +:+ d
  | None => ""
  end.

Definition render (l : literal) : string :=
  (if lit_neg l then "-" else "") +:+ lit_int l
  +:+ frac_part (lit_frac l) +:+ exp_part (lit_exp l).

(** An exponent is written with two digits at least. *)
Definition exp_digits (e : Z) : string :=
  if (e <? 10)%Z then "0" +:+ str_of_Z e else str_of_Z e.

(** The digits [ds] with the decimal point after [decpt] of them, in the
    format [r]: with an exponent when [decpt] is below -3 or above 16. *)
Definition format_repr (neg : bool) (ds : string) (decpt : Z) : literal :=
  let nd := Z.of_nat (String.length ds) in
  if ((decpt <=? -4) || (16 <? decpt))%Z then
    {| lit_neg := neg; lit_int := str_take 1 ds; lit_frac := str_drop 1 ds;
       lit_exp := Some ((decpt - 1 <? 0)%Z, exp_digits (Z.abs (decpt - 1))) |}
  else if (decpt <=? 0)%Z then
    {| lit_neg := neg; lit_int := "0";
       lit_frac := str_repeat "0" (Z.to_nat (- decpt)) +:+ ds; lit_exp := None |}
  else if (nd <=? decpt)%Z then
    {| lit_neg := neg; lit_int := ds +:+ str_repeat "0" (Z.to_nat (decpt - nd));
       lit_frac := "0"; lit_exp := None |}
  else
    {| lit_neg := neg; lit_int := str_take (Z.to_nat decpt) ds;
       lit_frac := str_drop (Z.to_nat decpt) ds; lit_exp := None |}.

(** What [repr] writes for a zero or a finite double [m * 2**e]: the
    search for the power of ten above it starts below
    [log10 (2**(bits - 1))]. *)
Definition repr_literal (x : float) : literal :=
  match x with
  | S754_finite s m e =>
      let num := if (0 <=? e)%Z then Z.pos m * 2 ^ e else Z.pos m in
      let den := if (0 <=? e)%Z then 1 else 2 ^ (- e) in
      let bits := Z.pos (digits2_pos m) + e in
      let decpt := first_pow10 4 num den ((bits - 1) * 30103 / 100000 - 1) in
      let '(c, k) := shortest 17 (S754_finite false m e) num den decpt 1 in
      let ds := NilEmpty.string_of_uint (Pos.to_uint (Z.to_pos c)) in
      format_repr s (drop_zeros ds) (Z.of_nat (String.length ds) + k)
  | S754_zero s => {| lit_neg := s; lit_int := "0"; lit_frac := "0"; lit_exp := None |}
  | _ => {| lit_neg := false; lit_int := "0"; lit_frac := "0"; lit_exp := None |}
  end.

(** [float.__repr__] *)
Definition repr (x : float) : string :=
  match x with
  | S754_nan => "nan"
  | S754_infinity s => if s then "-inf" else "inf"
  | _ => render (repr_literal x)
  end.

End Float.

(** ** The json module

    Python values as far as the program and its files need them: [None],
    [bool], [int], [float], [str], [list], [tuple], [dict] with [str] keys
    (in insertion order) and [bytes], which json refuses.  The limit
    Python can put on the number of digits of an [int] it converts
    ([sys.set_int_max_str_digits]) is taken to be off. *)

Module Json.

#[local] Set Warnings "-register-all".

Inductive pyval :=
| PNone
| PBool (b : bool)
| PInt (z : Z)
| PFloat (x : Float.float)
| PStr (s : string)
| PList (l : list pyval)
| PTuple (l : list pyval)
| PDict (d : list (string * pyval))
| PBytes (b : string).

(** The double quote. *)
Definition dq : ascii := "034"%char.

Definition hex_digit (n : N) : ascii :=
  match n with
  | 0 => "0" | 1 => "1" | 2 => "2" | 3 => "3" | 4 => "4" | 5 => "5" | 6 => "6"
  | 7 => "7" | 8 => "8" | 9 => "9" | 10 => "a" | 11 => "b" | 12 => "c"
  | 13 => "d" | 14 => "e" | _ => "f"
  end%N%char.

(** [ESCAPE_DCT] of json.encoder: with [ensure_ascii=False] only the
    quote, the backslash and the control characters are escaped. *)
Definition escape_char (c : ascii) : string :=
  let n := N_of_ascii c in
  if (n =? 34)%N then String "\" (String dq "")
  else if (n =? 92)%N then "\\"
  else if (n =? 8)%N then "\b"
  else if (n =? 12)%N then "\f"
  else if (n =? 10)%N then "\n"
  else if (n =? 13)%N then "\r"
  else if (n =? 9)%N then "\t"
  else if (n <? 32)%N then
    "\u00" +:+ String (hex_digit (n / 16)) (String (hex_digit (n mod 16)) "")
  else String c "".

Fixpoint escape (s : string) : string :=
  match s with
  | EmptyString => ""
  | String c r => escape_char c +:+ escape r
  end.

Definition encode_basestring (s : string) : string :=
  String dq (escape s +:+ String dq "").

(** [floatstr] of json.encoder, with [allow_nan=True]. *)
Definition floatstr (x : Float.float) : string :=
  match x with
  | SpecFloat.S754_nan => "NaN"
  | SpecFloat.S754_infinity false => "Infinity"
  | SpecFloat.S754_infinity true => "-Infinity"
  | _ => Float.repr x
  end.

(** What an encoder has written, and the exception that stopped it. *)
Definition out : Type := string * option exn.
Definition emit (s : string) : out := (s, None).
Definition then_ (a b : out) : out :=
  match snd a with
  | Some e => a
  | None => (fst a +:+ fst b, snd b)
  end.
Infix ">>" := then_ (at level 62, right associativity).

(** The line break and the indentation of a nesting level: [indent] spaces
    per level ([' ' * indent] is empty for a negative [indent]). *)
Definition newline_indent (indent : Z) (level : nat) : string :=
  nl +:+ str_repeat (str_repeat " " (Z.to_nat indent)) level.

(** The loop of [_iterencode_list] over the items as encoded: [buf] is
    what goes before the next item. *)
Fixpoint list_loop (indent : Z) (level : nat) (items : list out) (buf : string) : out :=
  match items with
  | [] => emit (newline_indent indent level) >> emit "]"
  | x :: r =>
      emit buf >> x >> list_loop indent level r ("," +:+ newline_indent indent (S level))
  end.

(** The loop of [_iterencode_dict] over the keys and the values as encoded. *)
Fixpoint dict_loop (indent : Z) (level : nat) (items : list (string * out)) (sep : string)
  : out :=
  match items with
  | [] => emit (newline_indent indent level) >> emit "}"
  | (k, x) :: r =>
      emit sep >> emit (encode_basestring k) >> emit ": " >> x >>
      dict_loop indent level r ("," +:+ newline_indent indent (S level))
  end.

(** [JSONEncoder(indent=indent, ensure_ascii=False).iterencode(o)] for an
    [int] indent: items are separated by a comma and a line break, keys
    from values by [: ]. *)
Fixpoint iterencode (indent : Z) (o : pyval) (level : nat) {struct o} : out :=
  match o with
  | PStr s => emit (encode_basestring s)
  | PNone => emit "null"
  | PBool true => emit "true"
  | PBool false => emit "false"
  | PInt z => emit (str_of_Z z)
  | PFloat x => emit (floatstr x)
  | PList [] | PTuple [] => emit "[]"
  | PList l | PTuple l =>
      list_loop indent level (map (fun v => iterencode indent v (S level)) l)
                ("[" +:+ newline_indent indent (S level))
  | PDict [] => emit "{}"
  | PDict d =>
      emit "{" >>
      dict_loop indent level
        (map (fun kv => match kv with (k, v) => (k, iterencode indent v (S level)) end) d)
        (newline_indent indent (S level))
  | PBytes _ =>
      ("", Some (mk_exn TypeError "Object of type bytes is not JSON serializable"))
  end.

(** *** Decoding *)

(** [WHITESPACE] of json.decoder. *)
Definition is_ws (c : ascii) : bool :=
  let n := N_of_ascii c in
  ((n =? 32) || (n =? 9) || (n =? 10) || (n =? 13))%N.

Fixpoint skip_ws (s : string) : string :=
  match s with
  | String c r => if is_ws c then skip_ws r else s
  | EmptyString => s
  end.

Definition hex_value (c : ascii) : option N :=
  let n := N_of_ascii c in
  if ((48 <=? n) && (n <=? 57))%N then Some (n - 48)%N
  else if ((97 <=? n) && (n <=? 102))%N then Some (n - 87)%N
  else if ((65 <=? n) && (n <=? 70))%N then Some (n - 55)%N
  else None.

(** The code point of four hexadecimal digits. *)
Definition hex4 (h1 h2 h3 h4 : ascii) : option N :=
  match hex_value h1, hex_value h2, hex_value h3, hex_value h4 with
  | Some a, Some b, Some c, Some d => Some (((a * 16 + b) * 16 + c) * 16 + d)%N
  | _, _, _, _ => None
  end.

Definition unescape (c : ascii) : option ascii :=
  let n := N_of_ascii c in
  if (n =? 34)%N then Some dq
  else if (n =? 92)%N then Some "\"%char
  else if (n =? 47)%N then Some "/"%char
  else if (n =? 98)%N then Some "008"%char
  else if (n =? 102)%N then Some "012"%char
  else if (n =? 110)%N then Some "010"%char
  else if (n =? 114)%N then Some "013"%char
  else if (n =? 116)%N then Some "009"%char
  else None.

Definition cons_str (x : string) (r : option (string * string)) : option (string * string) :=
  match r with
  | Some (y, rest) => Some (x +:+ y, rest)
  | None => None
  end.

Definition high_surrogate (code : N) : bool := ((55296 <=? code) && (code <=? 56319))%N.
Definition low_surrogate (code : N) : bool := ((56320 <=? code) && (code <=? 57343))%N.

(** [scanstring], strict: the text after an opening quote, up to the
    closing one.  Control characters are refused; the escapes are those of
    [BACKSLASH] and [\uXXXX] with four hexadecimal digits, where a high
    surrogate and the low surrogate of a second escape right after it make
    one code point. *)
Fixpoint scanstring (s : string) : option (string * string) :=
  match s with
  | EmptyString => None
  | String c r =>
      let n := N_of_ascii c in
      if (n =? 34)%N then Some ("", r)
      else if (n =? 92)%N then
        match r with
        | String e r1 =>
            if (N_of_ascii e =? 117)%N then
              match r1 with
              | String h1 (String h2 (String h3 (String h4 r2))) =>
                  match hex4 h1 h2 h3 h4 with
                  | Some code =>
                      if high_surrogate code then
                        match r2 with
                        | String "\" (String "u" r3) =>
                            match r3 with
                            | String g1 (String g2 (String g3 (String g4 r4))) =>
                                match hex4 g1 g2 g3 g4 with
                                | Some code2 =>
                                    if low_surrogate code2 then
                                      cons_str
                                        (utf8 (65536 + (code - 55296) * 1024
                                               + (code2 - 56320))%N)
                                        (scanstring r4)
                                    else cons_str (utf8 code) (scanstring r2)
                                | None => None
                                end
                            | _ => None
                            end
                        | _ => cons_str (utf8 code) (scanstring r2)
                        end
                      else cons_str (utf8 code) (scanstring r2)
                  | None => None
                  end
              | _ => None
              end
            else
              match unescape e with
              | Some x => cons_str (String x "") (scanstring r1)
              | None => None
              end
        | EmptyString => None
        end
      else if (n <? 32)%N then None
      else cons_str (String c "") (scanstring r)
  end.

Definition digit_of (c : ascii) : option (Decimal.uint -> Decimal.uint) :=
  match c with
  | "0" => Some Decimal.D0 | "1" => Some Decimal.D1 | "2" => Some Decimal.D2
  | "3" => Some Decimal.D3 | "4" => Some Decimal.D4 | "5" => Some Decimal.D5
  | "6" => Some Decimal.D6 | "7" => Some Decimal.D7 | "8" => Some Decimal.D8
  | "9" => Some Decimal.D9 | _ => None
  end%char.

Fixpoint scan_digits (s : string) : Decimal.uint * string :=
  match s with
  | String c r =>
      match digit_of c with
      | Some d => let '(u, rest) := scan_digits r in (d u, rest)
      | None => (Decimal.Nil, s)
      end
  | EmptyString => (Decimal.Nil, s)
  end.

(** One digit at least. *)
Definition scan_digits1 (s : string) : option (Decimal.uint * string) :=
  match scan_digits s with
  | (Decimal.Nil, _) => None
  | r => Some r
  end.

(** The parts of [NUMBER_RE]: the integer, [0] or digits that start with
    another digit; the fraction, a point and digits; the exponent, [e] or
    [E], a sign or none, and digits. *)
Definition scan_int_part (s : string) : option (Decimal.uint * string) :=
  match s with
  | String c r =>
      if Ascii.eqb c "0" then Some (Decimal.D0 Decimal.Nil, r) else scan_digits1 s
  | EmptyString => None
  end.

Definition scan_frac (s : string) : option (Decimal.uint * string) :=
  match s with
  | String c r => if Ascii.eqb c "." then scan_digits1 r else None
  | EmptyString => None
  end.

Definition scan_exp (s : string) : option (Z * string) :=
  match s with
  | String c r =>
      if (Ascii.eqb c "e" || Ascii.eqb c "E")%bool then
        match r with
        | String sign r1 =>
            if Ascii.eqb sign "-" then
              match scan_digits1 r1 with
              | Some (u, rest) => Some (- Z.of_uint u, rest)
              | None => None
              end
            else
              match scan_digits1 (if Ascii.eqb sign "+" then r1 else r) with
              | Some (u, rest) => Some (Z.of_uint u, rest)
              | None => None
              end
        | EmptyString => None
        end
      else None
  | EmptyString => None
  end.

(** The value of a number: an [int] when it has neither fraction nor
    exponent, else the [float] of its text. *)
Definition number_value (neg : bool) (i : Decimal.uint) (f : option Decimal.uint)
    (e : option Z) : pyval :=
  match f, e with
  | None, None => PInt (Z.of_int (if neg then Decimal.Neg i else Decimal.Pos i))
  | _, _ =>
      let fd := default Decimal.Nil f in
      PFloat (Float.of_decimal neg (Z.of_uint (Decimal.app i fd))
                (default 0 e - Z.of_nat (Decimal.nb_digits fd)))
  end.

Definition scan_unsigned (neg : bool) (s : string) : option (pyval * string) :=
  match scan_int_part s with
  | Some (i, r1) =>
      let '(f, r2) :=
        match scan_frac r1 with
        | Some (f, r2) => (Some f, r2)
        | None => (None, r1)
        end in
      let '(e, r3) :=
        match scan_exp r2 with
        | Some (e, r3) => (Some e, r3)
        | None => (None, r2)
        end in
      Some (number_value neg i f e, r3)
  | None => None
  end.

Definition scan_number (s : string) : option (pyval * string) :=
  match s with
  | String c r => if Ascii.eqb c "-" then scan_unsigned true r else scan_unsigned false s
  | EmptyString => None
  end.

Fixpoint strip_prefix (p s : string) : option string :=
  match p, s with
  | EmptyString, _ => Some s
  | String a p', String b s' => if Ascii.eqb a b then strip_prefix p' s' else None
  | _, _ => None
  end.

(** A constant, or nothing. *)
Definition scan_constant (name : string) (v : pyval) (s : string) : option (pyval * string) :=
  match strip_prefix name s with
  | Some rest => Some (v, rest)
  | None => None
  end.

(** [d[k] = v] *)
Fixpoint dict_set (k : string) (v : pyval) (d : list (string * pyval)) : list (string * pyval) :=
  match d with
  | [] => [(k, v)]
  | (k', v') :: r => if String.eqb k k' then (k, v) :: r else (k', v') :: dict_set k v r
  end.

Definition dict_of_pairs (pairs : list (string * pyval)) : list (string * pyval) :=
  fold_left (fun d kv => dict_set (fst kv) (snd kv) d) pairs [].

(** [scan_once], with [JSONArray] and [JSONObject]; one unit of [fuel] per
    value, item and pair. *)
Fixpoint scan_once (fuel : nat) (s : string) {struct fuel} : option (pyval * string) :=
  match fuel with
  | O => None
  | S f =>
      match s with
      | String "034" r =>
          match scanstring r with
          | Some (x, rest) => Some (PStr x, rest)
          | None => None
          end
      | String "{" r =>
          match skip_ws r with
          | String "}" rest => Some (PDict [], rest)
          | r1 =>
              match parse_pairs f r1 with
              | Some (pairs, rest) => Some (PDict (dict_of_pairs pairs), rest)
              | None => None
              end
          end
      | String "[" r =>
          match skip_ws r with
          | String "]" rest => Some (PList [], rest)
          | r1 =>
              match parse_items f r1 with
              | Some (vs, rest) => Some (PList vs, rest)
              | None => None
              end
          end
      | String "n" _ => scan_constant "null" PNone s
      | String "t" _ => scan_constant "true" (PBool true) s
      | String "f" _ => scan_constant "false" (PBool false) s
      | String "N" _ => scan_constant "NaN" (PFloat SpecFloat.S754_nan) s
      | String "I" _ => scan_constant "Infinity" (PFloat (SpecFloat.S754_infinity false)) s
      | String "-" (String "I" _) =>
          scan_constant "-Infinity" (PFloat (SpecFloat.S754_infinity true)) s
      | _ => scan_number s
      end
  end
with parse_items (fuel : nat) (s : string) {struct fuel} : option (list pyval * string) :=
  match fuel with
  | O => None
  | S f =>
      match scan_once f s with
      | Some (v, r) =>
          match skip_ws r with
          | String "," r1 =>
              match parse_items f (skip_ws r1) with
              | Some (vs, rest) => Some (v :: vs, rest)
              | None => None
              end
          | String "]" rest => Some ([v], rest)
          | _ => None
          end
      | None => None
      end
  end
with parse_pairs (fuel : nat) (s : string) {struct fuel}
  : option (list (string * pyval) * string) :=
  match fuel with
  | O => None
  | S f =>
      match s with
      | String "034" r =>
          match scanstring r with
          | Some (k, r1) =>
              match skip_ws r1 with
              | String ":" r2 =>
                  match scan_once f (skip_ws r2) with
                  | Some (v, r3) =>
                      match skip_ws r3 with
                      | String "," r4 =>
                          match parse_pairs f (skip_ws r4) with
                          | Some (kvs, rest) => Some ((k, v) :: kvs, rest)
                          | None => None
                          end
                      | String "}" rest => Some ([(k, v)], rest)
                      | _ => None
                      end
                  | None => None
                  end
              | _ => None
              end
          | None => None
          end
      | _ => None
      end
  end.

(** [json.loads(s)]; [None] stands for [JSONDecodeError]. *)
Definition loads (s : string) : option pyval :=
  match scan_once (S (String.length s)) (skip_ws s) with
  | Some (v, rest) =>
      match skip_ws rest with
      | EmptyString => Some v
      | _ => None
      end
  | None => None
  end.


(** [d.get(k)] *)
Fixpoint dict_get (k : string) (d : list (string * pyval)) : option pyval :=
  match d with
  | [] => None
  | (k', v) :: r => if String.eqb k k' then Some v else dict_get k r
  end.

(** [a == b]; a [bool] is the [int] 0 or 1. *)
Fixpoint py_eq (a b : pyval) {struct a} : bool :=
  let seq_eq :=
    fix go (x y : list pyval) {struct x} : bool :=
      match x, y with
      | [], [] => true
      | u :: x', v :: y' => py_eq u v && go x' y'
      | _, _ => false
      end in
  match a, b with
  | PNone, PNone => true
  | PBool x, PBool y => Bool.eqb x y
  | PBool x, PInt z | PInt z, PBool x => (z =? (if x then 1 else 0))%Z
  | PInt x, PInt y => (x =? y)%Z
  | PFloat x, PFloat y => Float.eqb x y
  | PFloat x, PInt z | PInt z, PFloat x => Float.eq_int x z
  | PFloat x, PBool y | PBool y, PFloat x => Float.eq_int x (if y then 1 else 0)
  | PStr x, PStr y => String.eqb x y
  | PBytes x, PBytes y => String.eqb x y
  | PList x, PList y => seq_eq x y
  | PTuple x, PTuple y => seq_eq x y
  | PDict x, PDict y =>
      Nat.eqb (length x) (length y) &&
      (fix go (x : list (string * pyval)) {struct x} : bool :=
         match x with
         | [] => true
         | (k, v) :: r =>
             match dict_get k y with
             | Some v' => py_eq v v'
             | None => false
             end && go r
         end) x
  | _, _ => false
  end.

(** [bool(v)] *)
Definition py_truthy (v : pyval) : bool :=
  match v with
  | PNone | PBool false | PInt 0 | PStr EmptyString | PBytes EmptyString
  | PList [] | PTuple [] | PDict [] => false
  | PFloat x => Float.truthy x
  | _ => true
  end.

End Json.

(** ** The csv module

    [csv.DictReader] and [csv.DictWriter] are taken as given: reading turns
    text into rows or fails with the message of a [csv.Error]; writing the
    header and the rows gives the text written and, when a row has a key
    outside the field names, the message of the [ValueError] that stopped
    it. *)

Definition csv_row : Type := list (string * string).

Class CsvCodec := {
  csv_DictReader : string -> string + list csv_row;
  csv_DictWriter : list string -> list csv_row -> string * option string;
}.

(** ** utils.py *)

Module FileHandler.

Record t := { base_path : path }.

(** [__init__]: [base_path or Path.cwd()] *)
Definition init (base : option path) : M t :=
  match base with
  | Some p => ret {| base_path := p |}
  | None => p <- path_cwd ;; ret {| base_path := p |}
  end.

Definition _resolve_path (self : t) (file_path : path) : path :=
  if is_absolute file_path then file_path else joinpath (base_path self) file_path.

Definition read_text (self : t) (file_path : path) : M string :=
  let full_path := _resolve_path self file_path in
  try_except
    (f <- open_ full_path ModeR ;; file_read f)
    (orelse
       (except FileNotFoundError (fun _ =>
          print ("[ERROR] File not found: " +:+ str_of_path full_path) ;;
          ret ""))
       (except Exception (fun e =>
          print ("[ERROR] Failed to read " +:+ str_of_path full_path +:+ ": " +:+ exn_str e) ;;
          ret ""))).

Definition write_text (self : t) (file_path : path) (content : string) : M bool :=
  let full_path := _resolve_path self file_path in
  try_except
    (path_mkdir_parents (path_parent full_path) ;;
     f <- open_ full_path ModeW ;;
     file_write f content ;;
     print ("[INFO] File written: " +:+ str_of_path full_path) ;;
     ret true)
    (except Exception (fun e =>
       print ("[ERROR] Failed to write " +:+ str_of_path full_path +:+ ": " +:+ exn_str e) ;;
       ret false)).

(** [json.load(f)] *)
Definition json_load (f : file) : M Json.pyval :=
  s <- file_read f ;;
  match Json.loads s with
  | Some v => ret v
  | None => raise JSONDecodeError "Expecting value"
  end.

(** [json.dump(data, f, indent=indent, ensure_ascii=False)]: what the
    encoder produced reaches the file also when it stops on an exception. *)
Definition json_dump (data : Json.pyval) (f : file) (indent : Z) : M unit :=
  let r := Json.iterencode indent data 0 in
  file_write f (fst r) ;;
  match snd r with
  | Some e => reraise e
  | None => ret tt
  end.

Definition read_json (self : t) (file_path : path) : M Json.pyval :=
  let full_path := _resolve_path self file_path in
  try_except
    (f <- open_ full_path ModeR ;; json_load f)
    (orelse
       (except FileNotFoundError (fun _ =>
          print ("[ERROR] JSON file not found: " +:+ str_of_path full_path) ;;
          ret (Json.PDict [])))
    (orelse
       (except JSONDecodeError (fun e =>
          print ("[ERROR] Invalid JSON in " +:+ str_of_path full_path +:+ ": " +:+ exn_str e) ;;
          ret (Json.PDict [])))
       (except Exception (fun e =>
          print ("[ERROR] Failed to read JSON " +:+ str_of_path full_path +:+ ": "
                 +:+ exn_str e) ;;
          ret (Json.PDict []))))).

Definition write_json (self : t) (file_path : path) (data : Json.pyval) (indent : Z)
  : M bool :=
  let full_path := _resolve_path self file_path in
  try_except
    (path_mkdir_parents (path_parent full_path) ;;
     f <- open_ full_path ModeW ;;
     json_dump data f indent ;;
     print ("[INFO] JSON file written: " +:+ str_of_path full_path) ;;
     ret true)
    (except Exception (fun e =>
       print ("[ERROR] Failed to write JSON " +:+ str_of_path full_path +:+ ": "
              +:+ exn_str e) ;;
       ret false)).

Section Csv.
Context {codec : CsvCodec}.

(** [list(csv.DictReader(f))] *)
Definition csv_read_all (f : file) : M (list csv_row) :=
  s <- file_read f ;;
  match csv_DictReader s with
  | inr rows => ret rows
  | inl msg => raise CsvError msg
  end.

(** [writer.writeheader(); writer.writerows(data)] *)
Definition csv_write_all (f : file) (fieldnames : list string) (data : list csv_row)
  : M unit :=
  let r := csv_DictWriter fieldnames data in
  file_write f (fst r) ;;
  match snd r with
  | Some msg => raise ValueError msg
  | None => ret tt
  end.

Definition read_csv (self : t) (file_path : path) : M (list csv_row) :=
  let full_path := _resolve_path self file_path in
  try_except
    (f <- open_ full_path ModeR ;; csv_read_all f)
    (orelse
       (except FileNotFoundError (fun _ =>
          print ("[ERROR] CSV file not found: " +:+ str_of_path full_path) ;;
          ret []))
       (except Exception (fun e =>
          print ("[ERROR] Failed to read CSV " +:+ str_of_path full_path +:+ ": "
                 +:+ exn_str e) ;;
          ret []))).

Definition write_csv (self : t) (file_path : path) (data : list csv_row)
    (fieldnames : option (list string)) : M bool :=
  match data with
  | [] =>
      print "[WARNING] No data to write to CSV" ;;
      ret false
  | first :: _ =>
      let full_path := _resolve_path self file_path in
      try_except
        (path_mkdir_parents (path_parent full_path) ;;
         let fieldnames :=
           match fieldnames with
           | Some (_ :: _ as l) => l
           | _ => map fst first
           end in
         f <- open_ full_path ModeW ;;
         csv_write_all f fieldnames data ;;
         print ("[INFO] CSV file written: " +:+ str_of_path full_path) ;;
         ret true)
        (except Exception (fun e =>
           print ("[ERROR] Failed to write CSV " +:+ str_of_path full_path +:+ ": "
                  +:+ exn_str e) ;;
           ret false))
  end.

End Csv.

Definition file_exists (self : t) (file_path : path) : M bool :=
  path_exists (_resolve_path self file_path).

Definition create_directory (self : t) (dir_path : path) : M bool :=
  let full_path := _resolve_path self dir_path in
  try_except
    (path_mkdir_parents full_path ;; ret true)
    (except Exception (fun e =>
       print ("[ERROR] Failed to create directory " +:+ str_of_path full_path +:+ ": "
              +:+ exn_str e) ;;
       ret false)).

End FileHandler.

(** ** contextlib and the [with] statement *)

Module Contextlib.

(** What running a generator to its next stop gives. *)
Inductive gen_step (Y : Type) :=
| Yielded (y : Y)
| Returned.
Arguments Yielded {Y} y.
Arguments Returned {Y}.

(** How a suspended generator is resumed: [next(gen)] or [gen.throw(e)]. *)
Inductive resume := Next | Throw (e : exn).

(** A generator function with a single [yield], as [@contextmanager] wants
    it: [gen_start] runs to the [yield] (or to the end), [gen_resume y]
    continues from the [yield] that gave [y]. *)
Record generator (Y : Type) := {
  gen_start : M (gen_step Y);
  gen_resume : Y -> resume -> M unit;
}.
Arguments gen_start {Y} g.
Arguments gen_resume {Y} g y r.

(** [_GeneratorContextManager.__enter__] *)
Definition enter {Y} (g : generator Y) : M Y :=
  s <- gen_start g ;;
  match s with
  | Yielded y => ret y
  | Returned => raise RuntimeError "generator didn't yield"
  end.

(** [_GeneratorContextManager.__exit__]: the result tells whether the
    exception of the block is swallowed.  An exception that leaves the
    generator leaves [__exit__] or is raised again by [with]; both ways it
    is what the statement raises. *)
Definition exit {Y} (g : generator Y) (y : Y) (exc : option exn) : M bool :=
  match exc with
  | None => gen_resume g y Next ;; ret false
  | Some e => gen_resume g y (Throw e) ;; ret true
  end.

(** [with g as y: body y].  The result is [None] when the block raised and
    the manager swallowed the exception. *)
Definition with_ {Y A} (g : generator Y) (body : Y -> M A) : M (option A) :=
  y <- enter g ;;
  fun w =>
    match body y w with
    | (Val a, w') => (exit g y None ;; ret (Some a)) w'
    | (Exc e, w') =>
        (swallowed <- exit g y (Some e) ;;
         if swallowed : bool then ret None else reraise e) w'
    end.

End Contextlib.

(** ** chrome_driver.py *)

(** [webdriver.Chrome(service=ChromeService(executable_path), options=options)]:
    a new browser process, known by its position in [procs]. *)
Definition webdriver_Chrome (executable_path : string) (options : chrome_options)
  : M handle :=
  fun w =>
    let w' := add_call (CLaunch executable_path options) w in
    match on_launch (web w) (calls w) executable_path options with
    | None => (Val (length (procs w)), set_procs (procs w ++ [true]) w')
    | Some e => (Exc e, w')
    end.

(** [driver.quit()]: selenium ends browser and driver and swallows what goes
    wrong on the way. *)
Definition driver_quit (h : handle) : M unit :=
  fun w => (Val tt, set_procs (<[h := false]> (procs w)) (add_call (CQuit h) w)).

(** Whether the browser process of a handle is alive. *)
Definition running (w : World) (h : handle) : bool :=
  match procs w !! h with
  | Some b => b
  | None => false
  end.

Module ChromeDriverManager.

Record t := { platform : string }.

Definition _get_platform (hst : Host) : string :=
  match appmanager hst with
  | Some app_config => get_platform app_config
  | None => platform_system hst
  end.

(** [__init__] *)
Definition init : M t :=
  hst <- get_host ;;
  ret {| platform := _get_platform hst |}.

Definition _get_chrome_paths (self : t) : M (path * path) :=
  hst <- get_host ;;
  match appmanager hst with
  | Some app_config =>
      if String.eqb (platform self) "Windows" then
        ret (CHROME_FOR_TESTING_DIR app_config /: ["chrome-win64"; "chrome.exe"],
             CHROMEDRIVER_PATH app_config)
      else
        ret (CHROME_FOR_TESTING_DIR app_config /: ["chrome-linux64"; "chrome"],
             CHROMEDRIVER_PATH app_config)
  | None =>
      let project_name := str_lower (path_name (PROJECT_ROOT hst)) in
      let finish (chrome_dir : path) : M (path * path) :=
        if String.eqb (platform self) "Windows" then
          ret (chrome_dir /: ["chrome-win64"; "chrome.exe"],
               chrome_dir /: ["chromedriver-win64"; "chromedriver.exe"])
        else
          ret (chrome_dir /: ["chrome-linux64"; "chrome"],
               chrome_dir /: ["chromedriver-linux64"; "chromedriver"]) in
      if String.eqb (platform self) "Windows" then
        let app_data := environ hst !! "LOCALAPPDATA" in
        if Config.env_truthy app_data then
          finish (path_of_str (default "" app_data) /: [project_name] /: ["ChromeForTesting"])
        else raise RuntimeError "LOCALAPPDATA environment variable not found."
      else if String.eqb (platform self) "Linux" then
        let xdg_data_home := environ hst !! "XDG_DATA_HOME" in
        let base_path :=
          if Config.env_truthy xdg_data_home then path_of_str (default "" xdg_data_home)
          else home hst /: [".local"] /: ["share"] in
        finish (base_path /: [project_name] /: ["ChromeForTesting"])
      else
        finish (home hst /: ["." +:+ project_name] /: ["ChromeForTesting"])
  end.

(** [int(x)] for the float of [time.time()]: the fraction is cut off. *)
Definition int_of_time (x : Q) : Z := Z.quot (Qnum x) (Z.pos (Qden x)).

(** The profile directory of a session: [root / f"{profile_name}_{timestamp}"]. *)
Definition profile_path_at (root : path) (profile_name : string) (t : Q) : path :=
  root /: [profile_name +:+ "_" +:+ str_of_Z (int_of_time t)].

Definition build_options (self : t) (chrome_binary profile_path : path) (detach : bool)
  : chrome_options :=
  {| binary_location := str_of_path chrome_binary;
     arguments :=
       ["--user-data-dir=" +:+ str_of_path profile_path;
        "--start-maximized"; "--disable-infobars"; "--no-first-run";
        "--disable-default-apps"]
       ++ (if String.eqb (platform self) "Linux" then ["--no-sandbox"] else []);
     detach_option := detach;
     excludeSwitches := ["enable-automation"];
     useAutomationExtension := false |}.

Definition create_driver (self : t) (profile_name : option string) (detach : bool)
  : M handle :=
  hst <- get_host ;;
  let profile_name := default (Config.DEFAULT_PROFILE_NAME hst) profile_name in
  paths <- _get_chrome_paths self ;;
  let chrome_binary := fst paths in
  let driver_path := snd paths in
  binary_found <- path_exists chrome_binary ;;
  if negb binary_found then
    raise FileNotFoundError ("Chrome binary not found at: " +:+ str_of_path chrome_binary)
  else
  driver_found <- path_exists driver_path ;;
  if negb driver_found then
    raise FileNotFoundError ("ChromeDriver not found at: " +:+ str_of_path driver_path)
  else
  timestamp <- time_time ;;
  root <- Config.get_chrome_profile_path ;;
  let profile_path := profile_path_at root profile_name timestamp in
  webdriver_Chrome (str_of_path driver_path)
                   (build_options self chrome_binary profile_path detach).

(** [self._keep_open = keep_open] *)
Definition set_keep_open (keep_open : bool) : M unit :=
  fun w => (Val tt, set_mgr_keep_open (Some keep_open) w).

(** [getattr(self, '_keep_open', False)] *)
Definition get_keep_open : M bool :=
  fun w => (Val (default false (mgr_keep_open w)), w).

(** The [except] clauses of [managed_driver]. *)
Definition managed_driver_clauses (e : exn) : option (M unit) :=
  orelse
    (except FileNotFoundError (fun e =>
       print (nl +:+ "[ERROR] Required file not found: " +:+ exn_str e) ;;
       print "[INFO] Please run 'Install Chrome for Testing' in PySeed Manager."))
    (except Exception (fun e =>
       print (nl +:+ "[ERROR] Chrome setup failed: " +:+ exn_str e)))
    e.

(** The [finally] block of [managed_driver], with the local [driver]. *)
Definition managed_driver_finally (driver : option handle) : M unit :=
  match driver with
  | Some d =>
      keep <- get_keep_open ;;
      if negb keep then
        driver_quit d ;;
        print "[INFO] Chrome closed."
      else
        print "[INFO] Chrome left open for manual inspection."
  | None => ret tt
  end.

(** [managed_driver] is a generator.  Up to its [yield] the local [driver]
    is [None] until [create_driver] returns; after the [yield] it is the
    driver that was yielded. *)
Definition managed_driver (self : t) (profile_name : option string) (keep_open : bool)
  : Contextlib.generator (option handle) :=
  {| Contextlib.gen_start :=
       set_keep_open keep_open ;;
       hst <- get_host ;;
       fun w =>
         match (print ("[INFO] Launching Chrome with profile: "
                       +:+ (if Config.env_truthy profile_name then default "" profile_name
                            else Config.DEFAULT_PROFILE_NAME hst) +:+ "...") ;;
                create_driver self profile_name false) w with
         | (Val d, w') => (Val (Contextlib.Yielded (Some d)), w')
         | (Exc e, w') =>
             (try_finally (try_except (reraise e) managed_driver_clauses)
                          (managed_driver_finally None) ;;
              ret Contextlib.Returned) w'
         end;
     Contextlib.gen_resume := fun driver r =>
       try_finally
         (try_except
            (match r with
             | Contextlib.Next => ret tt
             | Contextlib.Throw e => reraise e
             end)
            managed_driver_clauses)
         (managed_driver_finally driver) |}.

End ChromeDriverManager.

(** ** core.py *)

Module MainApplication.

Record t := {
  chrome_manager : ChromeDriverManager.t;
  file_handler : FileHandler.t;
  _last_search_term : option string;
}.

(** [__init__] *)
Definition init : M t :=
  mgr <- ChromeDriverManager.init ;;
  fh <- FileHandler.init None ;;
  ret {| chrome_manager := mgr; file_handler := fh; _last_search_term := None |}.

Definition _get_timestamp : M string :=
  fun w => (Val (strftime (host w) (now w)), w).

(** [text_content += f"{i}. {title}\n"] for each title. *)
Fixpoint numbered_lines (i : Z) (titles : list string) : string :=
  match titles with
  | [] => ""
  | title :: rest =>
      str_of_Z i +:+ ". " +:+ title +:+ nl +:+ numbered_lines (i + 1) rest
  end.

Definition _save_results (self : t) (video_titles : list string) : M unit :=
  try_except
    (hst <- get_host ;;
     let term := default Config.DEFAULT_SEARCH_TERM (_last_search_term self) in
     stamp <- _get_timestamp ;;
     let data := Json.PDict [("search_term", Json.PStr term);
                             ("timestamp", Json.PStr stamp);
                             ("results", Json.PList (map Json.PStr video_titles))] in
     let json_file := PROJECT_DIR hst /: ["results"] /: ["youtube_results.json"] in
     written <- FileHandler.write_json (file_handler self) json_file data 2 ;;
     (if written : bool then print ("[INFO] Results saved to: " +:+ str_of_path json_file)
      else ret tt) ;;
     stamp2 <- _get_timestamp ;;
     let text_content :=
       "YouTube Search Results" +:+ nl +:+
       "Search Term: " +:+ term +:+ nl +:+
       "Timestamp: " +:+ stamp2 +:+ nl +:+ nl +:+
       numbered_lines 1 video_titles in
     let text_file := PROJECT_DIR hst /: ["results"] /: ["youtube_results.txt"] in
     written <- FileHandler.write_text (file_handler self) text_file text_content ;;
     if written : bool then print ("[INFO] Results also saved to: " +:+ str_of_path text_file)
     else ret tt)
    (except Exception (fun e =>
       print ("[ERROR] Failed to save results: " +:+ exn_str e))).

(** The block under [with self.chrome_manager.managed_driver(...) as driver]. *)
Definition demo_block (self : t) (search_term : string) (driver : option handle) : M unit :=
  match driver with
  | None => ret tt
  | Some d =>
      let youtube := YouTubeAutomation.init d in
      let self := {| chrome_manager := chrome_manager self;
                     file_handler := file_handler self;
                     _last_search_term := Some search_term |} in
      video_titles <- YouTubeAutomation.search_tech_news youtube (Some search_term) ;;
      (match video_titles with
       | [] => ret tt
       | _ => _save_results self video_titles
       end) ;;
      _ <- input (nl +:+ "[INFO] Browse the results and press Enter when done...") ;;
      _ <- input (nl +:+ "[INFO] Press Enter to close Chrome and exit...") ;;
      ret tt
  end.

Definition run_youtube_demo (self : t) : M unit :=
  hst <- get_host ;;
  print (nl +:+ "=== " +:+ PROJECT_NAME hst +:+ " v" +:+ VERSION hst +:+ " ===") ;;
  let search_term := Config.DEFAULT_SEARCH_TERM in
  print ("Searching YouTube for: '" +:+ search_term +:+ "'") ;;
  try_except
    (_ <- Contextlib.with_
            (ChromeDriverManager.managed_driver (chrome_manager self) None false)
            (demo_block self search_term) ;;
     ret tt)
    (orelse
       (except KeyboardInterrupt (fun _ =>
          print (nl +:+ "[INFO] Operation cancelled by user.")))
       (except Exception (fun e =>
          print (nl +:+ "[ERROR] Application error: " +:+ exn_str e)))).

Definition run (self : t) : M unit := run_youtube_demo self.

End MainApplication.

(** ** A small host to run the program on *)

Module Demo.

Definition timeout_exn : exn := mk_exn TimeoutException "Message: ".

(** A site whose body never shows up is [body_ok = false]; one whose search
    results never load is [search_ok = false].  The result list has
    the elements [10, 11, ...], one per entry of [titles], and an entry is
    the [title] attribute of its element. *)
Definition site (body_ok search_ok : bool) (titles : list (option string)) : Web :=
  {| on_launch := fun _ _ _ => None;
     on_get := fun _ _ _ => None;
     on_wait := fun _ _ _ loc =>
       if String.eqb (snd loc) "body" then
         (if body_ok then inr 1%nat else inl timeout_exn)
       else if String.eqb (snd loc) "contents" then
         (if search_ok then inr 3%nat else inl timeout_exn)
       else inr 2%nat;
     on_wait_all := fun _ _ _ _ => inr (seq 10 (length titles));
     on_clear := fun _ _ _ => None;
     on_send_keys := fun _ _ _ _ => None;
     on_get_attribute := fun _ _ el _ => inr (nth (el - 10) titles None) |}.

Definition demo_host : Host :=
  {| platform_system := "Linux";
     environ := ∅;
     home := Path true ["home"; "demo"];
     appmanager := None;
     PROJECT_ROOT := Path true ["opt"; "PySeed_Demo"];
     PROJECT_DIR := Path true ["opt"; "PySeed_Demo"; "project"];
     PROJECT_NAME := "PySeed_Demo";
     VERSION := "1.0.0";
     strftime := fun _ => "2024-05-01 12:00:00" |}.

(** A filesystem holding the given files, with the directories above them. *)
Fixpoint fs_with (files : list (list string)) : gmap (list string) fnode :=
  match files with
  | [] => ∅
  | k :: rest =>
      let f := fs_with rest in
      match Fs.mkdir_parents (length k) (removelast k) f with
      | inr f1 =>
          match Fs.open_write k f1 with
          | inr f2 => f2
          | inl _ => f1
          end
      | inl _ => f
      end
  end.

Definition chrome_dir : list string :=
  ["home"; "demo"; ".local"; "share"; "pyseed_demo"; "ChromeForTesting"].

Definition installed : gmap (list string) fnode :=
  fs_with [(chrome_dir ++ ["chrome-linux64"; "chrome"])%list;
           (chrome_dir ++ ["chromedriver-linux64"; "chromedriver"])%list].

Definition world (wb : Web) (files : gmap (list string) fnode) (t : Q)
    (keys : list stdin_item) : World :=
  {| web := wb; calls := []; procs := []; console := []; stdin := keys;
     fs := files; cwd := ["opt"; "PySeed_Demo"]; now := t; host := demo_host;
     mgr_keep_open := None |}.

Definition youtube : YouTubeAutomation.t := YouTubeAutomation.init 0%nat.

Definition manager : ChromeDriverManager.t := {| ChromeDriverManager.platform := "Linux" |}.

Definition app : MainApplication.t :=
  {| MainApplication.chrome_manager := manager;
     MainApplication.file_handler :=
       {| FileHandler.base_path := Path true ["opt"; "PySeed_Demo"] |};
     MainApplication._last_search_term := None |}.

(** A codec for comma-separated text without quoting, enough to run
    [read_csv] and [write_csv] on: the first line names the fields, a row
    with a key outside the field names stops the writer. *)
Definition plain_line (fieldnames : list string) (row : csv_row) : string :=
  str_join "," (map (fun k => default "" (snd <$> List.find (fun kv => String.eqb (fst kv) k) row))
                    fieldnames) +:+ nl.

Fixpoint plain_lines (fieldnames : list string) (rows : list csv_row)
  : string * option string :=
  match rows with
  | [] => ("", None)
  | row :: rest =>
      if forallb (fun kv => existsb (String.eqb (fst kv)) fieldnames) row then
        (plain_line fieldnames row +:+ fst (plain_lines fieldnames rest),
         snd (plain_lines fieldnames rest))
      else ("", Some "dict contains fields not in fieldnames")
  end.

Definition plain_rows (s : string) : list csv_row :=
  match List.filter (fun l => negb (String.eqb l "")) (split_on "010" s "") with
  | [] => []
  | header :: lines =>
      map (fun l => combine (split_on "," header "") (split_on "," l "")) lines
  end.

#[local] Instance plain_csv : CsvCodec :=
  {| csv_DictReader := fun s => inr (plain_rows s);
     csv_DictWriter := fun fieldnames rows =>
       (str_join "," fieldnames +:+ nl +:+ fst (plain_lines fieldnames rows),
        snd (plain_lines fieldnames rows)) |}.

End Demo.

(** ** __main__.py *)

(** The code points [str.isspace] holds for. *)
Definition whitespace : list N :=
  [9; 10; 11; 12; 13; 28; 29; 30; 31; 32; 133; 160; 5760;
   8192; 8193; 8194; 8195; 8196; 8197; 8198; 8199; 8200; 8201; 8202;
   8232; 8233; 8239; 8287; 12288]%N.

(** [c.isspace()] for a character given by the bytes of its encoding;
    no white space needs more than three. *)
Definition isspace (c : string) : bool :=
  existsb (fun cp => String.eqb (utf8 cp) c) whitespace.

(** [s.lstrip()]: the characters of white space at the start are
    dropped, one at a time. *)
Fixpoint lstrip (s : string) : string :=
  match s with
  | String a r =>
      if isspace (String a "") then lstrip r
      else
        match r with
        | String b r1 =>
            if isspace (String a (String b "")) then lstrip r1
            else
              match r1 with
              | String c r2 =>
                  if isspace (String a (String b (String c ""))) then lstrip r2 else s
              | EmptyString => s
              end
        | EmptyString => s
        end
  | EmptyString => s
  end.

(** [s.rstrip()]: from the first place on after which all is white space,
    the text is dropped. *)
Fixpoint rstrip (s : string) : string :=
  match s with
  | EmptyString => ""
  | String c r =>
      match lstrip s with
      | EmptyString => ""
      | _ => String c (rstrip r)
      end
  end.

(** [s.strip()] *)
Definition strip (s : string) : string := rstrip (lstrip s).

(** [p.resolve()]: the absolute path; links and dot segments are left
    out of the model. *)
Definition path_resolve (p : path) : M path :=
  fun w => (Val (Path true (os_key w p)), w).

(** [p.read_text()]: the text of the file, decoded with the encoding of
    the locale, taken to be UTF-8. *)
Definition path_read_text (p : path) : M string :=
  f <- open_ p ModeR ;; file_read f.

(** A bare [except:] clause. *)
Definition except_all {A} (handler : M A) (e : exn) : option (M A) := Some handler.

Module Main.

(** What the module reads of the interpreter: [sys.frozen] and
    [sys._MEIPASS], which PyInstaller sets, [sys.executable], the
    [__file__] of the module, and two functions of the [appmanager]
    package, [utils.get_version] and [VenvManager().ensure_active]. *)
Record Sys := {
  frozen : bool;
  executable : path;
  _MEIPASS : option path;
  __file__ : path;
  utils_get_version : M string;
  ensure_active : M unit;
}.

(** [PROJECT_ROOT] and [PROJECT_DIR] *)
Definition project_paths (sys : Sys) : M (path * path) :=
  if frozen sys then
    let PROJECT_ROOT := path_parent (executable sys) in
    ret (PROJECT_ROOT, PROJECT_ROOT)
  else
    PROJECT_ROOT <- path_resolve (path_parent (path_parent (__file__ sys))) ;;
    ret (PROJECT_ROOT, path_parent (__file__ sys)).

Definition _get_project_name (sys : Sys) (PROJECT_ROOT : path) : string :=
  if frozen sys then path_name (path_parent PROJECT_ROOT) else path_name PROJECT_ROOT.

(** [o.get(key, default)]: a dict alone has the method.  The
    [AttributeError] of another value is not among the classes of [Py];
    [Exception], its base class, stands for it, and only a bare [except]
    meets it. *)
Definition py_get (o : Json.pyval) (key : string) (dflt : Json.pyval) : M Json.pyval :=
  match o with
  | Json.PDict d => ret (default dflt (Json.dict_get key d))
  | _ => raise Exception "object has no attribute 'get'"
  end.

(** [p / v] for a value read from JSON: a [str] is taken as a path, any
    other value is a [TypeError]. *)
Definition truediv (p : path) (v : Json.pyval) : M path :=
  match v with
  | Json.PStr s => ret (joinpath p (path_of_str s))
  | _ => raise TypeError "unsupported operand type(s) for /"
  end.

Definition bundled_default (bundle_dir : path) : path :=
  bundle_dir /: ["project"] /: ["requirements"] /: ["version.txt"].

(** The inner [try] of [_get_version]: the list [possible_bundled_paths].
    Nothing can raise once the first path is appended, so the list is
    empty whenever the [except] clause runs. *)
Definition possible_bundled_paths (bundle_dir : path) : M (list path) :=
  try_except
    (let config_file := bundle_dir /: ["project_config.json"] in
     found <- path_exists config_file ;;
     if found : bool then
       config_data <- (f <- open_ config_file ModeR ;; FileHandler.json_load f) ;;
       project_mode <- py_get config_data "project_mode" (Json.PStr "PYSEED_PROJECT") ;;
       custom <-
         (if Json.py_eq project_mode (Json.PStr "EXTERNAL_REPO") then
            project_paths <- py_get config_data "project_paths" (Json.PDict []) ;;
            custom_path <- py_get project_paths "version_txt" Json.PNone ;;
            if Json.py_truthy custom_path then
              p <- truediv (bundle_dir /: ["project"]) custom_path ;;
              ret [p]
            else ret []
          else ret []) ;;
       ret (custom ++ [bundled_default bundle_dir])
     else ret [bundled_default bundle_dir])
    (except_all (ret [bundled_default bundle_dir])).

(** [for bundled_version in possible_bundled_paths], returning the text
    of the first file that exists; [None] when the loop comes to its
    end. *)
Fixpoint first_bundled (paths : list path) : M (option string) :=
  match paths with
  | [] => ret None
  | bundled_version :: rest =>
      found <- path_exists bundled_version ;;
      if found : bool then
        text <- path_read_text bundled_version ;;
        ret (Some (strip text))
      else first_bundled rest
  end.

(** [for version_file in possible_paths], where a file that cannot be
    read is passed over. *)
Fixpoint first_external (paths : list path) : M (option string) :=
  match paths with
  | [] => ret None
  | version_file :: rest =>
      found <- path_exists version_file ;;
      if found : bool then
        try_except
          (text <- path_read_text version_file ;;
           ret (Some (strip text)))
          (except_all (first_external rest))
      else first_external rest
  end.

Definition possible_paths (PROJECT_ROOT : path) : list path :=
  [path_parent PROJECT_ROOT /: ["requirements"] /: ["version.txt"];
   path_parent PROJECT_ROOT /: ["version.txt"];
   PROJECT_ROOT /: ["version.txt"]].

(** Without [appmanager] the import in the script branch fails; an
    [ImportError] of [get_version] itself is outside the model. *)
Definition _get_version (sys : Sys) (PROJECT_ROOT : path) : M string :=
  if frozen sys then
    bundled <-
      try_except
        (match _MEIPASS sys with
         | Some bundle_dir =>
             paths <- possible_bundled_paths bundle_dir ;;
             first_bundled paths
         | None => raise Exception "module 'sys' has no attribute '_MEIPASS'"
         end)
        (except_all (ret None)) ;;
    match bundled with
    | Some version => ret version
    | None =>
        external <- first_external (possible_paths PROJECT_ROOT) ;;
        ret (default "1.0.0" external)
    end
  else
    hst <- get_host ;;
    match appmanager hst with
    | Some _ => utils_get_version sys
    | None => ret "1.0.0"
    end.

(** The constants of the module, in the order it computes them:
    [PROJECT_ROOT], [PROJECT_DIR], [PROJECT_NAME], [VERSION]. *)
Definition constants (sys : Sys) : M (path * path * string * string) :=
  paths <- project_paths sys ;;
  version <- _get_version sys (fst paths) ;;
  ret (fst paths, snd paths, _get_project_name sys (fst paths), version).

Definition main (sys : Sys) : M unit :=
  if frozen sys then
    app <- MainApplication.init ;;
    MainApplication.run app
  else
    ensure_active sys ;;
    app <- MainApplication.init ;;
    MainApplication.run app.

End Main.

(** ** More hosts and sites to run the program on *)

Module Scenario.

(** The site of [Demo.site] where every element shows up, except that
    reading the [title] of the element [bad] raises [e]. *)
Definition title_raises (titles : list (option string)) (bad : element) (e : exn) : Web :=
  let base := Demo.site true true titles in
  {| on_launch := on_launch base;
     on_get := on_get base;
     on_wait := on_wait base;
     on_wait_all := on_wait_all base;
     on_clear := on_clear base;
     on_send_keys := on_send_keys base;
     on_get_attribute := fun cs h el name =>
       if Nat.eqb el bad then inl e else on_get_attribute base cs h el name |}.

(** A browser in which every wait for one element ends with [e]. *)
Definition waits_raise (e : exn) : Web :=
  let base := Demo.site true true [] in
  {| on_launch := on_launch base;
     on_get := on_get base;
     on_wait := fun _ _ _ _ => inl e;
     on_wait_all := on_wait_all base;
     on_clear := on_clear base;
     on_send_keys := on_send_keys base;
     on_get_attribute := on_get_attribute base |}.

(** A host on which the browser does not start: [webdriver.Chrome] raises [e]. *)
Definition launch_raises (e : exn) : Web :=
  let base := Demo.site true true [] in
  {| on_launch := fun _ _ _ => Some e;
     on_get := on_get base;
     on_wait := on_wait base;
     on_wait_all := on_wait_all base;
     on_clear := on_clear base;
     on_send_keys := on_send_keys base;
     on_get_attribute := on_get_attribute base |}.

Definition interrupt : exn := mk_exn KeyboardInterrupt "".

Definition stale : exn :=
  mk_exn StaleElementReferenceException "Message: stale element reference".



(** An executable made by PyInstaller, unpacked under [/tmp/_MEI1]. *)
Definition frozen_sys : Main.Sys :=
  {| Main.frozen := true;
     Main.executable := Path true ["opt"; "PySeed_Demo"; "dist"; "demo"];
     Main._MEIPASS := Some (Path true ["tmp"; "_MEI1"]);
     Main.__file__ := Path true ["tmp"; "_MEI1"; "project"; "__main__.py"];
     Main.utils_get_version := ret "1.0.0";
     Main.ensure_active := ret tt |}.

(** The files [texts] with what they hold, and the directories above them. *)
Fixpoint files_holding (texts : list (list string * string)) : gmap (list string) fnode :=
  match texts with
  | [] => ∅
  | (k, text) :: rest =>
      let f := files_holding rest in
      match Fs.mkdir_parents (length k) (removelast k) f with
      | inr f1 => <[k := File true true (Utf8 text)]> f1
      | inl _ => f
      end
  end.

(** A bundle with the version file at its usual place. *)
Definition plain_bundle : gmap (list string) fnode :=
  files_holding
    [(["tmp"; "_MEI1"; "project"; "requirements"; "version.txt"], " 2.1.0" +:+ nl)].

(** A bundle of an external repository whose [project_config.json] names
    a directory, [docs], as its version file. *)
Definition external_repo_bundle : gmap (list string) fnode :=
  files_holding
    [(["tmp"; "_MEI1"; "project_config.json"],
      fst (Json.iterencode 2
             (Json.PDict [("project_mode", Json.PStr "EXTERNAL_REPO");
                          ("project_paths",
                           Json.PDict [("version_txt", Json.PStr "docs")])]) 0));
     (["tmp"; "_MEI1"; "project"; "docs"; "index.md"], "");
     (["tmp"; "_MEI1"; "project"; "requirements"; "version.txt"], "2.1.0")].

End Scenario.

(** * Vocabulary of the statements *)

(** All calls of a list, in order. *)
Definition add_calls (cs : list call) (w : World) : World :=
  fold_left (fun w c => add_call c w) cs w.

(** The calls of the extraction step. *)
Definition is_extraction (c : call) : bool :=
  match c with
  | CWaitAll _ _ _ | CGetAttribute _ _ _ => true
  | _ => false
  end.

Definition no_extraction (c : call) : bool := negb (is_extraction c).

(** [m] only adds calls that satisfy [P] to the record of calls. *)
Definition emits {A} (P : call -> bool) (m : M A) : Prop :=
  forall w r w', m w = (r, w') ->
    exists cs, calls w' = calls w ++ cs /\ forallb P cs = true.

(** [m] leaves the part [proj] of the world as it was. *)
Definition frames {X A} (proj : World -> X) (m : M A) : Prop :=
  forall w r w', m w = (r, w') -> proj w' = proj w.

Definition keeps_attr {A} (m : M A) : Prop := frames mgr_keep_open m.

(** The locator of the result titles. *)
Definition titles_locator : locator := (CSS_SELECTOR, "a#video-title").

Definition title_call (h : handle) (el : element) : call := CGetAttribute h el "title".

(** What the driver answers when the [title] attribute of each element is
    read in turn, after the calls [cs]. *)
Fixpoint title_answers (wb : Web) (h : handle) (cs : list call) (els : list element)
  : list (exn + option string) :=
  match els with
  | [] => []
  | el :: rest =>
      on_get_attribute wb cs h el "title"
      :: title_answers wb h (cs ++ [title_call h el]) rest
  end.

(** The attribute values that count as a title, in order. *)
Definition kept_titles (attrs : list (option string)) : list string :=
  flat_map (fun a => if YouTubeAutomation.truthy a then [default "" a] else []) attrs.

(** The first lines [managed_driver] and [run_youtube_demo] print. *)
Definition launch_line (hst : Host) (profile_name : option string) : string :=
  "[INFO] Launching Chrome with profile: " +:+
  (if Config.env_truthy profile_name then default "" profile_name
   else Config.DEFAULT_PROFILE_NAME hst) +:+ "...".

Definition banner_line (hst : Host) : string :=
  nl +:+ "=== " +:+ PROJECT_NAME hst +:+ " v" +:+ VERSION hst +:+ " ===".

(** The [--user-data-dir] argument of each browser launched. *)
Definition launched_profiles (cs : list call) : list string :=
  flat_map (fun c => match c with
                     | CLaunch _ o => take 1 (arguments o)
                     | _ => []
                     end) cs.

(** The text [open(p, 'r')] and [read()] give; [None] when the open or the
    decoding of the bytes fails. *)
Definition readable_text (w : World) (p : path) : option string :=
  match Fs.open_read (os_key w p) (fs w) with
  | Some _ => None
  | None =>
      match fs w !! os_key w p with
      | Some (File _ _ (Utf8 text)) => Some (universal_newlines text)
      | _ => None
      end
  end.

(** The filesystem once the directories above [p] are made and [p] is
    opened for writing; [None] when one of the two fails. *)
Definition opened_for_write (w : World) (p : path) : option (gmap (list string) fnode) :=
  let kp := os_key w (path_parent p) in
  match Fs.mkdir_parents (length kp) kp (fs w) with
  | inr f1 =>
      match Fs.open_write (os_key w p) f1 with
      | inr f2 => Some f2
      | inl _ => None
      end
  | inl _ => None
  end.

(** [fieldnames or list(data[0].keys())] *)
Definition csv_fieldnames (fieldnames : option (list string)) (data : list csv_row)
  : list string :=
  match fieldnames with
  | Some (_ :: _ as l) => l
  | _ => match data with first :: _ => map fst first | [] => [] end
  end.

(** A result of the csv reader as an option. *)
Definition csv_rows {codec : CsvCodec} (s : string) : option (list csv_row) :=
  match csv_DictReader s with
  | inr rows => Some rows
  | inl _ => None
  end.

(** Values the encoder accepts: no [bytes] anywhere. *)
Fixpoint serialisable (v : Json.pyval) : bool :=
  match v with
  | Json.PBytes _ => false
  | Json.PList l | Json.PTuple l => forallb serialisable l
  | Json.PDict d => forallb (fun kv => serialisable (snd kv)) d
  | _ => true
  end.

(** What a value looks like after a trip through JSON: tuples come back as
    lists. *)
Fixpoint json_image (v : Json.pyval) : Json.pyval :=
  match v with
  | Json.PList l | Json.PTuple l => Json.PList (map json_image l)
  | Json.PDict d => Json.PDict (map (fun kv => (fst kv, json_image (snd kv))) d)
  | _ => v
  end.



(** What [scan_digits] makes of a text of digits. *)
Definition digits_of (s : string) : Decimal.uint := fst (Json.scan_digits s).

(** The value json's scanner gives to a number as [repr] writes it. *)
Definition frac_value (f : string) : option Decimal.uint :=
  match f with
  | EmptyString => None
  | String _ _ => Some (digits_of f)
  end.

Definition exp_value (e : option (bool * string)) : option Z :=
  match e with
  | Some (s, d) =>
      Some (if s : bool then (- Z.of_uint (digits_of d))%Z else Z.of_uint (digits_of d))
  | None => None
  end.

Definition literal_value (l : Float.literal) : Json.pyval :=
  Json.number_value (Float.lit_neg l) (digits_of (Float.lit_int l))
    (frac_value (Float.lit_frac l)) (exp_value (Float.lit_exp l)).

(** The float is the double its own [repr] denotes.  Every float of
    CPython is: its [repr] is the shortest decimal that reads back.  A
    double in another than the canonical form is not. *)
Definition reads_back (x : Float.float) : bool :=
  match x with
  | SpecFloat.S754_nan | SpecFloat.S754_infinity _ => true
  | _ =>
      match literal_value (Float.repr_literal x) with
      | Json.PFloat y => bool_decide (y = x)
      | _ => false
      end
  end.

(** Every float of the value is the double its [repr] denotes. *)
Fixpoint floats_read_back (v : Json.pyval) : bool :=
  match v with
  | Json.PFloat x => reads_back x
  | Json.PList l | Json.PTuple l => forallb floats_read_back l
  | Json.PDict d => forallb (fun kv => floats_read_back (snd kv)) d
  | _ => true
  end.

(** The keys of every dict are distinct, as in any Python dict. *)
Fixpoint distinct_keys (v : Json.pyval) : Prop :=
  match v with
  | Json.PList l | Json.PTuple l =>
      (fix all (l : list Json.pyval) : Prop :=
         match l with
         | [] => True
         | x :: r => distinct_keys x /\ all r
         end) l
  | Json.PDict d =>
      NoDup (map fst d) /\
      (fix all (d : list (string * Json.pyval)) : Prop :=
         match d with
         | [] => True
         | kv :: r => distinct_keys (snd kv) /\ all r
         end) d
  | _ => True
  end.

Section JsonVocabulary.
Import Json.
Variable indent : Z.

(** A text that starts with a point or the letter of an exponent. *)
Definition float_tail (s : string) : bool :=
  match s with
  | String c _ => let n := N_of_ascii c in ((n =? 46) || (n =? 101) || (n =? 69))%N
  | EmptyString => false
  end.

(** The text after a number: not a digit, and no fraction or exponent. *)
Definition ends_number (s : string) : bool :=
  match s with
  | EmptyString => true
  | String c _ =>
      match digit_of c with
      | Some _ => false
      | None => negb (float_tail s)
      end
  end.

(** A text of digits, and a text that starts with one. *)
Fixpoint all_digits (s : string) : bool :=
  match s with
  | EmptyString => true
  | String c r =>
      match digit_of c with
      | Some _ => all_digits r
      | None => false
      end
  end.

Definition starts_digit (s : string) : bool :=
  match s with
  | String c _ =>
      match digit_of c with
      | Some _ => true
      | None => false
      end
  | EmptyString => false
  end.

(** A literal the scanner takes for a float: the integer is [0] or digits
    that start with another digit, and there is a fraction or an
    exponent. *)
Definition well_formed (l : Float.literal) : bool :=
  all_digits (Float.lit_int l)
  && (String.eqb (Float.lit_int l) "0"
      || match Float.lit_int l with
         | String c _ => negb (Ascii.eqb c "0")
         | EmptyString => false
         end)
  && all_digits (Float.lit_frac l)
  && match Float.lit_exp l with
     | Some (_, e) => all_digits e && negb (String.eqb e "")
     | None => negb (String.eqb (Float.lit_frac l) "")
     end.

(** The characters a JSON value can start with. *)
Definition value_start (c : ascii) : bool :=
  match digit_of c with
  | Some _ => true
  | None =>
      let n := N_of_ascii c in
      ((n =? 34) || (n =? 123) || (n =? 91) || (n =? 110) || (n =? 116) || (n =? 102)
       || (n =? 45) || (n =? 78) || (n =? 73))%N
  end.

Definition number_start (c : ascii) : bool :=
  match digit_of c with
  | Some _ => true
  | None => (N_of_ascii c =? 45)%N
  end.

(** The fuel [scan_once] uses on what the encoder wrote for a value. *)
Fixpoint need (v : pyval) : nat :=
  match v with
  | PList l | PTuple l => S (list_sum (map (fun x => S (need x)) l))
  | PDict d => S (list_sum (map (fun kv => S (need (snd kv))) d))
  | _ => 1
  end.

(** The text of [list_loop] and of [dict_loop] when no item fails. *)
Fixpoint items_text (level : nat) (ts : list string) (buf : string) : string :=
  match ts with
  | [] => newline_indent indent level +:+ "]"
  | t :: r => buf +:+ t +:+ items_text level r ("," +:+ newline_indent indent (S level))
  end.

Fixpoint pairs_text (level : nat) (kts : list (string * string)) (sep : string) : string :=
  match kts with
  | [] => newline_indent indent level +:+ "}"
  | (k, t) :: r =>
      sep +:+ encode_basestring k +:+ ": " +:+ t
      +:+ pairs_text level r ("," +:+ newline_indent indent (S level))
  end.

(** The text written for a value. *)
Definition txt (v : pyval) (level : nat) : string := fst (iterencode indent v level).

(** [scan_once] reads back what the encoder wrote for [v], whatever
    follows it. *)
Definition decodes (v : pyval) : Prop :=
  forall level fuel rest,
    (need v <= fuel)%nat -> ends_number rest = true ->
    scan_once fuel (txt v level +:+ rest) = Some (json_image v, rest).

Definition item_sep (level : nat) : string := "," +:+ newline_indent indent (S level).

Definition fails_only_TypeError (o : out) : Prop :=
  forall e, snd o = Some e -> exn_cls e = TypeError.

End JsonVocabulary.

(** ** More vocabulary *)

(** The calls of a search that goes through, on the search box [box]. *)
Definition search_calls (self : YouTubeAutomation.t) (box : element) (term : string)
  : list call :=
  let h := YouTubeAutomation.driver self in
  let t := YouTubeAutomation.wait self in
  [CWait h t (NAME, "search_query"); CClear h box; CSendKeys h box (Text term);
   CSendKeys h box RETURN; CWait h t (ID, "contents")].

(** The lines of [for i, title in enumerate(titles, 1): print(f"{i}. {title}")]. *)
Definition numbered (titles : list string) : list string :=
  imap (fun k title => str_of_Z (Z.of_nat k + 1) +:+ ". " +:+ title) titles.

(** The world itself, and parts of it: what is not the browser, the
    console or the clock; all but the console; the filesystem with the
    working directory; what is neither filesystem nor console. *)
Definition whole (w : World) : World := w.

Definition beside_browser (w : World)
  : gmap (list string) fnode * list string * list bool * list stdin_item :=
  (fs w, cwd w, procs w, stdin w).

Definition beside_console (w : World)
  : gmap (list string) fnode * list string * list call * list bool * list stdin_item :=
  (fs w, cwd w, calls w, procs w, stdin w).

Definition disk (w : World) : gmap (list string) fnode * list string := (fs w, cwd w).

Definition beside_disk (w : World) : list call * list bool * list stdin_item * Q * Host :=
  (calls w, procs w, stdin w, now w, host w).

(** What the [except] clauses of [managed_driver] print for an exception. *)
Definition setup_report (e : exn) : list string :=
  if isinstance e FileNotFoundError then
    [nl +:+ "[ERROR] Required file not found: " +:+ exn_str e;
     "[INFO] Please run 'Install Chrome for Testing' in PySeed Manager."]
  else if isinstance e Exception then [nl +:+ "[ERROR] Chrome setup failed: " +:+ exn_str e]
  else [].

(** The line the [finally] block of [managed_driver] prints for a driver. *)
Definition closing_line (w : World) : string :=
  if default false (mgr_keep_open w) then "[INFO] Chrome left open for manual inspection."
  else "[INFO] Chrome closed.".

(** Whether the character [c] occurs in [s]. *)
Fixpoint str_contains (c : ascii) (s : string) : bool :=
  match s with
  | EmptyString => false
  | String a r => Ascii.eqb a c || str_contains c r
  end.




(** The file at [k] with [text] added, as [f.write] leaves it. *)
Definition put_text (k : list string) (text : string) (f : gmap (list string) fnode)
  : gmap (list string) fnode :=
  match f !! k with
  | Some (File r wr (Utf8 old)) => <[k := File r wr (Utf8 (old +:+ text))]> f
  | _ => f
  end.

(** The filesystem after a writing method that had [text] for the file
    [p]: the directories made as far as they could be, the file opened,
    if it could be, and then holding [text]. *)
Definition fs_after_write (w : World) (p : path) (text : string)
  : gmap (list string) fnode :=
  let kp := os_key w (path_parent p) in
  match Fs.mkdir_parents (length kp) kp (fs w) with
  | inl _ => fs w
  | inr f1 =>
      match Fs.open_write (os_key w p) f1 with
      | inl _ => f1
      | inr f2 => put_text (os_key w p) text f2
      end
  end.

(** The two files [_save_results] writes, and the dict it hands to
    [write_json]. *)
Definition results_json (hst : Host) : path :=
  PROJECT_DIR hst /: ["results"] /: ["youtube_results.json"].

Definition results_txt (hst : Host) : path :=
  PROJECT_DIR hst /: ["results"] /: ["youtube_results.txt"].

Definition results_data (term stamp : string) (titles : list string) : Json.pyval :=
  Json.PDict [("search_term", Json.PStr term); ("timestamp", Json.PStr stamp);
              ("results", Json.PList (map Json.PStr titles))].

(** What a version can be: the text of a file that can be read, with the
    white space at both ends stripped. *)
Definition stripped_text_of_file (w : World) (version : string) : Prop :=
  exists p text, readable_text w p = Some text /\ version = strip text.

(** * Properties *)

(** ** The monad *)

Section MonadFacts.
Context {A B : Type}.

Lemma bind_val (m : M A) (k : A -> M B) w a w' :
  m w = (Val a, w') -> bind m k w = k a w'.
Proof. intros E. unfold bind. now rewrite E. Qed.

Lemma bind_exc (m : M A) (k : A -> M B) w e w' :
  m w = (Exc e, w') -> bind m k w = (Exc e, w').
Proof. intros E. unfold bind. now rewrite E. Qed.

Lemma try_except_val (m : M A) clauses w a w' :
  m w = (Val a, w') -> try_except m clauses w = (Val a, w').
Proof. intros E. unfold try_except. now rewrite E. Qed.

Lemma try_except_caught (m : M A) (c : exn_class) handler w e w' :
  m w = (Exc e, w') -> isinstance e c = true ->
  try_except m (except c handler) w = handler e w'.
Proof. intros E I. unfold try_except, except. now rewrite E, I. Qed.

Lemma try_except_passed (m : M A) (c : exn_class) handler w e w' :
  m w = (Exc e, w') -> isinstance e c = false ->
  try_except m (except c handler) w = (Exc e, w').
Proof. intros E I. unfold try_except, except. now rewrite E, I. Qed.

End MonadFacts.

Lemma calls_add_calls cs w : calls (add_calls cs w) = calls w ++ cs.
Proof.
  revert w. induction cs as [|c cs IH]; intros w; simpl.
  - now rewrite app_nil_r.
  - rewrite IH. simpl. now rewrite <- app_assoc.
Qed.

Lemma web_add_calls cs w : web (add_calls cs w) = web w.
Proof. revert w. induction cs as [|c cs IH]; intros w; simpl; [easy|]. now rewrite IH. Qed.

(** ** youtube_automation.py *)

Section YouTube.
Import YouTubeAutomation.
Variable self : YouTubeAutomation.t.

(** When the wait for the result titles raises an [Exception], the
    [except] clause of [get_video_titles] answers with the empty list. *)
Lemma get_video_titles_wait_fails max_results w e w1 :
  wait_until_presence_all (driver self) (wait self) titles_locator w = (Exc e, w1) ->
  isinstance e Exception = true ->
  get_video_titles self max_results w
  = (Val [], add_console ("[ERROR] Failed to get video titles: " +:+ exn_str e) w1).
Proof.
  intros Hw He. unfold get_video_titles.
  erewrite try_except_caught; [reflexivity| |exact He].
  apply bind_exc. exact Hw.
Qed.

(** C8: when no result element shows up before the timeout (the driver
    reports none, or the wait raises [TimeoutException]),
    [get_video_titles] returns the empty list instead of raising; the
    wait is the only call it makes. *)
Theorem get_video_titles_timeout max_results w :
  on_wait_all (web w) (calls w) (driver self) (wait self) titles_locator = inr []
  \/ (exists e, on_wait_all (web w) (calls w) (driver self) (wait self) titles_locator = inl e
                /\ exn_cls e = TimeoutException) ->
  exists w', get_video_titles self max_results w = (Val [], w')
             /\ calls w' = calls w ++ [CWaitAll (driver self) (wait self) titles_locator].
Proof.
  intros H.
  assert (exists e, wait_until_presence_all (driver self) (wait self) titles_locator w
                    = (Exc e, add_call (CWaitAll (driver self) (wait self) titles_locator) w)
                    /\ exn_cls e = TimeoutException) as (e & Hw & Hc).
  { unfold wait_until_presence_all. destruct H as [H|(e & H & Hc)]; rewrite H; eauto. }
  eexists. split.
  - apply get_video_titles_wait_fails; [exact Hw|].
    unfold isinstance. now rewrite Hc.
  - reflexivity.
Qed.

End YouTube.

Lemma get_video_titles_timeout_witness :
  exists w', YouTubeAutomation.get_video_titles Demo.youtube 10
               (Demo.world (Demo.site true true []) ∅ 0%Q []) = (Val [], w').
Proof.
  destruct (get_video_titles_timeout Demo.youtube 10
              (Demo.world (Demo.site true true []) ∅ 0%Q [])) as (w' & H & _).
  - left. reflexivity.
  - exists w'. exact H.
Defined.

Section YouTube2.
Import YouTubeAutomation.
Variable self : YouTubeAutomation.t.

Lemma collect_titles_reads els : forall attrs titles w,
  title_answers (web w) (driver self) (calls w) els = map inr attrs ->
  collect_titles self els titles w
  = (Val (titles ++ kept_titles attrs), add_calls (map (title_call (driver self)) els) w).
Proof.
  induction els as [|el els IH]; intros attrs titles w H.
  - destruct attrs; [|discriminate]. simpl. now rewrite app_nil_r.
  - destruct attrs as [|a attrs]; [discriminate|].
    simpl in H. injection H as Ha Hr.
    cbn [collect_titles].
    erewrite bind_val.
    2:{ unfold element_get_attribute. rewrite Ha. reflexivity. }
    cbn [kept_titles flat_map map add_calls fold_left].
    destruct (truthy a).
    + rewrite (IH attrs); [|exact Hr]. now rewrite <- app_assoc.
    + rewrite (IH attrs); [|exact Hr]. reflexivity.
Qed.

Lemma kept_titles_all attrs :
  Forall (fun a => truthy a = true) attrs ->
  map Some (kept_titles attrs) = attrs.
Proof.
  induction 1 as [|a attrs Ha _ IH]; [reflexivity|].
  unfold kept_titles in *. cbn [flat_map]. rewrite Ha. cbn [app map]. rewrite IH.
  destruct a; [reflexivity|discriminate].
Qed.

Lemma slice_to_all {A} (l : list A) (n : Z) :
  Z.of_nat (length l) < n -> slice_to l n = l.
Proof.
  intros H. unfold slice_to.
  destruct (Z.leb_spec 0 n); [|lia].
  apply take_ge. lia.
Qed.

Lemma title_answers_length wb h cs els :
  length (title_answers wb h cs els) = length els.
Proof. revert cs. induction els; intros cs; simpl; [reflexivity|]. now rewrite IHels. Qed.

(** C7, amended: when the wait gives fewer elements than [max_results] and
    every read of a [title] attribute returns, [get_video_titles] reads
    the attribute once per element in DOM order and returns the non-empty
    titles in that order; it returns one title per element when every
    element has a non-empty title. *)
Theorem get_video_titles_fewer_than_max max_results w els attrs :
  on_wait_all (web w) (calls w) (driver self) (wait self) titles_locator = inr els ->
  Z.of_nat (length els) < max_results ->
  title_answers (web w) (driver self)
                (calls w ++ [CWaitAll (driver self) (wait self) titles_locator]) els
  = map inr attrs ->
  exists w',
    get_video_titles self max_results w = (Val (kept_titles attrs), w')
    /\ calls w' = calls w ++ CWaitAll (driver self) (wait self) titles_locator
                              :: map (title_call (driver self)) els
    /\ (Forall (fun a => truthy a = true) attrs ->
        length (kept_titles attrs) = length els
        /\ map Some (kept_titles attrs) = attrs).
Proof.
  intros Hw Hn Ha.
  assert (Hlen : length attrs = length els).
  { rewrite <- (title_answers_length (web w) (driver self)
                  (calls w ++ [CWaitAll (driver self) (wait self) titles_locator]) els).
    rewrite Ha. now rewrite length_map. }
  assert (Hall : Forall (fun a => truthy a = true) attrs ->
                 length (kept_titles attrs) = length els
                 /\ map Some (kept_titles attrs) = attrs).
  { intros F. pose proof (kept_titles_all attrs F) as E. split; [|exact E].
    rewrite <- Hlen. rewrite <- E at 2. now rewrite length_map. }
  destruct els as [|el els].
  - destruct attrs; [|discriminate].
    eexists. split; [|split; [|exact Hall]].
    + apply (get_video_titles_wait_fails self max_results w
               (mk_exn TimeoutException "Message: ")); [|reflexivity].
      unfold wait_until_presence_all. rewrite Hw. reflexivity.
    + reflexivity.
  - eexists. split; [|split; [|exact Hall]].
    + unfold get_video_titles.
      erewrite try_except_val; [reflexivity|].
      erewrite bind_val.
      2:{ unfold wait_until_presence_all. unfold titles_locator in Hw. rewrite Hw.
          reflexivity. }
      rewrite slice_to_all by exact Hn.
      erewrite bind_val.
      2:{ apply collect_titles_reads. exact Ha. }
      reflexivity.
    + cbn [calls add_console]. rewrite calls_add_calls. cbn [calls add_call].
      now rewrite <- app_assoc.
Qed.

End YouTube2.

Lemma get_video_titles_fewer_than_max_witness :
  exists w',
    YouTubeAutomation.get_video_titles Demo.youtube 10
      (Demo.world (Demo.site true true [Some "First"; Some "Second"]) ∅ 0%Q [])
    = (Val ["First"; "Second"], w').
Proof.
  destruct (get_video_titles_fewer_than_max Demo.youtube 10
              (Demo.world (Demo.site true true [Some "First"; Some "Second"]) ∅ 0%Q [])
              [10; 11]%nat [Some "First"; Some "Second"])
    as (w' & H & _).
  - reflexivity.
  - simpl. lia.
  - reflexivity.
  - exists w'. exact H.
Defined.

(** C7 as stated fails: three result elements, fewer than the maximum of
    ten, of which one has no [title]; two titles are returned. *)
Lemma get_video_titles_skips_untitled :
  let w := Demo.world (Demo.site true true [Some "First"; None; Some "Third"]) ∅ 0%Q [] in
  on_wait_all (web w) (calls w) 0%nat 10 titles_locator = inr [10; 11; 12]%nat
  /\ fst (YouTubeAutomation.get_video_titles Demo.youtube 10 w) = Val ["First"; "Third"]
  /\ length ["First"; "Third"] <> length [10; 11; 12]%nat.
Proof. split; [reflexivity|]. split; [reflexivity|]. simpl. lia. Qed.

(** ** Which calls a statement makes *)

Section Emits.
Context {A B : Type} (P : call -> bool).

Lemma emits_ret (a : A) : emits P (ret a).
Proof. intros w r w' [= <- <-]. exists []. now rewrite app_nil_r. Qed.

Lemma emits_reraise e : emits P (@reraise A e).
Proof. intros w r w' [= <- <-]. exists []. now rewrite app_nil_r. Qed.

Lemma emits_print s : emits P (print s).
Proof. intros w r w' [= <- <-]. exists []. simpl. now rewrite app_nil_r. Qed.

Lemma emits_bind (m : M A) (k : A -> M B) :
  emits P m -> (forall a, emits P (k a)) -> emits P (bind m k).
Proof.
  intros Hm Hk w r w' E. unfold bind in E.
  destruct (m w) as [[a|e] w1] eqn:Em.
  - destruct (Hm _ _ _ Em) as (cs1 & E1 & F1).
    destruct (Hk a _ _ _ E) as (cs2 & E2 & F2).
    exists (cs1 ++ cs2). rewrite E2, E1, <- app_assoc. split; [reflexivity|].
    rewrite forallb_app, F1, F2. reflexivity.
  - injection E as <- <-. exact (Hm _ _ _ Em).
Qed.

Lemma emits_try_except (m : M A) clauses :
  emits P m -> (forall e h, clauses e = Some h -> emits P h) ->
  emits P (try_except m clauses).
Proof.
  intros Hm Hc w r w' E. unfold try_except in E.
  destruct (m w) as [[a|e] w1] eqn:Em.
  - injection E as <- <-. exact (Hm _ _ _ Em).
  - destruct (Hm _ _ _ Em) as (cs1 & E1 & F1).
    destruct (clauses e) as [h|] eqn:Ec.
    + destruct (Hc e h Ec _ _ _ E) as (cs2 & E2 & F2).
      exists (cs1 ++ cs2). rewrite E2, E1, <- app_assoc. split; [reflexivity|].
      rewrite forallb_app, F1, F2. reflexivity.
    + injection E as <- <-. eauto.
Qed.

Lemma emits_except c (handler : exn -> M A) :
  (forall e, emits P (handler e)) ->
  forall e h, except c handler e = Some h -> emits P h.
Proof.
  intros Hh e h. unfold except. destruct (isinstance e c); [|discriminate].
  intros [= <-]. apply Hh.
Qed.

End Emits.

Lemma emits_answer_unit P c (f : World -> option exn) :
  P c = true -> emits P (fun w => answer_unit (f w) (add_call c w)).
Proof.
  intros Hc w r w' E. exists [c]. unfold answer_unit in E.
  destruct (f w); injection E as <- <-; simpl; now rewrite Hc.
Qed.

Lemma emits_answer {A} P c (f : World -> exn + A) :
  P c = true -> emits P (fun w => answer (f w) (add_call c w)).
Proof.
  intros Hc w r w' E. exists [c]. unfold answer in E.
  destruct (f w); injection E as <- <-; simpl; now rewrite Hc.
Qed.

Create HintDb emits.
#[local] Hint Resolve emits_ret emits_reraise emits_print emits_bind
  emits_try_except emits_except : emits.

Section YouTube3.
Import YouTubeAutomation.
Variable self : YouTubeAutomation.t.

Lemma navigate_emits : emits no_extraction (navigate_to_youtube self).
Proof.
  unfold navigate_to_youtube.
  repeat (first [apply emits_bind; [|intros ?] | apply emits_print]).
  - apply (emits_answer_unit no_extraction (CGet _ _) (fun w => on_get (web w) (calls w) _ _)).
    reflexivity.
  - apply (emits_answer no_extraction (CWait _ _ _)
             (fun w => on_wait (web w) (calls w) _ _ _)). reflexivity.
Qed.

Lemma search_emits term : emits no_extraction (search self term).
Proof.
  unfold search.
  apply emits_try_except.
  2:{ apply emits_except. intros e. auto with emits. }
  repeat (first [apply emits_bind; [|intros ?] | apply emits_print | apply emits_ret]).
  - apply (emits_answer no_extraction (CWait _ _ _)
             (fun w => on_wait (web w) (calls w) _ _ _)). reflexivity.
  - apply (emits_answer_unit no_extraction (CClear _ _)
             (fun w => on_clear (web w) (calls w) _ _)). reflexivity.
  - apply (emits_answer_unit no_extraction (CSendKeys _ _ _)
             (fun w => on_send_keys (web w) (calls w) _ _ _)). reflexivity.
  - apply (emits_answer_unit no_extraction (CSendKeys _ _ _)
             (fun w => on_send_keys (web w) (calls w) _ _ _)). reflexivity.
  - apply (emits_answer no_extraction (CWait _ _ _)
             (fun w => on_wait (web w) (calls w) _ _ _)). reflexivity.
Qed.

Lemma print_numbered_calls titles : forall i w,
  exists w', print_numbered i titles w = (Val tt, w') /\ calls w' = calls w.
Proof.
  induction titles as [|t titles IH]; intros i w; simpl.
  - eauto.
  - unfold bind, print. destruct (IH (i + 1) (add_console (str_of_Z i +:+ ". " +:+ t) w))
      as (w' & E & C). rewrite E. eauto.
Qed.

(** C1: [search_tech_news] navigates, then searches (with the default
    term when none is given), and extracts only after a successful search.
    When the search returns [False] the result is the empty list and the
    world is the one the search left: no call of the extraction step was
    made, whatever the page holds.  When the search returns [True] the
    result is the list [get_video_titles] returns. *)
Theorem search_tech_news_gated term w w1 ok w2 :
  navigate_to_youtube self w = (Val tt, w1) ->
  search self (default Config.DEFAULT_SEARCH_TERM term) w1 = (Val ok, w2) ->
  (ok = false ->
     search_tech_news self term w = (Val [], w2)
     /\ exists cs, calls w2 = calls w ++ cs /\ forallb no_extraction cs = true)
  /\ (ok = true ->
      forall titles w3, get_video_titles self 10 w2 = (Val titles, w3) ->
      exists w4, search_tech_news self term w = (Val titles, w4)
                 /\ calls w4 = calls w3).
Proof.
  intros Hn Hs. unfold search_tech_news.
  rewrite (bind_val _ _ _ _ _ Hn), (bind_val _ _ _ _ _ Hs).
  split; intros ->.
  - split; [reflexivity|].
    destruct (navigate_emits _ _ _ Hn) as (cs1 & E1 & F1).
    destruct (search_emits _ _ _ _ Hs) as (cs2 & E2 & F2).
    exists (cs1 ++ cs2). rewrite E2, E1, <- app_assoc. split; [reflexivity|].
    now rewrite forallb_app, F1, F2.
  - intros titles w3 Hg. rewrite (bind_val _ _ _ _ _ Hg).
    destruct titles as [|t titles].
    + exists w3. split; reflexivity.
    + unfold bind at 1. unfold bind at 1. unfold print at 1.
      destruct (print_numbered_calls (t :: titles) 1
                  (add_console (nl +:+ "=== Search Results for '"
                     +:+ default Config.DEFAULT_SEARCH_TERM term +:+ "' ===") w3))
        as (w' & E & C).
      unfold bind at 1. rewrite E. unfold print, ret. eexists. split; [reflexivity|].
      simpl. exact C.
Qed.

(** C10: [navigate_to_youtube] has no [except] clause.  Whatever
    [driver.get] or the wait for the page body raises, a
    [TimeoutException] included, leaves [navigate_to_youtube] and then
    [search_tech_news] as that exception, in the world where the
    navigation stopped: no search is made and no list is returned. *)
Theorem navigation_failure_propagates term w e :
  on_get (web w) (calls w) (driver self) Config.YOUTUBE_URL = Some e
  \/ (on_get (web w) (calls w) (driver self) Config.YOUTUBE_URL = None
      /\ on_wait (web w) (calls w ++ [CGet (driver self) Config.YOUTUBE_URL])
                 (driver self) (wait self) (TAG_NAME, "body") = inl e) ->
  exists w',
    navigate_to_youtube self w = (Exc e, w')
    /\ search_tech_news self term w = (Exc e, w')
    /\ exists cs, calls w' = calls w ++ cs /\ forallb no_extraction cs = true.
Proof.
  intros H.
  assert (exists w', navigate_to_youtube self w = (Exc e, w')) as (w' & Hn).
  { unfold navigate_to_youtube, bind, print, driver_get, wait_until_presence.
    cbn [web calls add_console add_call].
    destruct H as [H|[H1 H2]].
    - rewrite H. cbn. eauto.
    - rewrite H1. cbn. rewrite H2. cbn. eauto. }
  exists w'. split; [exact Hn|]. split.
  - unfold search_tech_news. now apply bind_exc.
  - exact (navigate_emits _ _ _ Hn).
Qed.

End YouTube3.

Lemma search_tech_news_gated_witness :
  let w := Demo.world (Demo.site true false [Some "First"]) ∅ 0%Q [] in
  exists w2, YouTubeAutomation.search_tech_news Demo.youtube (Some "rocq") w = (Val [], w2).
Proof.
  intros w.
  set (n := YouTubeAutomation.navigate_to_youtube Demo.youtube w).
  set (s := YouTubeAutomation.search Demo.youtube "rocq" (snd n)).
  assert (n = (Val tt, snd n)) as E1.
  { rewrite (surjective_pairing n) at 1. f_equal. }
  assert (s = (Val false, snd s)) as E2.
  { rewrite (surjective_pairing s) at 1. f_equal. }
  destruct (search_tech_news_gated Demo.youtube (Some "rocq") w (snd n) false (snd s) E1 E2)
    as [Hf _].
  destruct (Hf eq_refl) as [H _]. exists (snd s). exact H.
Defined.

Lemma navigation_failure_propagates_witness :
  let w := Demo.world (Demo.site false true [Some "First"]) ∅ 0%Q [] in
  exists w', YouTubeAutomation.search_tech_news Demo.youtube None w
             = (Exc Demo.timeout_exn, w').
Proof.
  intros w.
  destruct (navigation_failure_propagates Demo.youtube None w Demo.timeout_exn)
    as (w' & _ & H & _).
  - right. split; reflexivity.
  - exists w'. exact H.
Defined.

(** ** What a statement leaves alone *)

Section Frames.
Context {X A B : Type} (proj : World -> X).

Lemma frames_ret (a : A) : frames proj (ret a).
Proof. now intros w r w' [= <- <-]. Qed.

Lemma frames_raise c s : frames proj (@raise A c s).
Proof. now intros w r w' [= <- <-]. Qed.

Lemma frames_reraise e : frames proj (@reraise A e).
Proof. now intros w r w' [= <- <-]. Qed.

Lemma frames_bind (m : M A) (k : A -> M B) :
  frames proj m -> (forall a, frames proj (k a)) -> frames proj (bind m k).
Proof.
  intros Hm Hk w r w' E. unfold bind in E.
  destruct (m w) as [[a|e] w1] eqn:Em.
  - rewrite (Hk a _ _ _ E). exact (Hm _ _ _ Em).
  - injection E as <- <-. exact (Hm _ _ _ Em).
Qed.

Lemma frames_try_except (m : M A) clauses :
  frames proj m -> (forall e h, clauses e = Some h -> frames proj h) ->
  frames proj (try_except m clauses).
Proof.
  intros Hm Hc w r w' E. unfold try_except in E.
  destruct (m w) as [[a|e] w1] eqn:Em.
  - injection E as <- <-. exact (Hm _ _ _ Em).
  - destruct (clauses e) as [h|] eqn:Ec.
    + rewrite (Hc e h Ec _ _ _ E). exact (Hm _ _ _ Em).
    + injection E as <- <-. exact (Hm _ _ _ Em).
Qed.

End Frames.

Ltac frames_step :=
  first
    [ apply frames_bind; [|intros ?]
    | apply frames_ret
    | apply frames_raise
    | apply frames_reraise
    | match goal with
      | |- frames _ (if ?b then _ else _) => destruct b
      | |- frames _ (match ?x with _ => _ end) => destruct x
      end ].

Lemma keeps_attr_print s : keeps_attr (print s).
Proof. now intros w r w' [= <- <-]. Qed.

Lemma keeps_attr_get_host : keeps_attr get_host.
Proof. now intros w r w' [= <- <-]. Qed.

Lemma keeps_attr_time_time : keeps_attr time_time.
Proof. now intros w r w' [= <- <-]. Qed.

Lemma keeps_attr_path_exists p : keeps_attr (path_exists p).
Proof. now intros w r w' [= <- <-]. Qed.

Lemma keeps_attr_webdriver_Chrome x o : keeps_attr (webdriver_Chrome x o).
Proof.
  intros w r w'. unfold webdriver_Chrome.
  destruct (on_launch _ _ _ _); now intros [= <- <-].
Qed.

Lemma keeps_attr_get_chrome_profile_path : keeps_attr Config.get_chrome_profile_path.
Proof.
  unfold keeps_attr, Config.get_chrome_profile_path.
  apply frames_bind; [apply keeps_attr_get_host|intros hst].
  repeat frames_step.
Qed.

Lemma keeps_attr_get_chrome_paths self : keeps_attr (ChromeDriverManager._get_chrome_paths self).
Proof.
  unfold keeps_attr, ChromeDriverManager._get_chrome_paths.
  apply frames_bind; [apply keeps_attr_get_host|intros hst].
  repeat frames_step.
Qed.

Lemma keeps_attr_create_driver self profile_name detach :
  keeps_attr (ChromeDriverManager.create_driver self profile_name detach).
Proof.
  unfold keeps_attr, ChromeDriverManager.create_driver.
  apply frames_bind; [apply keeps_attr_get_host|intros hst].
  apply frames_bind; [apply keeps_attr_get_chrome_paths|intros paths].
  apply frames_bind; [apply keeps_attr_path_exists|intros b1].
  destruct b1; cbn [negb]; [|apply frames_raise].
  apply frames_bind; [apply keeps_attr_path_exists|intros b2].
  destruct b2; cbn [negb]; [|apply frames_raise].
  apply frames_bind; [apply keeps_attr_time_time|intros t].
  apply frames_bind; [apply keeps_attr_get_chrome_profile_path|intros root].
  apply keeps_attr_webdriver_Chrome.
Qed.

Section ManagedDriver.
Import Contextlib ChromeDriverManager.
Variable self : ChromeDriverManager.t.

(** When the generator reaches its [yield], [_keep_open] is what the call
    was given. *)
Lemma gen_start_yielded profile_name keep_open w y w1 :
  gen_start (managed_driver self profile_name keep_open) w = (Val (Yielded y), w1) ->
  mgr_keep_open w1 = Some keep_open /\ exists d, y = Some d.
Proof.
  cbn [gen_start managed_driver].
  unfold bind at 1. unfold set_keep_open. unfold bind at 1. unfold get_host.
  cbn [host set_mgr_keep_open].
  set (w0 := set_mgr_keep_open (Some keep_open) w).
  match goal with
  | |- context [bind (print ?s) ?k w0] =>
      destruct (bind (print s) k w0) as [[d|e] w'] eqn:E
  end.
  - intros [= <- <-]. split; [|eauto].
    assert (keeps_attr (print
             ("[INFO] Launching Chrome with profile: " +:+
              (if Config.env_truthy profile_name then default "" profile_name
               else Config.DEFAULT_PROFILE_NAME (host w)) +:+ "...") ;;
             create_driver self profile_name false)) as K.
    { apply frames_bind; [apply keeps_attr_print|intros _].
      apply keeps_attr_create_driver. }
    now rewrite (K _ _ _ E).
  - unfold bind, try_finally, try_except, reraise.
    destruct (managed_driver_clauses e) as [h|]; cbn.
    + destruct (h w') as [[?|?] ?]; cbn; discriminate.
    + discriminate.
Qed.

(** The [finally] block, by the value of [_keep_open] it finds. *)
Lemma managed_driver_finally_spec d w :
  managed_driver_finally (Some d) w
  = if default false (mgr_keep_open w)
    then (Val tt, add_console "[INFO] Chrome left open for manual inspection." w)
    else (Val tt, add_console "[INFO] Chrome closed."
                    (set_procs (<[d := false]> (procs w)) (add_call (CQuit d) w))).
Proof.
  unfold managed_driver_finally, bind, get_keep_open.
  destruct (default false (mgr_keep_open w)); reflexivity.
Qed.

(** The [except] clauses only print. *)
Lemma managed_driver_clauses_spec e h w :
  managed_driver_clauses e = Some h ->
  exists out, h w = (Val tt, out) /\ calls out = calls w /\ procs out = procs w
              /\ mgr_keep_open out = mgr_keep_open w.
Proof.
  unfold managed_driver_clauses, orelse, except.
  destruct (isinstance e FileNotFoundError).
  - intros [= <-]. unfold bind, print. eexists. split; [reflexivity|]. now cbn.
  - destruct (isinstance e Exception); [|discriminate].
    intros [= <-]. unfold print. eexists. split; [reflexivity|]. now cbn.
Qed.

(** Resuming the generator at its [yield]: whatever way the block ended,
    the [finally] block runs on the world the block (and an [except]
    clause, which only prints) left. *)
Lemma gen_resume_spec profile_name keep_open d r w :
  exists res w1 w2,
    gen_resume (managed_driver self profile_name keep_open) (Some d) r w = (res, w2)
    /\ calls w1 = calls w /\ procs w1 = procs w /\ mgr_keep_open w1 = mgr_keep_open w
    /\ managed_driver_finally (Some d) w1 = (Val tt, w2).
Proof.
  cbn [gen_resume managed_driver]. unfold try_finally, try_except.
  destruct r as [|e]; cbn [reraise ret].
  - rewrite managed_driver_finally_spec.
    destruct (default false (mgr_keep_open w)) eqn:K;
      do 3 eexists; (split; [reflexivity|]); repeat split;
      rewrite managed_driver_finally_spec, K; reflexivity.
  - destruct (managed_driver_clauses e) as [h|] eqn:Ec.
    + destruct (managed_driver_clauses_spec e h w Ec) as (out & Eh & C & P & K).
      rewrite Eh. rewrite managed_driver_finally_spec.
      destruct (default false (mgr_keep_open out)) eqn:K';
        exists (Val tt), out; eexists; (split; [reflexivity|]); repeat split; try assumption;
        rewrite managed_driver_finally_spec, K'; reflexivity.
    + rewrite managed_driver_finally_spec.
      destruct (default false (mgr_keep_open w)) eqn:K;
        do 3 eexists; (split; [reflexivity|]); repeat split;
        rewrite managed_driver_finally_spec, K; reflexivity.
Qed.

(** C3, amended: take a [with managed_driver(...)] block whose driver was
    created, and let the block end in any way (normally, by [return], or
    by an exception) without [_keep_open] of the manager having changed
    since the entry.  With [keep_open] false the exit calls
    [driver.quit()] as its one call and the browser process is
    terminated when the statement is left; with [keep_open] true the
    exit makes no call and leaves the processes as the block left them. *)
Theorem managed_driver_exit {A} profile_name keep_open (body : option handle -> M A)
    w d w1 r w2 :
  gen_start (managed_driver self profile_name keep_open) w = (Val (Yielded (Some d)), w1) ->
  body (Some d) w1 = (r, w2) ->
  mgr_keep_open w2 = mgr_keep_open w1 ->
  exists r' w3,
    with_ (managed_driver self profile_name keep_open) body w = (r', w3)
    /\ if keep_open
       then calls w3 = calls w2 /\ procs w3 = procs w2
       else calls w3 = calls w2 ++ [CQuit d] /\ running w3 d = false
            /\ procs w3 = <[d := false]> (procs w2).
Proof.
  intros Hs Hb Hk.
  destruct (gen_start_yielded _ _ _ _ _ Hs) as [K1 _].
  rewrite K1 in Hk.
  assert (forall rs, exists res w',
            gen_resume (managed_driver self profile_name keep_open) (Some d) rs w2 = (res, w')
            /\ if keep_open
               then calls w' = calls w2 /\ procs w' = procs w2
               else calls w' = calls w2 ++ [CQuit d] /\ running w' d = false
                    /\ procs w' = <[d := false]> (procs w2)) as R.
  { intros rs.
    destruct (gen_resume_spec profile_name keep_open d rs w2)
      as (res & v1 & v2 & E & C & P & K & F).
    exists res, v2. split; [exact E|].
    rewrite managed_driver_finally_spec, K, Hk in F. cbn [default] in F.
    destruct keep_open; injection F as <-; unfold running;
      cbn [calls procs add_console set_procs add_call].
    - now rewrite C, P.
    - rewrite C, P. split; [reflexivity|]. split; [|reflexivity].
      destruct (decide (d < length (procs w2))%nat) as [L|L].
      + now rewrite list_lookup_insert_eq.
      + rewrite list_insert_ge by lia.
        now rewrite lookup_ge_None_2 by lia. }
  unfold with_. unfold bind at 1. unfold enter. unfold bind at 1. rewrite Hs.
  cbn [ret]. rewrite Hb.
  destruct r as [a|e].
  - destruct (R Next) as (res & w' & E & H).
    unfold exit, bind. rewrite E.
    destruct res; eexists; eexists; (split; [reflexivity|exact H]).
  - destruct (R (Throw e)) as (res & w' & E & H).
    unfold exit, bind. rewrite E.
    destruct res; eexists; eexists; (split; [reflexivity|exact H]).
Qed.

End ManagedDriver.

Section MissingBinary.
Import Contextlib ChromeDriverManager.
Variable self : ChromeDriverManager.t.

(** [_get_chrome_paths] reads the host and nothing else. *)
Lemma get_chrome_paths_host w v :
  host v = host w ->
  _get_chrome_paths self v = (fst (_get_chrome_paths self w), v).
Proof.
  intros H. unfold _get_chrome_paths, bind, get_host. rewrite H.
  destruct (appmanager (host w)).
  - destruct (String.eqb (platform self) "Windows"); reflexivity.
  - destruct (String.eqb (platform self) "Windows").
    + destruct (Config.env_truthy _); reflexivity.
    + destruct (String.eqb (platform self) "Linux"); reflexivity.
Qed.

(** With a binary missing, [create_driver] raises [FileNotFoundError]
    before it calls the driver. *)
Lemma create_driver_missing profile_name detach w chrome_binary driver_path :
  fst (_get_chrome_paths self w) = Val (chrome_binary, driver_path) ->
  Fs.node_at (fs w) (os_key w chrome_binary) = None
  \/ Fs.node_at (fs w) (os_key w driver_path) = None ->
  exists msg,
    create_driver self profile_name detach w = (Exc (mk_exn FileNotFoundError msg), w).
Proof.
  intros Hp Hm. unfold create_driver.
  unfold bind at 1. unfold get_host at 1.
  unfold bind at 1. rewrite (get_chrome_paths_host w w eq_refl), Hp.
  cbn [fst snd].
  unfold bind at 1. unfold path_exists at 1.
  destruct (Fs.node_at (fs w) (os_key w chrome_binary)) as [n|] eqn:E1.
  - rewrite bool_decide_eq_true_2 by eauto. cbn [negb].
    destruct Hm as [Hm|Hm]; [discriminate|].
    unfold bind at 1. unfold path_exists at 1. rewrite Hm.
    rewrite bool_decide_eq_false_2 by (intros [? ?]; discriminate).
    cbn [negb]. unfold raise. eauto.
  - rewrite bool_decide_eq_false_2 by (intros [? ?]; discriminate).
    cbn [negb]. unfold raise. eauto.
Qed.

(** With a resolved binary path missing on disk, [managed_driver] catches
    the [FileNotFoundError] and prints the required file not found lines;
    no driver call is made and no process started.  The generator then
    ends without a [yield], so entering the [with] block raises
    [RuntimeError]. *)
Lemma enter_missing_binary profile_name keep_open w chrome_binary driver_path :
  fst (_get_chrome_paths self w) = Val (chrome_binary, driver_path) ->
  Fs.node_at (fs w) (os_key w chrome_binary) = None
  \/ Fs.node_at (fs w) (os_key w driver_path) = None ->
  exists msg w',
    enter (managed_driver self profile_name keep_open) w
    = (Exc (mk_exn RuntimeError "generator didn't yield"), w')
    /\ console w'
       = console w ++ [launch_line (host w) profile_name;
                       nl +:+ "[ERROR] Required file not found: " +:+ msg;
                       "[INFO] Please run 'Install Chrome for Testing' in PySeed Manager."]
    /\ calls w' = calls w /\ procs w' = procs w.
Proof.
  intros Hp Hm.
  set (w0 := add_console (launch_line (host w) profile_name)
               (set_mgr_keep_open (Some keep_open) w)).
  destruct (create_driver_missing profile_name false w0 chrome_binary driver_path)
    as (msg & Hc).
  { rewrite (get_chrome_paths_host w w0 eq_refl). exact Hp. }
  { exact Hm. }
  exists msg. eexists. split.
  - unfold enter. unfold bind at 1. cbn [gen_start managed_driver].
    unfold bind at 1. unfold set_keep_open. unfold bind at 1. unfold get_host.
    cbn [host set_mgr_keep_open]. unfold bind at 1. unfold print at 1.
    fold (launch_line (host w) profile_name). fold w0. rewrite Hc.
    unfold bind, try_finally, try_except, reraise, managed_driver_clauses, orelse, except.
    cbn. reflexivity.
  - cbn. rewrite <- !app_assoc. cbn. auto.
Qed.

End MissingBinary.


Section Orchestrator.
Import Contextlib ChromeDriverManager MainApplication.
Variable app : MainApplication.t.

(** C2, on the code: let a resolved binary path be missing on disk.  Then
    [run_youtube_demo] prints the required file not found lines, makes
    no driver call (no search is attempted), starts no process and ends
    normally.  The [with] block is never entered with a null handle: its
    entry raises [RuntimeError] (generator didn't yield), which the
    [except Exception] clause of [run_youtube_demo] reports as an
    application error. *)
Theorem run_youtube_demo_missing_binary w chrome_binary driver_path :
  fst (_get_chrome_paths (chrome_manager app) w) = Val (chrome_binary, driver_path) ->
  Fs.node_at (fs w) (os_key w chrome_binary) = None
  \/ Fs.node_at (fs w) (os_key w driver_path) = None ->
  exists msg w',
    run_youtube_demo app w = (Val tt, w')
    /\ console w'
       = console w ++ [banner_line (host w);
                       "Searching YouTube for: '" +:+ Config.DEFAULT_SEARCH_TERM +:+ "'";
                       launch_line (host w) None;
                       nl +:+ "[ERROR] Required file not found: " +:+ msg;
                       "[INFO] Please run 'Install Chrome for Testing' in PySeed Manager.";
                       nl +:+ "[ERROR] Application error: generator didn't yield"]
    /\ calls w' = calls w /\ procs w' = procs w.
Proof.
  intros Hp Hm.
  set (w0 := add_console ("Searching YouTube for: '" +:+ Config.DEFAULT_SEARCH_TERM +:+ "'")
               (add_console (banner_line (host w)) w)).
  destruct (enter_missing_binary (chrome_manager app) None false w0 chrome_binary driver_path)
    as (msg & w1 & He & Hc & Hcalls & Hprocs).
  { rewrite (get_chrome_paths_host (chrome_manager app) w w0 eq_refl). exact Hp. }
  { exact Hm. }
  exists msg. eexists. split.
  - unfold run_youtube_demo. unfold bind at 1. unfold get_host at 1.
    unfold bind at 1. unfold print at 1. fold (banner_line (host w)).
    unfold bind at 1. unfold print at 1. fold w0.
    unfold try_except. unfold bind at 1. unfold with_. unfold bind at 1.
    rewrite He. unfold orelse, except. cbn.
    reflexivity.
  - cbn. rewrite Hc, Hcalls, Hprocs. cbn. rewrite <- !app_assoc. cbn. auto.
Qed.

End Orchestrator.

Lemma run_youtube_demo_missing_binary_witness :
  let w := Demo.world (Demo.site true true [Some "First"]) ∅ 0%Q [] in
  exists w', MainApplication.run_youtube_demo Demo.app w = (Val tt, w') /\ calls w' = [].
Proof.
  intros w.
  destruct (run_youtube_demo_missing_binary Demo.app w
              (Path true (Demo.chrome_dir ++ ["chrome-linux64"; "chrome"]))
              (Path true (Demo.chrome_dir ++ ["chromedriver-linux64"; "chromedriver"])))
    as (msg & w' & H & _ & C & _).
  - reflexivity.
  - left. reflexivity.
  - exists w'. split; [exact H|exact C].
Defined.

(** A run of the demo on a host with the binaries in place: the browser
    is closed by the exit of the block. *)
Example run_youtube_demo_closes_chrome :
  let w := Demo.world (Demo.site true true [Some "First"]) Demo.installed 0%Q
             [Line ""; Line ""] in
  let r := MainApplication.run_youtube_demo Demo.app w in
  fst r = Val tt /\ procs (snd r) = [false]
  /\ List.last (calls (snd r)) (CGet 0%nat "") = CQuit 0%nat.
Proof. vm_compute. auto. Qed.

(** A run in which the page body never shows up: the exception of
    [navigate_to_youtube] leaves [search_tech_news], is thrown into
    [managed_driver] at its [yield] and reported by its [except Exception]
    clause; the browser is closed and the demo ends normally. *)
Example run_youtube_demo_navigation_timeout :
  let w := Demo.world (Demo.site false true [Some "First"]) Demo.installed 0%Q
             [Line ""; Line ""] in
  let r := MainApplication.run_youtube_demo Demo.app w in
  fst r = Val tt /\ procs (snd r) = [false]
  /\ drop 4 (console (snd r))
     = [nl +:+ "[ERROR] Chrome setup failed: Message: "; "[INFO] Chrome closed."].
Proof. vm_compute. auto. Qed.

Lemma managed_driver_exit_witness :
  let w := Demo.world (Demo.site true true []) Demo.installed 0%Q [] in
  let g := Contextlib.gen_start
             (ChromeDriverManager.managed_driver Demo.manager None false) w in
  exists r w', Contextlib.with_ (ChromeDriverManager.managed_driver Demo.manager None false)
                 (fun _ => ret tt) w = (r, w')
               /\ calls w' = calls (snd g) ++ [CQuit 0%nat]
               /\ running w' 0%nat = false.
Proof.
  intros w g.
  assert (g = (Val (Contextlib.Yielded (Some 0%nat)), snd g)) as E.
  { rewrite (surjective_pairing g) at 1. f_equal. }
  destruct (managed_driver_exit Demo.manager None false (fun _ => ret tt)
              w 0%nat (snd g) (Val tt) (snd g) E eq_refl eq_refl)
    as (r & w' & H & C & R & _).
  exists r, w'. auto.
Defined.

(** C3 as stated fails: the flag lives on the manager.  A block opened
    with [keep_open] false, inside which a second block is opened on the
    same manager with [keep_open] true, is left with its driver created
    and still running: no [quit] is called for either browser. *)
Lemma managed_driver_nested_left_open :
  let w := Demo.world (Demo.site true true []) Demo.installed 0%Q [] in
  let r := Contextlib.with_ (ChromeDriverManager.managed_driver Demo.manager None false)
             (fun outer =>
                Contextlib.with_ (ChromeDriverManager.managed_driver Demo.manager None true)
                  (fun inner => ret (outer, inner))) w in
  fst r = Val (Some (Some (Some 0%nat, Some 1%nat)))
  /\ procs (snd r) = [true; true]
  /\ running (snd r) 0%nat = true
  /\ Forall (fun c => c <> CQuit 0%nat) (calls (snd r)).
Proof.
  vm_compute. repeat split; repeat constructor; discriminate.
Qed.

(** ** Profile directories *)

Lemma str_of_Z_inj a b : str_of_Z a = str_of_Z b -> a = b.
Proof.
  intros H. apply DecimalZ.to_int_inj.
  assert (forall z, NilZero.int_of_string (str_of_Z z) = Some (Z.to_int z)) as I.
  { intros z. unfold str_of_Z. apply NilZero.isi; destruct z; simpl; try discriminate;
      intros [= E]; now apply DecimalPos.Unsigned.to_uint_nonnil in E. }
  pose proof (I a) as Ia. rewrite H, I in Ia. congruence.
Qed.

Lemma append_inv_head (p a b : string) : p +:+ a = p +:+ b -> a = b.
Proof. induction p as [|c p IH]; simpl; [easy|]. intros [= E]. auto. Qed.

(** Sessions started in different whole seconds get different profile
    directories. *)
Lemma profile_path_at_distinct root profile_name t1 t2 :
  ChromeDriverManager.int_of_time t1 <> ChromeDriverManager.int_of_time t2 ->
  ChromeDriverManager.profile_path_at root profile_name t1
  <> ChromeDriverManager.profile_path_at root profile_name t2.
Proof.
  intros N E. apply N. unfold ChromeDriverManager.profile_path_at, joinsegs, joinpath in E.
  cbn in E. injection E as E. apply app_inv_head in E. injection E as E.
  apply append_inv_head in E. apply (append_inv_head "_") in E.
  now apply str_of_Z_inj.
Qed.

(** C9 on the code: two calls of [create_driver] with the same profile
    name, at two different instants of the same second, compute the same
    profile directory. *)
Theorem create_driver_same_second :
  let t1 := (8500000001 # 5)%Q in
  let t2 := (17000000009 # 10)%Q in
  let run t := ChromeDriverManager.create_driver Demo.manager (Some "demo") false
                 (Demo.world (Demo.site true true []) Demo.installed t []) in
  ~ (t1 == t2)%Q
  /\ fst (run t1) = Val 0%nat /\ fst (run t2) = Val 0%nat
  /\ launched_profiles (calls (snd (run t1)))
     = ["--user-data-dir=/home/demo/.local/share/pyseed_demo/ChromeProfiles/"
        +:+ "PySeed_Demo_profile/demo_1700000000"]
  /\ launched_profiles (calls (snd (run t2))) = launched_profiles (calls (snd (run t1))).
Proof.
  cbv zeta. split; [intros H; vm_compute in H; discriminate|].
  repeat split; vm_compute; reflexivity.
Qed.

(** ** The json module *)

Section PyvalInduction.
Import Json.
Variable P : pyval -> Prop.
Hypothesis none_case : P PNone.
Hypothesis bool_case : forall b, P (PBool b).
Hypothesis int_case : forall z, P (PInt z).
Hypothesis float_case : forall x, P (PFloat x).
Hypothesis str_case : forall s, P (PStr s).
Hypothesis bytes_case : forall b, P (PBytes b).
Hypothesis list_case : forall l, Forall P l -> P (PList l).
Hypothesis tuple_case : forall l, Forall P l -> P (PTuple l).
Hypothesis dict_case : forall d, Forall (fun kv => P (snd kv)) d -> P (PDict d).

(** Induction on values, with the hypothesis for every item of a list, a
    tuple or a dict. *)
Lemma pyval_nested_ind : forall v, P v.
Proof.
  fix IH 1. intros [|b|z|x|s|l|l|d|b].
  - exact none_case.
  - apply bool_case.
  - apply int_case.
  - apply float_case.
  - apply str_case.
  - apply list_case. induction l as [|x l IHl]; constructor; [apply IH|exact IHl].
  - apply tuple_case. induction l as [|x l IHl]; constructor; [apply IH|exact IHl].
  - apply dict_case. induction d as [|[k x] d IHd]; constructor; [apply IH|exact IHd].
  - apply bytes_case.
Qed.

End PyvalInduction.

Lemma Forall_map_intro {A B} (P : A -> Prop) (Q : B -> Prop) (f : A -> B) l :
  Forall P l -> (forall x, P x -> Q (f x)) -> Forall Q (map f l).
Proof. induction 1; cbn; constructor; auto. Qed.

Section Encoder.
Import Json.
Variable indent : Z.

Lemma emit_fails s : fails_only_TypeError (emit s).
Proof. intros e. discriminate. Qed.

Lemma then_fails a b :
  fails_only_TypeError a -> fails_only_TypeError b -> fails_only_TypeError (a >> b).
Proof.
  intros Ha Hb e. unfold then_. destruct (snd a) as [ea|] eqn:E.
  - rewrite E. intros [= <-]. now apply Ha.
  - cbn. apply Hb.
Qed.

Lemma list_loop_fails level items : forall buf,
  Forall fails_only_TypeError items -> fails_only_TypeError (list_loop indent level items buf).
Proof.
  induction items as [|x r IH]; intros buf F; cbn [list_loop].
  - apply then_fails; apply emit_fails.
  - inversion F; subst. repeat apply then_fails; auto using emit_fails.
Qed.

Lemma dict_loop_fails level items : forall sep,
  Forall (fun kx => fails_only_TypeError (snd kx)) items ->
  fails_only_TypeError (dict_loop indent level items sep).
Proof.
  induction items as [|[k x] r IH]; intros sep F; cbn [dict_loop].
  - apply then_fails; apply emit_fails.
  - inversion F; subst. repeat apply then_fails; auto using emit_fails.
Qed.

(** The encoder stops on [TypeError] only. *)
Lemma iterencode_fails v : forall level, fails_only_TypeError (iterencode indent v level).
Proof.
  induction v as [|b|z|x|s|b|l IH|l IH|d IH] using pyval_nested_ind; intros level;
    cbn [iterencode]; try apply emit_fails.
  - destruct b; apply emit_fails.
  - intros e [= <-]. reflexivity.
  - destruct l as [|x l]; [apply emit_fails|].
    apply list_loop_fails. apply (Forall_map_intro _ _ _ _ IH). auto.
  - destruct l as [|x l]; [apply emit_fails|].
    apply list_loop_fails. apply (Forall_map_intro _ _ _ _ IH). auto.
  - destruct d as [|kx d]; [apply emit_fails|].
    apply then_fails; [apply emit_fails|].
    apply dict_loop_fails. apply (Forall_map_intro _ _ _ _ IH).
    intros [k x] Hx. cbn. auto.
Qed.

End Encoder.

(** ** utils.py *)

Lemma os_error_is_Exception c p : isinstance (Fs.os_error c p) Exception = true.
Proof. now destruct c. Qed.

Lemma os_error_FileNotFound c p :
  isinstance (Fs.os_error c p) FileNotFoundError = bool_decide (c = Fs.ENOENT).
Proof. now destruct c. Qed.

Lemma os_error_not_JSONDecodeError c p :
  isinstance (Fs.os_error c p) JSONDecodeError = false.
Proof. now destruct c. Qed.

(** A file that was just opened for writing is there, and empty. *)
Lemma open_write_lookup k f f' :
  Fs.open_write k f = inr f' ->
  exists r, f' !! k = Some (File r true (Utf8 "")).
Proof.
  unfold Fs.open_write. destruct (Fs.walk f [] k); [discriminate|].
  destruct (Fs.node_at f k) as [[wr|r [] d]|] eqn:E; try discriminate.
  - intros [= <-]. exists r. apply lookup_insert_eq.
  - destruct (Fs.node_at f (removelast k)) as [[[]|]|]; try discriminate.
    intros [= <-]. exists true. apply lookup_insert_eq.
Qed.

(** A file that opens for reading is a readable file of the map. *)
Lemma open_read_lookup k f :
  Fs.open_read k f = None -> exists wr d, f !! k = Some (File true wr d).
Proof.
  unfold Fs.open_read. destruct (Fs.walk f [] k); [discriminate|].
  destruct k as [|s k]; [discriminate|]. cbn [Fs.node_at].
  destruct (f !! (s :: k)) as [[?|[] wr d]|]; try discriminate. eauto.
Qed.

Section ReadWrite.
Import FileHandler.
Context {codec : CsvCodec}.
Variable self : FileHandler.t.

(** What the body of the reading methods does up to the text. *)
Lemma open_read_text p w :
  (f <- open_ p ModeR ;; file_read f) w
  = match readable_text w p with
    | Some text => (Val text, w)
    | None =>
        match Fs.open_read (os_key w p) (fs w) with
        | Some c => (Exc (Fs.os_error c p), w)
        | None => (Exc (mk_exn UnicodeDecodeError "'utf-8' codec can't decode byte"), w)
        end
    end.
Proof.
  unfold bind, open_, file_read, readable_text.
  destruct (Fs.open_read (os_key w p) (fs w)) as [c|] eqn:E; [reflexivity|].
  destruct (open_read_lookup _ _ E) as (wr & d & L). rewrite L.
  destruct d; reflexivity.
Qed.

Lemma read_text_value p w :
  fst (read_text self p w) = Val (default "" (readable_text w (_resolve_path self p))).
Proof.
  unfold read_text, try_except. rewrite open_read_text.
  destruct (readable_text w (_resolve_path self p)) as [text|]; [reflexivity|].
  destruct (Fs.open_read _ _) as [c|]; [|reflexivity].
  unfold orelse, except. rewrite os_error_FileNotFound, os_error_is_Exception.
  destruct c; reflexivity.
Qed.

Lemma read_json_value p w :
  fst (read_json self p w)
  = Val (default (Json.PDict []) (readable_text w (_resolve_path self p) ≫= Json.loads)).
Proof.
  unfold read_json, try_except, json_load.
  set (full := _resolve_path self p).
  pose proof (open_read_text full w) as E. unfold bind in E |- *.
  destruct (open_ full ModeR w) as [[f|e] w1] eqn:Eo.
  - destruct (file_read f w1) as [[text|e] w2] eqn:Er.
    + destruct (readable_text w full) as [text'|]; [|destruct (Fs.open_read _ _); discriminate].
      injection E as -> ->. cbn [mbind option_bind default].
      destruct (Json.loads text') as [v|]; reflexivity.
    + destruct (readable_text w full) as [text'|]; [discriminate|].
      destruct (Fs.open_read _ _) as [c|]; injection E as -> ->; [|reflexivity].
      unfold orelse, except.
      rewrite os_error_FileNotFound, os_error_not_JSONDecodeError, os_error_is_Exception.
      destruct c; reflexivity.
  - destruct (readable_text w full) as [text'|]; [discriminate|].
    destruct (Fs.open_read _ _) as [c|]; injection E as -> ->; [|reflexivity].
    unfold orelse, except.
    rewrite os_error_FileNotFound, os_error_not_JSONDecodeError, os_error_is_Exception.
    destruct c; reflexivity.
Qed.

Lemma read_csv_value p w :
  fst (read_csv self p w)
  = Val (default [] (readable_text w (_resolve_path self p) ≫= csv_rows)).
Proof.
  unfold read_csv, try_except, csv_read_all, csv_rows.
  set (full := _resolve_path self p).
  pose proof (open_read_text full w) as E. unfold bind in E |- *.
  destruct (open_ full ModeR w) as [[f|e] w1] eqn:Eo.
  - destruct (file_read f w1) as [[text|e] w2] eqn:Er.
    + destruct (readable_text w full) as [text'|]; [|destruct (Fs.open_read _ _); discriminate].
      injection E as -> ->. cbn [mbind option_bind default].
      destruct (csv_DictReader text') as [msg|rows]; reflexivity.
    + destruct (readable_text w full) as [text'|]; [discriminate|].
      destruct (Fs.open_read _ _) as [c|]; injection E as -> ->; [|reflexivity].
      unfold orelse, except. rewrite os_error_FileNotFound, os_error_is_Exception.
      destruct c; reflexivity.
  - destruct (readable_text w full) as [text'|]; [discriminate|].
    destruct (Fs.open_read _ _) as [c|]; injection E as -> ->; [|reflexivity].
    unfold orelse, except. rewrite os_error_FileNotFound, os_error_is_Exception.
    destruct c; reflexivity.
Qed.

(** The first two steps of the writing methods. *)
Lemma mkdir_open p w :
  (path_mkdir_parents (path_parent p) ;; open_ p ModeW) w
  = match opened_for_write w p with
    | Some f2 => (Val p, set_fs f2 w)
    | None =>
        (path_mkdir_parents (path_parent p) ;; open_ p ModeW) w
    end
  /\ (opened_for_write w p = None ->
      exists c q w', (path_mkdir_parents (path_parent p) ;; open_ p ModeW) w
                     = (Exc (Fs.os_error c q), w')).
Proof.
  unfold opened_for_write, bind, path_mkdir_parents, open_.
  destruct (Fs.mkdir_parents _ _ _) as [c|f1] eqn:E1.
  - split; [reflexivity|]. intros _. eauto.
  - cbn [fs set_fs]. unfold os_key. cbn [cwd set_fs].
    fold (os_key w p).
    destruct (Fs.open_write (os_key w p) f1) as [c|f2] eqn:E2.
    + split; [reflexivity|]. intros _. eauto.
    + split; [reflexivity|]. discriminate.
Qed.

Lemma write_text_value p content w :
  fst (write_text self p content w)
  = Val (bool_decide (is_Some (opened_for_write w (_resolve_path self p)))).
Proof.
  unfold write_text, try_except.
  set (full := _resolve_path self p).
  destruct (mkdir_open full w) as [E N]. unfold bind in E, N |- *.
  destruct (opened_for_write w full) as [f2|] eqn:O.
  - rewrite bool_decide_eq_true_2 by eauto.
    destruct (path_mkdir_parents (path_parent full) w) as [[[]|e] w1]; [|discriminate].
    rewrite E. unfold file_write. cbn [fs set_fs]. unfold os_key. cbn [cwd set_fs].
    fold (os_key w full).
    unfold opened_for_write in O.
    destruct (Fs.mkdir_parents _ _ _) as [c|f1]; [discriminate|].
    destruct (Fs.open_write (os_key w full) f1) as [c|f2'] eqn:E2; [discriminate|].
    injection O as ->. destruct (open_write_lookup _ _ _ E2) as (r & L). rewrite L.
    reflexivity.
  - rewrite bool_decide_eq_false_2 by (intros [? ?]; discriminate).
    destruct (N eq_refl) as (c & q & w' & N').
    destruct (path_mkdir_parents (path_parent full) w) as [[[]|e] w1].
    + rewrite N'. unfold except. rewrite os_error_is_Exception. reflexivity.
    + injection N' as -> ->. unfold except. rewrite os_error_is_Exception. reflexivity.
Qed.

Lemma write_json_value p data indent w :
  fst (write_json self p data indent w)
  = Val (bool_decide (is_Some (opened_for_write w (_resolve_path self p)))
         && bool_decide (snd (Json.iterencode indent data 0) = None)).
Proof.
  unfold write_json, try_except.
  set (full := _resolve_path self p).
  destruct (mkdir_open full w) as [E N]. unfold bind in E, N |- *.
  destruct (opened_for_write w full) as [f2|] eqn:O.
  - rewrite bool_decide_eq_true_2 by eauto.
    destruct (path_mkdir_parents (path_parent full) w) as [[[]|e] w1]; [|discriminate].
    rewrite E. unfold json_dump, bind, file_write. cbn [fs set_fs]. unfold os_key.
    cbn [cwd set_fs]. fold (os_key w full).
    unfold opened_for_write in O.
    destruct (Fs.mkdir_parents _ _ _) as [c|f1]; [discriminate|].
    destruct (Fs.open_write (os_key w full) f1) as [c|f2'] eqn:E2; [discriminate|].
    injection O as ->. destruct (open_write_lookup _ _ _ E2) as (r & L). rewrite L.
    destruct (Json.iterencode indent data 0) as [text [e|]] eqn:Ej; cbn [fst snd].
    + rewrite bool_decide_eq_false_2 by discriminate.
      unfold reraise, except.
      assert (isinstance e Exception = true) as ->; [|reflexivity].
      pose proof (iterencode_fails indent data 0%nat e) as T. rewrite Ej in T.
      unfold isinstance. now rewrite (T eq_refl).
    + reflexivity.
  - rewrite bool_decide_eq_false_2 by (intros [? ?]; discriminate).
    destruct (N eq_refl) as (c & q & w' & N').
    destruct (path_mkdir_parents (path_parent full) w) as [[[]|e] w1].
    + rewrite N'. unfold except. rewrite os_error_is_Exception. reflexivity.
    + injection N' as -> ->. unfold except. rewrite os_error_is_Exception. reflexivity.
Qed.

Lemma write_csv_value p data fieldnames w :
  fst (write_csv self p data fieldnames w)
  = Val (match data with
         | [] => false
         | _ =>
             bool_decide (is_Some (opened_for_write w (_resolve_path self p)))
             && bool_decide (snd (csv_DictWriter (csv_fieldnames fieldnames data) data) = None)
         end).
Proof.
  destruct data as [|first rest]; [reflexivity|].
  unfold write_csv, try_except.
  set (full := _resolve_path self p).
  destruct (mkdir_open full w) as [E N]. unfold bind in E, N |- *.
  destruct (opened_for_write w full) as [f2|] eqn:O.
  - rewrite bool_decide_eq_true_2 by eauto.
    destruct (path_mkdir_parents (path_parent full) w) as [[[]|e] w1]; [|discriminate].
    rewrite E. unfold csv_write_all, bind, file_write. cbn [fs set_fs]. unfold os_key.
    cbn [cwd set_fs]. fold (os_key w full).
    unfold opened_for_write in O.
    destruct (Fs.mkdir_parents _ _ _) as [c|f1]; [discriminate|].
    destruct (Fs.open_write (os_key w full) f1) as [c|f2'] eqn:E2; [discriminate|].
    injection O as ->. destruct (open_write_lookup _ _ _ E2) as (r & L). rewrite L.
    fold (csv_fieldnames fieldnames (first :: rest)).
    destruct (csv_DictWriter _ _) as [text [msg|]] eqn:Ec; cbn [fst snd].
    + rewrite bool_decide_eq_false_2 by discriminate. reflexivity.
    + reflexivity.
  - rewrite bool_decide_eq_false_2 by (intros [? ?]; discriminate).
    destruct (N eq_refl) as (c & q & w' & N').
    destruct (path_mkdir_parents (path_parent full) w) as [[[]|e] w1].
    + rewrite N'. unfold except. rewrite os_error_is_Exception. reflexivity.
    + injection N' as -> ->. unfold except. rewrite os_error_is_Exception. reflexivity.
Qed.

Lemma create_directory_value p w :
  exists b, fst (create_directory self p w) = Val b.
Proof.
  unfold create_directory, try_except, bind, path_mkdir_parents.
  destruct (Fs.mkdir_parents _ _ _) as [c|f1]; [|eauto].
  unfold except. rewrite os_error_is_Exception. eauto.
Qed.

(** A file that does not exist has no readable text. *)
Lemma readable_text_missing w p :
  Fs.node_at (fs w) (os_key w p) = None -> readable_text w p = None.
Proof.
  intros N. unfold readable_text, Fs.open_read.
  destruct (Fs.walk _ _ _); [reflexivity|]. now rewrite N.
Qed.

(** C4: no method of [FileHandler] raises on an I/O or decoding failure,
    and each one answers a failure with its empty value.  The reading
    methods return what the file holds when it opens, decodes as UTF-8
    and (for JSON and CSV) parses, and the empty string, dict or list in
    every other case; the writing methods return [True] when the
    directories could be made, the file opened and the data encoded, and
    [False] in every other case.  In particular [read_json] gives the
    empty dict and [read_csv] the empty list for a file that does not
    exist. *)
Theorem file_handler_never_raises p w content data indent rows fieldnames :
  let full := _resolve_path self p in
  fst (read_text self p w) = Val (default "" (readable_text w full))
  /\ fst (read_json self p w)
     = Val (default (Json.PDict []) (readable_text w full ≫= Json.loads))
  /\ fst (read_csv self p w) = Val (default [] (readable_text w full ≫= csv_rows))
  /\ fst (write_text self p content w) = Val (bool_decide (is_Some (opened_for_write w full)))
  /\ fst (write_json self p data indent w)
     = Val (bool_decide (is_Some (opened_for_write w full))
            && bool_decide (snd (Json.iterencode indent data 0) = None))
  /\ fst (write_csv self p rows fieldnames w)
     = Val (match rows with
            | [] => false
            | _ =>
                bool_decide (is_Some (opened_for_write w full))
                && bool_decide (snd (csv_DictWriter (csv_fieldnames fieldnames rows) rows)
                                = None)
            end)
  /\ (Fs.node_at (fs w) (os_key w full) = None ->
      fst (read_json self p w) = Val (Json.PDict [])
      /\ fst (read_csv self p w) = Val []).
Proof.
  intros full.
  split; [apply read_text_value|].
  split; [apply read_json_value|].
  split; [apply read_csv_value|].
  split; [apply write_text_value|].
  split; [apply write_json_value|].
  split; [apply write_csv_value|].
  intros Hmissing. rewrite read_json_value, read_csv_value. fold full.
  now rewrite (readable_text_missing _ _ Hmissing).
Qed.

(** C6: [write_csv] with an empty list returns [False] after printing a
    warning; the filesystem is as before: no file and no directory is
    created or changed. *)
Theorem write_csv_empty p fieldnames w :
  write_csv self p [] fieldnames w
  = (Val false, add_console "[WARNING] No data to write to CSV" w)
  /\ fs (snd (write_csv self p [] fieldnames w)) = fs w.
Proof. split; reflexivity. Qed.

End ReadWrite.

Lemma file_handler_never_raises_witness :
  let w := Demo.world (Demo.site true true []) Demo.installed 0%Q [] in
  let fh := MainApplication.file_handler Demo.app in
  fst (FileHandler.read_json fh (Path false ["results"; "none.json"]) w) = Val (Json.PDict [])
  /\ fst (FileHandler.read_csv (codec := Demo.plain_csv) fh (Path false ["results"; "none.json"]) w)
     = Val [].
Proof.
  intros w fh.
  apply (file_handler_never_raises (codec := Demo.plain_csv) fh
           (Path false ["results"; "none.json"]) w "" Json.PNone 2 [] None).
  reflexivity.
Defined.


(** ** Decoding what the encoder wrote *)

#[local] Arguments String.append !s1 s2 / : simpl nomatch.

Section Decoder.
Import Json FileHandler.
Variable indent : Z.

Lemma append_assoc (a b c : string) : (a +:+ b) +:+ c = a +:+ (b +:+ c).
Proof. induction a as [|x a IH]; simpl; [reflexivity|]. f_equal. exact IH. Qed.

Lemma append_nil_r (a : string) : a +:+ "" = a.
Proof. induction a as [|x a IH]; simpl; [reflexivity|]. f_equal. exact IH. Qed.

Lemma length_append (a b : string) :
  String.length (a +:+ b) = (String.length a + String.length b)%nat.
Proof. induction a as [|x a IH]; simpl; [reflexivity|]. f_equal. exact IH. Qed.

(** *** White space *)

Lemma skip_ws_blanks k s : skip_ws (str_repeat " " k +:+ s) = skip_ws s.
Proof. induction k as [|k IH]; cbn; [reflexivity|]. exact IH. Qed.

Lemma skip_ws_spaces k n s :
  skip_ws (str_repeat (str_repeat " " k) n +:+ s) = skip_ws s.
Proof.
  induction n as [|n IH]; cbn [str_repeat]; [reflexivity|].
  now rewrite append_assoc, skip_ws_blanks.
Qed.

Lemma skip_ws_newline_indent n s : skip_ws (newline_indent indent n +:+ s) = skip_ws s.
Proof.
  unfold newline_indent, nl. rewrite append_assoc.
  change (skip_ws (String "010" ?a +:+ ?b)) with (skip_ws b) at 1.
  apply skip_ws_spaces.
Qed.

Lemma skip_ws_start c r : is_ws c = false -> skip_ws (String c r) = String c r.
Proof. intros H. cbn. now rewrite H. Qed.

(** *** Strings *)

Lemma scanstring_escape_char c r :
  scanstring (escape_char c +:+ r) = cons_str (String c "") (scanstring r).
Proof. destruct c as [[] [] [] [] [] [] [] []]; reflexivity. Qed.

Lemma scanstring_escape s rest :
  scanstring (escape s +:+ String "034" rest) = Some (s, rest).
Proof.
  induction s as [|c s IH]; [reflexivity|].
  cbn [escape]. rewrite append_assoc, scanstring_escape_char, IH. reflexivity.
Qed.

Lemma encode_basestring_app s rest :
  encode_basestring s +:+ rest = String "034" (escape s +:+ String "034" rest).
Proof.
  unfold encode_basestring, dq.
  change (String ?c ?a +:+ ?b) with (String c (a +:+ b)).
  now rewrite append_assoc.
Qed.

(** *** Digits *)

Lemma ends_number_float_tail rest : ends_number rest = true -> float_tail rest = false.
Proof.
  destruct rest as [|c r]; [reflexivity|]. cbn [ends_number].
  destruct (digit_of c); [discriminate|]. now destruct (float_tail (String c r)).
Qed.

Lemma ends_number_starts_digit rest : ends_number rest = true -> starts_digit rest = false.
Proof.
  destruct rest as [|c r]; [reflexivity|]. cbn [ends_number starts_digit].
  now destruct (digit_of c).
Qed.

Lemma scan_digits_stop rest : starts_digit rest = false -> scan_digits rest = (Decimal.Nil, rest).
Proof.
  destruct rest as [|c r]; [reflexivity|]. cbn [starts_digit scan_digits].
  now destruct (digit_of c).
Qed.

Lemma scan_digits_all ds rest :
  all_digits ds = true -> starts_digit rest = false ->
  scan_digits (ds +:+ rest) = (digits_of ds, rest).
Proof.
  intros A E. induction ds as [|c ds IH].
  - cbn [String.append]. now rewrite scan_digits_stop.
  - cbn [all_digits] in A. unfold digits_of.
    cbn [String.append scan_digits]. destruct (digit_of c) as [d|]; [|discriminate].
    rewrite (IH A). unfold digits_of.
    now destruct (scan_digits ds) as [u r].
Qed.

Lemma digits_of_nonnil c ds :
  all_digits (String c ds) = true -> digits_of (String c ds) <> Decimal.Nil.
Proof.
  unfold digits_of. cbn [all_digits scan_digits].
  destruct (digit_of c) as [d|] eqn:E; [|discriminate]. intros _.
  destruct (scan_digits ds) as [u r]. cbn [fst].
  destruct c as [[] [] [] [] [] [] [] []]; cbv in E; try discriminate E;
    injection E as <-; discriminate.
Qed.

Lemma scan_digits1_all c ds rest :
  all_digits (String c ds) = true -> starts_digit rest = false ->
  scan_digits1 (String c ds +:+ rest) = Some (digits_of (String c ds), rest).
Proof.
  intros A E. unfold scan_digits1. rewrite (scan_digits_all _ _ A E).
  pose proof (digits_of_nonnil c ds A) as N.
  now destruct (digits_of (String c ds)).
Qed.

Lemma all_digits_app a b : all_digits (a +:+ b) = all_digits a && all_digits b.
Proof.
  induction a as [|c a IH]; [reflexivity|]. cbn [String.append all_digits].
  now destruct (digit_of c).
Qed.

Lemma all_digits_zeros n : all_digits (str_repeat "0" n) = true.
Proof. induction n as [|n IH]; [reflexivity|]. exact IH. Qed.

Lemma all_digits_take n : forall s, all_digits s = true -> all_digits (Float.str_take n s) = true.
Proof.
  induction n as [|n IH]; intros [|c s] A; try reflexivity.
  cbn [Float.str_take all_digits] in A |- *. destruct (digit_of c); [|discriminate]. auto.
Qed.

Lemma all_digits_drop n : forall s, all_digits s = true -> all_digits (Float.str_drop n s) = true.
Proof.
  induction n as [|n IH]; intros [|c s] A; try reflexivity; try exact A.
  cbn [Float.str_drop all_digits] in A |- *. destruct (digit_of c); [|discriminate]. auto.
Qed.

Lemma all_digits_drop_zeros s : all_digits s = true -> all_digits (Float.drop_zeros s) = true.
Proof.
  induction s as [|c s IH]; intros A; [reflexivity|].
  cbn [all_digits] in A. destruct (digit_of c) as [d|] eqn:E; [|discriminate].
  cbn [Float.drop_zeros]. specialize (IH A).
  destruct (Float.drop_zeros s) as [|c' s'].
  - destruct (Ascii.eqb c "0"); [reflexivity|]. cbn [all_digits]. now rewrite E.
  - cbn [all_digits] in IH |- *. now rewrite E.
Qed.

Lemma all_digits_uint u : all_digits (NilEmpty.string_of_uint u) = true.
Proof. induction u; cbn; auto. Qed.

Lemma str_drop_nonempty n : forall s,
  (n < String.length s)%nat -> Float.str_drop n s <> "".
Proof.
  induction n as [|n IH]; intros [|c s] L; cbn in L |- *; try lia; try discriminate.
  apply IH. lia.
Qed.

Lemma to_uint_head p d : Pos.to_uint p <> Decimal.D0 d.
Proof.
  assert (Pos.to_uint p = Decimal.unorm (Pos.to_uint p)) as E.
  { rewrite <- DecimalPos.Unsigned.to_of, DecimalPos.Unsigned.of_to. reflexivity. }
  rewrite E, DecimalFacts.unorm_nzhead.
  - apply DecimalFacts.nzhead_nonzero.
  - intros N. apply (DecimalPos.Unsigned.to_uint_nonzero p).
    rewrite E. now apply DecimalFacts.unorm_0.
Qed.

(** The digits of a positive number start with another digit than [0]. *)
Lemma pos_digits_head p :
  exists c r, NilEmpty.string_of_uint (Pos.to_uint p) = String c r /\ Ascii.eqb c "0" = false.
Proof.
  pose proof (to_uint_head p) as H0.
  pose proof (DecimalPos.Unsigned.to_uint_nonnil p) as Hn.
  destruct (Pos.to_uint p) as [|d|d|d|d|d|d|d|d|d|d];
    [congruence | exfalso; now apply (H0 d) | ..];
    cbn [NilEmpty.string_of_uint]; do 2 eexists; split; reflexivity.
Qed.

Lemma drop_zeros_head c r :
  Ascii.eqb c "0" = false -> exists r', Float.drop_zeros (String c r) = String c r'.
Proof.
  intros E. cbn [Float.drop_zeros]. destruct (Float.drop_zeros r) as [|c' r'].
  - rewrite E. now eexists.
  - now eexists.
Qed.

Lemma str_of_Z_digits z : (0 <= z)%Z ->
  all_digits (str_of_Z z) = true /\ str_of_Z z <> "".
Proof.
  intros H. unfold str_of_Z. destruct z as [|p|p]; [split; [reflexivity|discriminate]| |lia].
  cbn [Z.to_int NilZero.string_of_int].
  destruct (pos_digits_head p) as (c & r & E & _).
  pose proof (all_digits_uint (Pos.to_uint p)) as A.
  pose proof (DecimalPos.Unsigned.to_uint_nonnil p) as Hn.
  assert (NilZero.string_of_uint (Pos.to_uint p) = NilEmpty.string_of_uint (Pos.to_uint p))
    as ->.
  { now destruct (Pos.to_uint p). }
  split; [exact A|]. rewrite E. discriminate.
Qed.

(** *** Numbers *)

Lemma scan_frac_none rest : float_tail rest = false -> scan_frac rest = None.
Proof.
  destruct rest as [|c r]; [reflexivity|]. cbn [float_tail scan_frac].
  destruct c as [[] [] [] [] [] [] [] []]; cbv; congruence.
Qed.

Lemma scan_exp_none rest : float_tail rest = false -> scan_exp rest = None.
Proof.
  destruct rest as [|c r]; [reflexivity|]. cbn [float_tail scan_exp].
  destruct c as [[] [] [] [] [] [] [] []]; cbv; congruence.
Qed.

Lemma scan_int_part_zero rest :
  scan_int_part (String "0" rest) = Some (Decimal.D0 Decimal.Nil, rest).
Proof. reflexivity. Qed.

Lemma scan_int_part_digits c ds rest :
  all_digits (String c ds) = true -> Ascii.eqb c "0" = false -> starts_digit rest = false ->
  scan_int_part (String c ds +:+ rest) = Some (digits_of (String c ds), rest).
Proof.
  intros A Z E. cbn [String.append scan_int_part]. rewrite Z.
  exact (scan_digits1_all c ds rest A E).
Qed.

Lemma scan_digits_uint d rest :
  starts_digit rest = false ->
  scan_digits (NilEmpty.string_of_uint d +:+ rest) = (d, rest).
Proof.
  intros E. induction d as [|d IH|d IH|d IH|d IH|d IH|d IH|d IH|d IH|d IH|d IH];
    cbn [NilEmpty.string_of_uint String.append]; try (cbn; now rewrite IH).
  now apply scan_digits_stop.
Qed.

Lemma digits_of_uint d : digits_of (NilEmpty.string_of_uint d) = d.
Proof.
  unfold digits_of. rewrite <- (append_nil_r (NilEmpty.string_of_uint d)).
  now rewrite scan_digits_uint.
Qed.

Lemma digit_not_minus c d : digit_of c = Some d -> Ascii.eqb c "-" = false.
Proof. destruct c as [[] [] [] [] [] [] [] []]; cbv; congruence. Qed.

Lemma scan_unsigned_pos neg p rest :
  ends_number rest = true ->
  scan_unsigned neg (NilEmpty.string_of_uint (Pos.to_uint p) +:+ rest)
  = Some (PInt (if neg then Z.neg p else Z.pos p), rest).
Proof.
  intros E. pose proof (ends_number_float_tail rest E) as F.
  pose proof (ends_number_starts_digit rest E) as D.
  destruct (pos_digits_head p) as (c & r & Ep & Z0).
  pose proof (all_digits_uint (Pos.to_uint p)) as A.
  pose proof (digits_of_uint (Pos.to_uint p)) as U.
  rewrite Ep in A, U |- *. unfold scan_unsigned.
  rewrite (scan_int_part_digits c r rest A Z0 D), U.
  rewrite (scan_frac_none rest F), (scan_exp_none rest F). cbn [number_value].
  destruct neg.
  - pose proof (DecimalZ.of_to (Z.neg p)) as OT. cbn [Z.to_int] in OT. now rewrite OT.
  - pose proof (DecimalZ.of_to (Z.pos p)) as OT. cbn [Z.to_int] in OT. now rewrite OT.
Qed.

Lemma string_of_uint_pos p :
  NilZero.string_of_uint (Pos.to_uint p) = NilEmpty.string_of_uint (Pos.to_uint p).
Proof. pose proof (DecimalPos.Unsigned.to_uint_nonnil p). now destruct (Pos.to_uint p). Qed.

Lemma scan_number_str_of_Z z rest :
  ends_number rest = true ->
  scan_number (str_of_Z z +:+ rest) = Some (PInt z, rest).
Proof.
  intros E. pose proof (ends_number_float_tail rest E) as F.
  unfold str_of_Z. destruct z as [|p|p]; cbn [Z.to_int NilZero.string_of_int].
  - change (scan_unsigned false (String "0" rest) = Some (PInt 0, rest)).
    unfold scan_unsigned.
    rewrite scan_int_part_zero, (scan_frac_none rest F), (scan_exp_none rest F).
    reflexivity.
  - rewrite string_of_uint_pos.
    destruct (pos_digits_head p) as (c & r & Ep & Z0).
    pose proof (scan_unsigned_pos false p rest E) as S.
    pose proof (all_digits_uint (Pos.to_uint p)) as A.
    rewrite Ep in S, A |- *. cbn [String.append scan_number] in S |- *.
    cbn [all_digits] in A. destruct (digit_of c) as [d|] eqn:Ed; [|discriminate].
    now rewrite (digit_not_minus c d Ed).
  - rewrite string_of_uint_pos.
    exact (scan_unsigned_pos true p rest E).
Qed.

(** *** Floats *)

Lemma starts_digit_point r : starts_digit (String "." r) = false.
Proof. reflexivity. Qed.

Lemma starts_digit_e r : starts_digit (String "e" r) = false.
Proof. reflexivity. Qed.

(** The scanner on the exponent [repr] writes. *)
Lemma scan_exp_literal (s : bool) c e rest :
  all_digits (String c e) = true -> starts_digit rest = false ->
  scan_exp ("e" +:+ (if s then "-" else "+") +:+ String c e +:+ rest)
  = Some (if s then (- Z.of_uint (digits_of (String c e)))%Z
          else Z.of_uint (digits_of (String c e)), rest).
Proof.
  intros A E. destruct s; cbn [String.append scan_exp Ascii.eqb Bool.eqb orb];
    change (String c (e +:+ rest)) with (String c e +:+ rest);
    now rewrite (scan_digits1_all c e rest A E).
Qed.

(** The fraction and the exponent of a literal, as the scanner reads them
    after the integer. *)
Lemma scan_tail_literal neg i l rest :
  well_formed l = true -> ends_number rest = true ->
  (let tail := Float.frac_part (Float.lit_frac l) +:+ Float.exp_part (Float.lit_exp l) +:+ rest in
   let '(f, r2) :=
     match scan_frac tail with
     | Some (f, r2) => (Some f, r2)
     | None => (None, tail)
     end in
   let '(e, r3) :=
     match scan_exp r2 with
     | Some (e, r3) => (Some e, r3)
     | None => (None, r2)
     end in
   Some (number_value neg i f e, r3))
  = Some (number_value neg i (frac_value (Float.lit_frac l)) (exp_value (Float.lit_exp l)),
          rest).
Proof.
  intros W E. pose proof (ends_number_float_tail rest E) as F.
  pose proof (ends_number_starts_digit rest E) as D.
  destruct l as [n int frac exp]. unfold well_formed in W.
  cbn [Float.lit_int Float.lit_frac Float.lit_exp] in *.
  apply andb_prop in W as [W We]. apply andb_prop in W as [W Wf]. clear W.
  unfold Float.frac_part, Float.exp_part, frac_value, exp_value.
  destruct frac as [|fc fr], exp as [[s [|ec er]]|].
  - apply andb_prop in We as [_ We]. discriminate.
  - apply andb_prop in We as [We _]. cbv zeta.
    change ("" +:+ ?x) with x. rewrite !append_assoc.
    change (scan_frac ("e" +:+ ?x)) with (@None (Decimal.uint * string)).
    cbv beta iota.
    rewrite (scan_exp_literal s ec er rest We D). reflexivity.
  - discriminate.
  - apply andb_prop in We as [_ We]. discriminate.
  - apply andb_prop in We as [We _]. cbv zeta.
    rewrite !append_assoc.
    change (scan_frac ("." +:+ ?x)) with (scan_digits1 x).
    rewrite (scan_digits1_all fc fr _ Wf) by (destruct s; reflexivity).
    cbv beta iota.
    rewrite (scan_exp_literal s ec er rest We D). reflexivity.
  - cbv zeta. rewrite !append_assoc.
    change (scan_frac ("." +:+ ?x)) with (scan_digits1 x).
    change ("" +:+ rest) with rest.
    rewrite (scan_digits1_all fc fr _ Wf) by exact D.
    cbv beta iota.
    now rewrite scan_exp_none by exact F.
Qed.

Lemma starts_digit_tail frac exp rest :
  ends_number rest = true ->
  starts_digit (Float.frac_part frac +:+ Float.exp_part exp +:+ rest) = false.
Proof.
  intros E. destruct frac as [|fc fr]; [|reflexivity].
  destruct exp as [[s e]|]; [reflexivity|].
  now apply ends_number_starts_digit.
Qed.

(** The scanner on a literal of [repr]. *)
Lemma scan_number_literal l rest :
  well_formed l = true -> ends_number rest = true ->
  scan_number (Float.render l +:+ rest) = Some (literal_value l, rest).
Proof.
  intros W E.
  pose proof (scan_tail_literal (Float.lit_neg l) (digits_of (Float.lit_int l)) l rest W E) as T.
  cbv zeta in T. unfold literal_value. rewrite <- T. clear T.
  pose proof (starts_digit_tail (Float.lit_frac l) (Float.lit_exp l) rest E) as D.
  destruct l as [n int frac exp]. unfold well_formed in W.
  cbn [Float.lit_neg Float.lit_int Float.lit_frac Float.lit_exp] in *.
  apply andb_prop in W as [W _]. apply andb_prop in W as [W _].
  apply andb_prop in W as [A I].
  unfold Float.render. cbn [Float.lit_neg Float.lit_int Float.lit_frac Float.lit_exp].
  rewrite !append_assoc.
  set (tail := Float.frac_part frac +:+ Float.exp_part exp +:+ rest) in *.
  assert (scan_int_part (int +:+ tail) = Some (digits_of int, tail)) as P.
  { destruct int as [|c r]; [discriminate|].
    destruct (String.eqb_spec (String c r) "0") as [->|_].
    - reflexivity.
    - cbn [orb] in I. apply negb_true_iff in I.
      now apply scan_int_part_digits. }
  assert (scan_unsigned n (int +:+ tail)
          = (let '(f, r2) :=
               match scan_frac tail with
               | Some (f, r2) => (Some f, r2)
               | None => (None, tail)
               end in
             let '(e, r3) :=
               match scan_exp r2 with
               | Some (e, r3) => (Some e, r3)
               | None => (None, r2)
               end in
             Some (number_value n (digits_of int) f e, r3))) as U.
  { unfold scan_unsigned. now rewrite P. }
  destruct n.
  - exact U.
  - change ("" +:+ ?x) with x.
    destruct int as [|c r]; [discriminate|].
    cbn [all_digits] in A. destruct (digit_of c) as [d|] eqn:Ed; [|discriminate].
    change (String c r +:+ tail) with (String c (r +:+ tail)) in U |- *.
    cbn [scan_number]. now rewrite (digit_not_minus c d Ed).
Qed.

(** What [repr] writes is a literal of the scanner. *)
Lemma format_repr_well_formed neg p decpt :
  well_formed (Float.format_repr neg
                 (Float.drop_zeros (NilEmpty.string_of_uint (Pos.to_uint p))) decpt) = true.
Proof.
  destruct (pos_digits_head p) as (c & r & Ep & Z0).
  pose proof (all_digits_uint (Pos.to_uint p)) as A. rewrite Ep in A |- *.
  apply all_digits_drop_zeros in A.
  destruct (drop_zeros_head c r Z0) as (r' & Ed). rewrite Ed in A |- *.
  clear Ep Ed r. unfold Float.format_repr.
  assert (forall r0, String.eqb (String c r0) "0" = false) as N0.
  { intros r0. cbn [String.eqb]. now rewrite Z0. }
  destruct ((decpt <=? -4) || (16 <? decpt))%Z eqn:B1; [|destruct (decpt <=? 0)%Z eqn:B2;
    [|destruct (Z.of_nat (String.length (String c r')) <=? decpt)%Z eqn:B3]];
    unfold well_formed; cbn [Float.lit_int Float.lit_frac Float.lit_exp].
  - cbn [Float.str_take Float.str_drop]. rewrite N0, Z0.
    cbn [all_digits] in A |- *. destruct (digit_of c); [|discriminate]. rewrite A.
    cbn [orb negb andb].
    assert (0 <= Z.abs (decpt - 1))%Z as H by lia.
    destruct (str_of_Z_digits _ H) as [Ae Ne].
    unfold Float.exp_digits. destruct (Z.abs (decpt - 1) <? 10)%Z.
    + change ("0" +:+ ?x) with (String "0" x). cbn [all_digits digit_of String.eqb].
      now rewrite Ae.
    + rewrite Ae. destruct (str_of_Z (Z.abs (decpt - 1))); [congruence|reflexivity].
  - rewrite all_digits_app, all_digits_zeros, A. cbn.
    destruct (str_repeat "0" (Z.to_nat (- decpt)) +:+ String c r') eqn:Ez; [|reflexivity].
    destruct (Z.to_nat (- decpt)); discriminate.
  - rewrite all_digits_app, all_digits_zeros, A.
    change (String c r' +:+ ?x) with (String c (r' +:+ x)). now rewrite N0, Z0.
  - apply Z.leb_gt in B2, B3.
    destruct (Z.to_nat decpt) as [|n] eqn:En; [lia|].
    pose proof (all_digits_take (S n) _ A) as At.
    pose proof (all_digits_drop (S n) _ A) as Ad.
    pose proof (str_drop_nonempty (S n) (String c r')) as Hd.
    cbn [Float.str_take] in At |- *. rewrite N0, Z0, At, Ad.
    destruct (Float.str_drop (S n) (String c r')); [exfalso; apply Hd; [lia|reflexivity]|].
    reflexivity.
Qed.

Lemma repr_literal_well_formed x : well_formed (Float.repr_literal x) = true.
Proof.
  destruct x as [s|s| |s m e]; try reflexivity.
  unfold Float.repr_literal.
  destruct (Float.shortest _ _ _ _ _ _) as [c k].
  apply format_repr_well_formed.
Qed.

Lemma value_start_not_ws c : value_start c = true -> is_ws c = false.
Proof. destruct c as [[] [] [] [] [] [] [] []]; vm_compute; congruence. Qed.

Lemma emit_then a b : emit a >> emit b = emit (a +:+ b).
Proof. reflexivity. Qed.

Lemma list_loop_emit level ts : forall buf,
  list_loop indent level (map emit ts) buf = emit (items_text indent level ts buf).
Proof.
  induction ts as [|t ts IH]; intros buf; cbn [map list_loop items_text].
  - apply emit_then.
  - rewrite IH, !emit_then. reflexivity.
Qed.

Lemma dict_loop_emit level kts : forall sep,
  dict_loop indent level (map (fun kt => (fst kt, emit (snd kt))) kts) sep
  = emit (pairs_text indent level kts sep).
Proof.
  induction kts as [|[k t] kts IH]; intros sep; cbn [map dict_loop pairs_text fst snd].
  - apply emit_then.
  - rewrite IH, !emit_then. reflexivity.
Qed.

Lemma forallb_Forall {A} (f : A -> bool) l :
  forallb f l = true -> Forall (fun x => f x = true) l.
Proof.
  induction l as [|x l IH]; cbn; intros H; constructor;
    apply andb_prop in H; destruct H; auto.
Qed.

Lemma Forall_mono {A} (P Q : A -> Prop) l :
  Forall P l -> (forall x, P x -> Q x) -> Forall Q l.
Proof. induction 1; constructor; auto. Qed.

Lemma serialisable_list l :
  forallb serialisable l = true -> Forall (fun v => serialisable v = true) l.
Proof. apply forallb_Forall. Qed.

(** For a value without [bytes] the encoder does not fail. *)
Lemma iterencode_emit v :
  serialisable v = true -> forall level, iterencode indent v level = emit (txt indent v level).
Proof.
  unfold txt.
  induction v as [|b|z|x|s|b|l IH|l IH|d IH] using pyval_nested_ind; intros S level;
    try reflexivity.
  - destruct b; reflexivity.
  - discriminate.
  - destruct l as [|x l]; [reflexivity|]. cbn [iterencode].
    assert (map (fun v => iterencode indent v (Datatypes.S level)) (x :: l)
            = map emit (map (fun v => fst (iterencode indent v (Datatypes.S level))) (x :: l))) as ->.
    { rewrite map_map. apply map_ext_Forall.
      cbn [serialisable] in S. apply serialisable_list in S.
      revert S. clear -IH. induction IH; intros S; inversion S; subst; constructor; auto. }
    now rewrite list_loop_emit.
  - destruct l as [|x l]; [reflexivity|]. cbn [iterencode].
    assert (map (fun v => iterencode indent v (Datatypes.S level)) (x :: l)
            = map emit (map (fun v => fst (iterencode indent v (Datatypes.S level))) (x :: l))) as ->.
    { rewrite map_map. apply map_ext_Forall.
      cbn [serialisable] in S. apply serialisable_list in S.
      revert S. clear -IH. induction IH; intros S; inversion S; subst; constructor; auto. }
    now rewrite list_loop_emit.
  - destruct d as [|kx d]; [reflexivity|]. cbn [iterencode].
    assert (map (fun kv => match kv with
                           | (k, v) => (k, iterencode indent v (Datatypes.S level))
                           end) (kx :: d)
            = map (fun kt => (fst kt, emit (snd kt)))
                  (map (fun kv => (fst kv, fst (iterencode indent (snd kv) (Datatypes.S level))))
                       (kx :: d))) as ->.
    { rewrite map_map. apply map_ext_Forall.
      cbn [serialisable] in S.
      assert (Forall (fun kv => serialisable (snd kv) = true) (kx :: d)) as S'.
      { now apply forallb_Forall in S. }
      revert S'. clear -IH. induction IH as [|[k y] r Hy _ IHr]; intros S; inversion S; subst;
        constructor; auto.
      cbn [fst snd] in *. now rewrite Hy. }
    now rewrite dict_loop_emit.
Qed.

Lemma txt_list x l level :
  forallb serialisable (x :: l) = true ->
  txt indent (PList (x :: l)) level
  = items_text indent level (map (fun v => txt indent v (S level)) (x :: l))
               ("[" +:+ newline_indent indent (S level)).
Proof.
  intros S. pose proof (iterencode_emit (PList (x :: l)) S level) as E.
  unfold txt at 1. cbn [iterencode] in E |- *.
  assert (map (fun v => iterencode indent v (Datatypes.S level)) (x :: l)
          = map emit (map (fun v => txt indent v (Datatypes.S level)) (x :: l))) as ->.
  { rewrite map_map. apply map_ext_Forall. apply serialisable_list in S.
    apply (Forall_mono _ _ _ S). intros y Hy. now apply iterencode_emit. }
  now rewrite list_loop_emit.
Qed.


Lemma txt_tuple x l level :
  forallb serialisable (x :: l) = true ->
  txt indent (PTuple (x :: l)) level = txt indent (PList (x :: l)) level.
Proof. reflexivity. Qed.

Lemma txt_dict kx d level :
  forallb (fun kv => serialisable (snd kv)) (kx :: d) = true ->
  txt indent (PDict (kx :: d)) level
  = "{" +:+ pairs_text indent level (map (fun kv => (fst kv, txt indent (snd kv) (S level))) (kx :: d))
                       (newline_indent indent (S level)).
Proof.
  intros S. unfold txt at 1. cbn [iterencode].
  assert (map (fun kv => match kv with
                         | (k, v) => (k, iterencode indent v (Datatypes.S level))
                         end) (kx :: d)
          = map (fun kt => (fst kt, emit (snd kt)))
                (map (fun kv => (fst kv, txt indent (snd kv) (Datatypes.S level))) (kx :: d))) as ->.
  { rewrite map_map. apply map_ext_Forall. apply forallb_Forall in S.
    apply (Forall_mono _ _ _ S). intros [k y] Hy. cbn [fst snd] in *.
    now rewrite (iterencode_emit y Hy). }
  now rewrite dict_loop_emit.
Qed.

Lemma str_of_Z_start z :
  exists c r, str_of_Z z = String c r /\ number_start c = true
              /\ (Ascii.eqb c "-" = true -> starts_digit r = true).
Proof.
  unfold str_of_Z. destruct z as [|p|p]; cbn [Z.to_int NilZero.string_of_int].
  - do 2 eexists. repeat split. discriminate.
  - rewrite string_of_uint_pos. destruct (pos_digits_head p) as (c & r & E & _).
    pose proof (all_digits_uint (Pos.to_uint p)) as A. rewrite E in A |- *.
    cbn [all_digits] in A. destruct (digit_of c) as [d|] eqn:Ed; [|discriminate].
    exists c, r. split; [reflexivity|]. split.
    + unfold number_start. now rewrite Ed.
    + rewrite (digit_not_minus c d Ed). discriminate.
  - rewrite string_of_uint_pos. destruct (pos_digits_head p) as (c & r & E & _).
    pose proof (all_digits_uint (Pos.to_uint p)) as A. rewrite E in A |- *.
    cbn [all_digits] in A. destruct (digit_of c) as [d|] eqn:Ed; [|discriminate].
    do 2 eexists. split; [reflexivity|]. split; [reflexivity|].
    intros _. cbn [starts_digit]. now rewrite Ed.
Qed.

(** What the encoder writes for a float: a constant, or the literal of
    [repr]. *)
Lemma floatstr_cases x :
  floatstr x = "NaN" /\ x = SpecFloat.S754_nan
  \/ floatstr x = "Infinity" /\ x = SpecFloat.S754_infinity false
  \/ floatstr x = "-Infinity" /\ x = SpecFloat.S754_infinity true
  \/ floatstr x = Float.render (Float.repr_literal x)
     /\ reads_back x
        = match literal_value (Float.repr_literal x) with
          | PFloat y => bool_decide (y = x)
          | _ => false
          end.
Proof. destruct x as [s|[]| |s m e]; auto 6. Qed.

Lemma render_start l :
  well_formed l = true ->
  exists c r, Float.render l = String c r /\ number_start c = true
              /\ (Ascii.eqb c "-" = true -> starts_digit r = true).
Proof.
  intros W. destruct l as [n int frac exp]. unfold well_formed in W.
  cbn [Float.lit_int Float.lit_frac Float.lit_exp] in W.
  apply andb_prop in W as [W _]. apply andb_prop in W as [W _].
  apply andb_prop in W as [A I].
  destruct int as [|c r]; [discriminate|].
  cbn [all_digits] in A. destruct (digit_of c) as [d|] eqn:Ed; [|discriminate].
  unfold Float.render. cbn [Float.lit_neg Float.lit_int Float.lit_frac Float.lit_exp].
  destruct n.
  - do 2 eexists. split; [reflexivity|]. split; [reflexivity|].
    intros _. cbn [String.append starts_digit]. now rewrite Ed.
  - do 2 eexists. split; [reflexivity|]. split.
    + unfold number_start. now rewrite Ed.
    + rewrite (digit_not_minus c d Ed). discriminate.
Qed.

Lemma floatstr_start x :
  exists c r, floatstr x = String c r /\ value_start c = true.
Proof.
  destruct (floatstr_cases x) as [[-> _]|[[-> _]|[[-> _]|[-> _]]]];
    try (do 2 eexists; split; reflexivity).
  destruct (render_start _ (repr_literal_well_formed x)) as (c & r & -> & N & _).
  exists c, r. split; [reflexivity|].
  unfold number_start in N. unfold value_start. destruct (digit_of c); [reflexivity|].
  apply N.eqb_eq in N. now rewrite N.
Qed.

Lemma number_start_value_start c : number_start c = true -> value_start c = true.
Proof. destruct c as [[] [] [] [] [] [] [] []]; vm_compute; congruence. Qed.

(** The text of a value starts with a character that opens a value. *)
Lemma txt_start v level :
  serialisable v = true ->
  exists c r, txt indent v level = String c r /\ value_start c = true.
Proof.
  intros S. destruct v as [|b|z|x|s|l|l|d|b].
  - do 2 eexists. split; reflexivity.
  - destruct b; do 2 eexists; split; reflexivity.
  - destruct (str_of_Z_start z) as (c & r & E & N & _).
    exists c, r. split; [exact E|]. now apply number_start_value_start.
  - apply floatstr_start.
  - do 2 eexists. split; reflexivity.
  - destruct l as [|x l]; [do 2 eexists; split; reflexivity|].
    rewrite (txt_list x l level S). do 2 eexists. split; reflexivity.
  - destruct l as [|x l]; [do 2 eexists; split; reflexivity|].
    rewrite (txt_tuple x l level S), (txt_list x l level S).
    do 2 eexists. split; reflexivity.
  - destruct d as [|kx d]; [do 2 eexists; split; reflexivity|].
    rewrite (txt_dict kx d level S). do 2 eexists. split; reflexivity.
  - discriminate.
Qed.

Lemma skip_ws_txt v level rest :
  serialisable v = true -> skip_ws (txt indent v level +:+ rest) = txt indent v level +:+ rest.
Proof.
  intros S. destruct (txt_start v level S) as (c & r & E & V). rewrite E.
  apply skip_ws_start. now apply value_start_not_ws.
Qed.

(** *** One case of [scan_once] at a time *)

Lemma scan_once_number f c r :
  number_start c = true -> (Ascii.eqb c "-" = true -> starts_digit r = true) ->
  scan_once (S f) (String c r) = scan_number (String c r).
Proof.
  intros H M. destruct c as [[] [] [] [] [] [] [] []]; cbv in H; try discriminate H;
    try reflexivity.
  specialize (M eq_refl). destruct r as [|d r]; [discriminate|].
  destruct d as [[] [] [] [] [] [] [] []]; cbv in M; try discriminate M; reflexivity.
Qed.

(** [scan_once] on what the encoder writes for a float that reads
    back. *)
Lemma scan_once_float f x rest :
  reads_back x = true -> ends_number rest = true ->
  scan_once (S f) (floatstr x +:+ rest) = Some (PFloat x, rest).
Proof.
  intros R E.
  destruct (floatstr_cases x) as [[-> ->]|[[-> ->]|[[-> ->]|[-> Rx]]]];
    try reflexivity.
  pose proof (repr_literal_well_formed x) as W.
  destruct (render_start _ W) as (c & r & Er & N & M).
  pose proof (scan_number_literal _ rest W E) as Sn. rewrite Er in Sn |- *.
  change (String c r +:+ rest) with (String c (r +:+ rest)) in Sn |- *.
  rewrite scan_once_number, Sn.
  - rewrite Rx in R. destruct (literal_value (Float.repr_literal x)); try discriminate.
    apply bool_decide_eq_true_1 in R. now subst.
  - exact N.
  - intros Hm. specialize (M Hm). destruct r as [|d r']; [discriminate|exact M].
Qed.

Lemma scan_once_string f s rest :
  scan_once (S f) (encode_basestring s +:+ rest) = Some (PStr s, rest).
Proof.
  rewrite encode_basestring_app. cbn [scan_once]. now rewrite scanstring_escape.
Qed.

Lemma scan_once_array f r s :
  skip_ws r = s -> (exists c r', s = String c r' /\ value_start c = true) ->
  scan_once (S f) (String "[" r)
  = match parse_items f s with
    | Some (vs, rest) => Some (PList vs, rest)
    | None => None
    end.
Proof.
  intros E (c & r' & -> & V). cbn [scan_once]. rewrite E.
  destruct c as [[] [] [] [] [] [] [] []]; try (vm_compute in V; congruence); reflexivity.
Qed.

Lemma txt_app_start v level rest :
  serialisable v = true ->
  exists c r', txt indent v level +:+ rest = String c r' /\ value_start c = true.
Proof.
  intros S. destruct (txt_start v level S) as (c & r & E & V).
  exists c, (r +:+ rest). rewrite E. split; [reflexivity|exact V].
Qed.

Lemma scan_once_object f r r' :
  skip_ws r = String "034" r' ->
  scan_once (S f) (String "{" r)
  = match parse_pairs f (String "034" r') with
    | Some (pairs, rest) => Some (PDict (dict_of_pairs pairs), rest)
    | None => None
    end.
Proof. intros E. cbn [scan_once]. rewrite E. reflexivity. Qed.

(** One round of [JSONObject]: a key, the colon, a value, and what
    follows. *)
Lemma parse_pairs_step f k X :
  parse_pairs (S f) (encode_basestring k +:+ ": " +:+ X)
  = match scan_once f (skip_ws X) with
    | Some (v, r3) =>
        match skip_ws r3 with
        | String "," r4 =>
            match parse_pairs f (skip_ws r4) with
            | Some (kvs, rest) => Some ((k, v) :: kvs, rest)
            | None => None
            end
        | String "}" rest => Some ([(k, v)], rest)
        | _ => None
        end
    | None => None
    end.
Proof.
  rewrite encode_basestring_app. cbn [parse_pairs]. rewrite scanstring_escape.
  reflexivity.
Qed.


Lemma ends_number_items level ts rest :
  ends_number (items_text indent level ts (item_sep indent level) +:+ rest) = true.
Proof. destruct ts; reflexivity. Qed.

Lemma ends_number_pairs level kts rest :
  ends_number (pairs_text indent level kts (item_sep indent level) +:+ rest) = true.
Proof. destruct kts as [|[k t] kts]; reflexivity. Qed.

Lemma parse_items_text level rest l : forall x fuel,
  serialisable x = true -> decodes indent x ->
  Forall (fun y => serialisable y = true /\ decodes indent y) l ->
  (S (need x) + list_sum (map (fun y => S (need y)) l) <= fuel)%nat ->
  parse_items fuel
    (txt indent x (S level)
     +:+ items_text indent level (map (fun v => txt indent v (S level)) l) (item_sep indent level) +:+ rest)
  = Some (json_image x :: map json_image l, rest).
Proof.
  induction l as [|y l IH]; intros x fuel Sx Dx Hl Hf;
    (destruct fuel as [|f]; [cbn in Hf; lia|]); cbn [parse_items].
  - rewrite Dx; [|cbn in Hf; lia|apply ends_number_items].
    cbn [map items_text]. rewrite append_assoc, skip_ws_newline_indent. reflexivity.
  - rewrite Dx; [|cbn in Hf; lia|apply ends_number_items].
    inversion Hl as [|? ? [Sy Dy] Hl']; subst.
    cbn [map items_text]. unfold item_sep. rewrite !append_assoc.
    change ("," +:+ ?a) with (String "," a).
    change (skip_ws (String "," ?a)) with (String "," a). cbv iota beta.
    rewrite skip_ws_newline_indent, skip_ws_txt by exact Sy.
    fold (item_sep indent level).
    rewrite (IH y f Sy Dy Hl'); [reflexivity|].
    simpl in Hf. lia.
Qed.

Lemma parse_pairs_text level rest d : forall k v fuel,
  serialisable v = true -> decodes indent v ->
  Forall (fun kv => serialisable (snd kv) = true /\ decodes indent (snd kv)) d ->
  (S (need v) + list_sum (map (fun kv => S (need (snd kv))) d) <= fuel)%nat ->
  parse_pairs fuel
    (encode_basestring k +:+ ": " +:+ txt indent v (S level)
     +:+ pairs_text indent level (map (fun kv => (fst kv, txt indent (snd kv) (S level))) d)
           (item_sep indent level) +:+ rest)
  = Some ((k, json_image v) :: map (fun kv => (fst kv, json_image (snd kv))) d, rest).
Proof.
  induction d as [|[k' v'] d IH]; intros k v fuel Sv Dv Hd Hf;
    (destruct fuel as [|f]; [cbn in Hf; lia|]);
    rewrite parse_pairs_step, skip_ws_txt by exact Sv.
  - rewrite Dv; [|cbn in Hf; lia|apply ends_number_pairs].
    cbn [map pairs_text]. rewrite append_assoc, skip_ws_newline_indent. reflexivity.
  - rewrite Dv; [|cbn in Hf; lia|apply ends_number_pairs].
    inversion Hd as [|? ? [Sy Dy] Hd']; subst. cbn [fst snd] in Sy, Dy.
    cbn [map pairs_text fst snd]. unfold item_sep. rewrite !append_assoc.
    change ("," +:+ ?a) with (String "," a).
    change (skip_ws (String "," ?a)) with (String "," a). cbv iota beta.
    rewrite skip_ws_newline_indent.
    rewrite (encode_basestring_app k').
    change (skip_ws (String "034" ?a)) with (String "034" a).
    rewrite <- (encode_basestring_app k').
    fold (item_sep indent level).
    rewrite (IH k' v' f Sy Dy Hd'); [reflexivity|].
    simpl in Hf. lia.
Qed.

(** *** Dicts from pairs *)

Lemma dict_set_fresh k v acc :
  k ∉ map fst acc -> dict_set k v acc = acc ++ [(k, v)].
Proof.
  induction acc as [|[k' v'] acc IH]; intros N; cbn [dict_set app]; [reflexivity|].
  cbn [map fst] in N. apply not_elem_of_cons in N as [N1 N2].
  destruct (String.eqb_spec k k') as [->|_]; [congruence|].
  now rewrite IH.
Qed.

Lemma dict_of_pairs_distinct pairs :
  NoDup (map fst pairs) -> dict_of_pairs pairs = pairs.
Proof.
  unfold dict_of_pairs.
  enough (forall acc, NoDup (map fst (acc ++ pairs)) ->
            fold_left (fun d kv => dict_set (fst kv) (snd kv) d) pairs acc = acc ++ pairs)
    as G by (intros N; exact (G [] N)).
  induction pairs as [|[k v] pairs IH]; intros acc N; cbn [fold_left fst snd].
  - now rewrite app_nil_r.
  - rewrite dict_set_fresh.
    + rewrite IH; rewrite <- app_assoc; [reflexivity|exact N].
    + rewrite map_app in N. apply NoDup_app in N as (_ & N & _).
      intros Hk. apply (N k Hk). cbn. left.
Qed.

Lemma distinct_keys_list l : distinct_keys (PList l) -> Forall distinct_keys l.
Proof. induction l as [|x l IH]; cbn; intros H; constructor; tauto. Qed.

Lemma distinct_keys_tuple l : distinct_keys (PTuple l) -> Forall distinct_keys l.
Proof. induction l as [|x l IH]; cbn; intros H; constructor; tauto. Qed.

Lemma distinct_keys_dict d :
  distinct_keys (PDict d) ->
  NoDup (map fst d) /\ Forall (fun kv => distinct_keys (snd kv)) d.
Proof.
  cbn. intros [N H]. split; [exact N|]. clear N.
  induction d as [|kv d IH]; constructor; tauto.
Qed.

Lemma Forall_and {A} (P Q : A -> Prop) l :
  Forall P l -> Forall Q l -> Forall (fun x => P x /\ Q x) l.
Proof. induction 1; intros H'; inversion H'; subst; constructor; auto. Qed.

Lemma Forall_modus {A} (P Q R : A -> Prop) l :
  Forall (fun x => P x -> Q x -> R x) l -> Forall P l -> Forall Q l -> Forall R l.
Proof.
  induction 1; intros HP HQ; inversion HP; inversion HQ; subst; constructor; auto.
Qed.

Lemma Forall_modus3 {A} (P Q R T : A -> Prop) l :
  Forall (fun x => P x -> Q x -> R x -> T x) l ->
  Forall P l -> Forall Q l -> Forall R l -> Forall T l.
Proof.
  induction 1; intros HP HQ HR; inversion HP; inversion HQ; inversion HR; subst;
    constructor; auto.
Qed.

(** Every value the encoder accepts is read back, tuples as lists, when
    its floats read back. *)
Lemma scan_once_txt v :
  serialisable v = true -> distinct_keys v -> floats_read_back v = true -> decodes indent v.
Proof.
  induction v as [|b|z|x|s|b|l IH|l IH|d IH] using pyval_nested_ind; intros Sv Kv Fv.
  - intros level [|f] rest Hf E; [cbn in Hf; lia|]. reflexivity.
  - intros level [|f] rest Hf E; [cbn in Hf; lia|]. destruct b; reflexivity.
  - intros level [|f] rest Hf E; [cbn in Hf; lia|].
    change (txt indent (PInt z) level) with (str_of_Z z).
    destruct (str_of_Z_start z) as (c & r & Ez & N & M).
    pose proof (scan_number_str_of_Z z rest E) as Sn. rewrite Ez in Sn |- *.
    change (String c r +:+ rest) with (String c (r +:+ rest)) in Sn |- *.
    rewrite (scan_once_number f c _ N), Sn; [reflexivity|].
    intros Hm. specialize (M Hm). destruct r as [|d r']; [discriminate|exact M].
  - intros level [|f] rest Hf E; [cbn in Hf; lia|].
    change (txt indent (PFloat x) level) with (floatstr x).
    now apply scan_once_float.
  - intros level [|f] rest Hf E; [cbn in Hf; lia|].
    change (txt indent (PStr s) level) with (encode_basestring s).
    apply scan_once_string.
  - discriminate.
  - intros level [|f] rest Hf E; [cbn in Hf; lia|].
    destruct l as [|x l]; [reflexivity|].
    rewrite (txt_list x l level Sv).
    cbn [serialisable] in Sv. apply serialisable_list in Sv.
    apply distinct_keys_list in Kv.
    cbn [floats_read_back] in Fv. apply forallb_Forall in Fv.
    pose proof (Forall_modus3 _ _ _ _ _ IH Sv Kv Fv) as D.
    inversion Sv as [|? ? Sx Sl]; inversion D as [|? ? Dx Dl]; subst.
    cbn [map items_text]. rewrite !append_assoc.
    change ("[" +:+ ?a) with (String "[" a).
    erewrite scan_once_array.
    2:{ rewrite skip_ws_newline_indent, skip_ws_txt by exact Sx. reflexivity. }
    2:{ apply txt_app_start. exact Sx. }
    fold (item_sep indent level).
    rewrite (parse_items_text level rest l x f Sx Dx (Forall_and _ _ _ Sl Dl)).
    + reflexivity.
    + simpl in Hf. lia.
  - intros level [|f] rest Hf E; [cbn in Hf; lia|].
    destruct l as [|x l]; [reflexivity|].
    rewrite (txt_tuple x l level Sv), (txt_list x l level Sv).
    cbn [serialisable] in Sv. apply serialisable_list in Sv.
    apply distinct_keys_tuple in Kv.
    cbn [floats_read_back] in Fv. apply forallb_Forall in Fv.
    pose proof (Forall_modus3 _ _ _ _ _ IH Sv Kv Fv) as D.
    inversion Sv as [|? ? Sx Sl]; inversion D as [|? ? Dx Dl]; subst.
    cbn [map items_text]. rewrite !append_assoc.
    change ("[" +:+ ?a) with (String "[" a).
    erewrite scan_once_array.
    2:{ rewrite skip_ws_newline_indent, skip_ws_txt by exact Sx. reflexivity. }
    2:{ apply txt_app_start. exact Sx. }
    fold (item_sep indent level).
    rewrite (parse_items_text level rest l x f Sx Dx (Forall_and _ _ _ Sl Dl)).
    + reflexivity.
    + simpl in Hf. lia.
  - intros level [|f] rest Hf E; [cbn in Hf; lia|].
    destruct d as [|[k x] d]; [reflexivity|].
    rewrite (txt_dict (k, x) d level Sv).
    cbn [serialisable] in Sv. apply forallb_Forall in Sv.
    apply distinct_keys_dict in Kv as [N Kv].
    cbn [floats_read_back] in Fv. apply forallb_Forall in Fv.
    pose proof (Forall_modus3 _ _ _ _ _ IH Sv Kv Fv) as D.
    inversion Sv as [|? ? Sx Sl]; inversion D as [|? ? Dx Dl]; subst.
    cbn [fst snd] in Sx, Dx.
    cbn [map pairs_text fst snd]. rewrite !append_assoc.
    change ("{" +:+ ?a) with (String "{" a).
    erewrite scan_once_object.
    2:{ rewrite skip_ws_newline_indent, encode_basestring_app.
        change (skip_ws (String "034" ?a)) with (String "034" a). reflexivity. }
    rewrite <- encode_basestring_app. fold (item_sep indent level).
    rewrite (parse_pairs_text level rest d k x f Sx Dx (Forall_and _ _ _ Sl Dl)).
    + rewrite dict_of_pairs_distinct; [reflexivity|].
      cbn [map fst]. rewrite map_map. cbn [fst]. exact N.
    + simpl in Hf. lia.
Qed.


Lemma list_sum_cons x l : list_sum (x :: l) = (x + list_sum l)%nat.
Proof. reflexivity. Qed.

Lemma items_text_length level l : forall buf,
  Forall (fun y => need y <= String.length (txt indent y (S level)))%nat l ->
  (1 <= String.length buf)%nat ->
  (S (list_sum (map (fun y => S (need y)) l))
   <= String.length (items_text indent level (map (fun v => txt indent v (S level)) l) buf))%nat.
Proof.
  induction l as [|y l IH]; intros buf F Hb; cbn [map items_text].
  - rewrite length_append. cbn. lia.
  - inversion F as [|? ? Hy F']; subst.
    assert (1 <= String.length (item_sep indent level))%nat as Hs.
    { unfold item_sep. rewrite length_append. cbn. lia. }
    specialize (IH (item_sep indent level) F' Hs).
    change ("," +:+ newline_indent indent (S level)) with (item_sep indent level).
    rewrite !length_append, list_sum_cons. cbn [String.length]. lia.
Qed.

Lemma pairs_text_length level d : forall sep,
  Forall (fun kv => need (snd kv) <= String.length (txt indent (snd kv) (S level)))%nat d ->
  (S (list_sum (map (fun kv => S (need (snd kv))) d))
   <= String.length
        (pairs_text indent level (map (fun kv => (fst kv, txt indent (snd kv) (S level))) d) sep))%nat.
Proof.
  induction d as [|[k y] d IH]; intros sep F; cbn [map pairs_text fst snd].
  - rewrite length_append. cbn. lia.
  - inversion F as [|? ? Hy F']; subst. cbn [snd] in Hy.
    specialize (IH (item_sep indent level) F').
    change ("," +:+ newline_indent indent (S level)) with (item_sep indent level).
    rewrite !length_append, list_sum_cons. cbn [String.length]. lia.
Qed.

(** The fuel a value needs is at most the length of its text. *)
Lemma need_le_length v :
  serialisable v = true -> forall level, (need v <= String.length (txt indent v level))%nat.
Proof.
  induction v as [|b|z|x|s|b|l IH|l IH|d IH] using pyval_nested_ind; intros Sv level.
  - cbn. lia.
  - destruct b; cbn; lia.
  - change (txt indent (PInt z) level) with (str_of_Z z).
    destruct (str_of_Z_start z) as (c & r & -> & _). cbn. lia.
  - change (txt indent (PFloat x) level) with (floatstr x).
    destruct (floatstr_start x) as (c & r & -> & _). cbn. lia.
  - cbn. lia.
  - discriminate.
  - destruct l as [|x l]; [cbn; lia|].
    rewrite (txt_list x l level Sv).
    cbn [serialisable] in Sv. apply serialisable_list in Sv.
    apply items_text_length; [|cbn; lia].
    apply (Forall_modus _ _ (fun y => need y <= String.length (txt indent y (S level)))%nat
             _ (Forall_mono _ _ _ IH (fun y H S _ => H S (Datatypes.S level))) Sv Sv).
  - destruct l as [|x l]; [cbn; lia|].
    rewrite (txt_tuple x l level Sv), (txt_list x l level Sv).
    cbn [serialisable] in Sv. apply serialisable_list in Sv.
    apply items_text_length; [|cbn; lia].
    apply (Forall_modus _ _ (fun y => need y <= String.length (txt indent y (S level)))%nat
             _ (Forall_mono _ _ _ IH (fun y H S _ => H S (Datatypes.S level))) Sv Sv).
  - destruct d as [|kx d]; [cbn; lia|].
    rewrite (txt_dict kx d level Sv).
    cbn [serialisable] in Sv. apply forallb_Forall in Sv.
    pose proof (pairs_text_length level (kx :: d) (newline_indent indent (S level))
                  (Forall_modus _ _
                     (fun kv => need (snd kv) <= String.length (txt indent (snd kv) (S level)))%nat
                     _ (Forall_mono _ _ _ IH (fun y H S _ => H S (Datatypes.S level)))
                     Sv Sv)) as L.
    rewrite length_append.
    change (need (PDict (kx :: d)))
      with (S (list_sum (map (fun kv => S (need (snd kv))) (kx :: d)))).
    change (String.length "{") with 1%nat. lia.
Qed.

Lemma then_ok a b : snd (a >> b) = None -> snd a = None /\ snd b = None.
Proof.
  unfold then_. destruct (snd a) as [e|] eqn:E; [now rewrite E|]. cbn. auto.
Qed.

Lemma list_loop_ok level items : forall buf,
  snd (list_loop indent level items buf) = None -> Forall (fun o => snd o = None) items.
Proof.
  induction items as [|x r IH]; intros buf H; constructor; cbn [list_loop] in H;
    apply then_ok in H as [_ H]; apply then_ok in H as [Hx H]; eauto.
Qed.

Lemma dict_loop_ok level items : forall sep,
  snd (dict_loop indent level items sep) = None -> Forall (fun ko => snd (snd ko) = None) items.
Proof.
  induction items as [|[k x] r IH]; intros sep H; constructor; cbn [dict_loop] in H;
    apply then_ok in H as [_ H]; apply then_ok in H as [_ H];
    apply then_ok in H as [_ H]; apply then_ok in H as [Hx H]; eauto.
Qed.

(** A value the encoder gets through holds no [bytes]. *)
Lemma encoded_serialisable v :
  forall level, snd (iterencode indent v level) = None -> serialisable v = true.
Proof.
  induction v as [|b|z|x|s|b|l IH|l IH|d IH] using pyval_nested_ind; intros level H;
    try reflexivity; try discriminate.
  - destruct l as [|x l]; [reflexivity|]. cbn [iterencode] in H.
    apply list_loop_ok in H. cbn [serialisable].
    revert H. generalize (x :: l) IH. clear. intros l IH H.
    induction IH as [|y l Hy _ IHl]; [reflexivity|].
    cbn [map] in H. inversion H; subst. cbn [forallb].
    rewrite (Hy (S level)) by assumption. now apply IHl.
  - destruct l as [|x l]; [reflexivity|]. cbn [iterencode] in H.
    apply list_loop_ok in H. cbn [serialisable].
    revert H. generalize (x :: l) IH. clear. intros l IH H.
    induction IH as [|y l Hy _ IHl]; [reflexivity|].
    cbn [map] in H. inversion H; subst. cbn [forallb].
    rewrite (Hy (S level)) by assumption. now apply IHl.
  - destruct d as [|kx d]; [reflexivity|]. cbn [iterencode] in H.
    apply then_ok in H as [_ H]. apply dict_loop_ok in H. cbn [serialisable].
    revert H. generalize (kx :: d) IH. clear. intros d IH H.
    induction IH as [|[k y] d Hy _ IHd]; [reflexivity|].
    cbn [map] in H. inversion H; subst. cbn [forallb snd] in *.
    rewrite (Hy (S level)) by assumption. now apply IHd.
Qed.

(** [json.loads] of what the encoder wrote. *)
Lemma loads_txt v :
  serialisable v = true -> distinct_keys v -> floats_read_back v = true ->
  loads (txt indent v 0) = Some (json_image v).
Proof.
  intros Sv Kv Fv. unfold loads.
  destruct (txt_start v 0 Sv) as (c & r & E & V).
  assert (skip_ws (txt indent v 0) = txt indent v 0) as ->.
  { rewrite E. apply skip_ws_start. now apply value_start_not_ws. }
  rewrite <- (append_nil_r (txt indent v 0)) at 2.
  rewrite (scan_once_txt v Sv Kv Fv 0%nat (S (String.length (txt indent v 0))) "");
    [reflexivity| |reflexivity].
  pose proof (need_le_length v Sv 0%nat). lia.
Qed.

(** *** Line ends

    The encoder writes no carriage return, so reading its text with
    universal newlines gives the text itself. *)

Lemma universal_newlines_id s : str_contains "013" s = false -> universal_newlines s = s.
Proof.
  induction s as [|c s IH]; [reflexivity|]. cbn [str_contains universal_newlines].
  intros H. apply orb_false_elim in H as [H1 H2]. rewrite H1. f_equal. auto.
Qed.

Lemma str_contains_app c a b :
  str_contains c (a +:+ b) = str_contains c a || str_contains c b.
Proof.
  induction a as [|x a IH]; [reflexivity|]. cbn [String.append str_contains].
  now rewrite IH, orb_assoc.
Qed.

Lemma no_cr_repeat s n :
  str_contains "013" s = false -> str_contains "013" (str_repeat s n) = false.
Proof.
  intros H. induction n as [|n IH]; [reflexivity|]. cbn [str_repeat].
  now rewrite str_contains_app, H, IH.
Qed.

Lemma no_cr_newline_indent level : str_contains "013" (newline_indent indent level) = false.
Proof.
  unfold newline_indent. rewrite str_contains_app. cbn [orb].
  change (str_contains "013" nl) with false. cbn [orb].
  apply no_cr_repeat, no_cr_repeat. reflexivity.
Qed.

Lemma no_cr_escape s : str_contains "013" (escape s) = false.
Proof.
  induction s as [|c s IH]; [reflexivity|]. cbn [escape].
  rewrite str_contains_app, IH, orb_false_r.
  destruct c as [[] [] [] [] [] [] [] []]; reflexivity.
Qed.

Lemma no_cr_basestring s : str_contains "013" (encode_basestring s) = false.
Proof.
  unfold encode_basestring. cbn [str_contains]. change (Ascii.eqb dq "013") with false.
  now rewrite str_contains_app, no_cr_escape.
Qed.

Lemma no_cr_digits s : all_digits s = true -> str_contains "013" s = false.
Proof.
  induction s as [|c s IH]; [reflexivity|]. cbn [all_digits str_contains].
  destruct (digit_of c) as [d|] eqn:E; [|discriminate]. intros A. rewrite (IH A), orb_false_r.
  destruct c as [[] [] [] [] [] [] [] []]; cbv in E; try discriminate E; reflexivity.
Qed.

Lemma no_cr_str_of_Z z : str_contains "013" (str_of_Z z) = false.
Proof.
  unfold str_of_Z. destruct z as [|p|p]; cbn [Z.to_int NilZero.string_of_int];
    [reflexivity|..]; rewrite string_of_uint_pos; [|cbn [String.append str_contains orb]];
    apply no_cr_digits, all_digits_uint.
Qed.

Lemma no_cr_render l : well_formed l = true -> str_contains "013" (Float.render l) = false.
Proof.
  intros W. destruct l as [n int frac exp]. unfold well_formed in W.
  cbn [Float.lit_int Float.lit_frac Float.lit_exp] in W.
  apply andb_prop in W as [W We]. apply andb_prop in W as [W Af].
  apply andb_prop in W as [Ai _].
  unfold Float.render. cbn [Float.lit_neg Float.lit_int Float.lit_frac Float.lit_exp].
  rewrite !str_contains_app, (no_cr_digits int Ai).
  assert (str_contains "013" (Float.frac_part frac) = false) as ->.
  { destruct frac as [|c r]; [reflexivity|]. unfold Float.frac_part.
    rewrite str_contains_app. now rewrite (no_cr_digits _ Af). }
  assert (str_contains "013" (Float.exp_part exp) = false) as ->.
  { destruct exp as [[s e]|]; [|reflexivity]. apply andb_prop in We as [Ae _].
    unfold Float.exp_part. rewrite !str_contains_app, (no_cr_digits _ Ae).
    now destruct s. }
  now destruct n.
Qed.

Lemma no_cr_floatstr x : str_contains "013" (floatstr x) = false.
Proof.
  destruct (floatstr_cases x) as [[-> _]|[[-> _]|[[-> _]|[-> _]]]]; try reflexivity.
  apply no_cr_render, repr_literal_well_formed.
Qed.

Lemma no_cr_items level ts : forall buf,
  Forall (fun t => str_contains "013" t = false) ts -> str_contains "013" buf = false ->
  str_contains "013" (items_text indent level ts buf) = false.
Proof.
  induction ts as [|t ts IH]; intros buf F B; cbn [items_text].
  - now rewrite str_contains_app, no_cr_newline_indent.
  - inversion F as [|? ? Ht F']; subst.
    rewrite !str_contains_app, B, Ht. cbn [orb]. apply IH; [exact F'|].
    rewrite str_contains_app. now rewrite no_cr_newline_indent.
Qed.

Lemma no_cr_pairs level kts : forall sep,
  Forall (fun kt => str_contains "013" (snd kt) = false) kts ->
  str_contains "013" sep = false ->
  str_contains "013" (pairs_text indent level kts sep) = false.
Proof.
  induction kts as [|[k t] kts IH]; intros sep F B; cbn [pairs_text].
  - now rewrite str_contains_app, no_cr_newline_indent.
  - inversion F as [|? ? Ht F']; subst. cbn [snd] in Ht.
    rewrite !str_contains_app, B, Ht, no_cr_basestring. cbn [orb]. apply IH; [exact F'|].
    rewrite str_contains_app. now rewrite no_cr_newline_indent.
Qed.

(** The text of a value has no carriage return. *)
Lemma txt_no_cr v :
  serialisable v = true -> forall level, str_contains "013" (txt indent v level) = false.
Proof.
  induction v as [|b|z|x|s|b|l IH|l IH|d IH] using pyval_nested_ind; intros Sv level.
  - reflexivity.
  - destruct b; reflexivity.
  - apply no_cr_str_of_Z.
  - apply no_cr_floatstr.
  - apply no_cr_basestring.
  - discriminate.
  - destruct l as [|x l]; [reflexivity|].
    rewrite (txt_list x l level Sv).
    cbn [serialisable] in Sv. apply serialisable_list in Sv.
    apply no_cr_items.
    + apply Forall_map_intro with (P := fun y => serialisable y = true
                                        /\ (serialisable y = true -> forall level,
                                              str_contains "013" (txt indent y level) = false)).
      * now apply Forall_and.
      * intros y [Sy Hy]. now apply Hy.
    + rewrite str_contains_app. now rewrite no_cr_newline_indent.
  - destruct l as [|x l]; [reflexivity|].
    rewrite (txt_tuple x l level Sv), (txt_list x l level Sv).
    cbn [serialisable] in Sv. apply serialisable_list in Sv.
    apply no_cr_items.
    + apply Forall_map_intro with (P := fun y => serialisable y = true
                                        /\ (serialisable y = true -> forall level,
                                              str_contains "013" (txt indent y level) = false)).
      * now apply Forall_and.
      * intros y [Sy Hy]. now apply Hy.
    + rewrite str_contains_app. now rewrite no_cr_newline_indent.
  - destruct d as [|kx d]; [reflexivity|].
    rewrite (txt_dict kx d level Sv).
    cbn [serialisable] in Sv. apply forallb_Forall in Sv.
    rewrite str_contains_app. cbn [str_contains orb Ascii.eqb Bool.eqb].
    apply no_cr_pairs.
    + apply Forall_map_intro with (P := fun kv => serialisable (snd kv) = true
                                        /\ (serialisable (snd kv) = true -> forall level,
                                              str_contains "013" (txt indent (snd kv) level)
                                              = false)).
      * now apply Forall_and.
      * intros [k y] [Sy Hy]. cbn [snd] in *. now apply Hy.
    + apply no_cr_newline_indent.
Qed.

(** *** Equality *)






Variable self : FileHandler.t.

(** What a successful [write_json] leaves: the encoder did not fail, and
    the file holds the text it wrote. *)
Lemma write_json_written p data w w1 :
  write_json self p data indent w = (Val true, w1) ->
  snd (iterencode indent data 0) = None
  /\ cwd w1 = cwd w
  /\ exists r, fs w1 !! os_key w (_resolve_path self p)
               = Some (File r true (Utf8 (txt indent data 0))).
Proof.
  unfold write_json, try_except.
  set (full := _resolve_path self p).
  destruct (mkdir_open full w) as [E N]. unfold bind in E, N |- *.
  destruct (opened_for_write w full) as [f2|] eqn:O.
  - destruct (path_mkdir_parents (path_parent full) w) as [[[]|e] w0]; [|discriminate].
    rewrite E. unfold json_dump, bind, file_write. cbn [fs set_fs]. unfold os_key.
    cbn [cwd set_fs]. fold (os_key w full).
    unfold opened_for_write in O.
    destruct (Fs.mkdir_parents _ _ _) as [c|f1]; [discriminate|].
    destruct (Fs.open_write (os_key w full) f1) as [c|f2'] eqn:E2; [discriminate|].
    injection O as ->. destruct (open_write_lookup _ _ _ E2) as (r & L). rewrite L.
    unfold txt.
    destruct (iterencode indent data 0) as [text [e|]] eqn:Ej; cbn [fst snd].
    + unfold reraise, except. destruct (isinstance e Exception); [|discriminate].
      unfold bind, print, ret. discriminate.
    + unfold ret, print. intros [= <-]. cbn [fs cwd add_console set_fs].
      split; [reflexivity|]. split; [reflexivity|].
      exists r. now rewrite lookup_insert_eq.
  - destruct (N eq_refl) as (c & q & w' & N').
    destruct (path_mkdir_parents (path_parent full) w) as [[[]|e] w0].
    + rewrite N'. unfold except. rewrite os_error_is_Exception.
      unfold bind, print, ret. discriminate.
    + injection N' as -> ->. unfold except. rewrite os_error_is_Exception.
      unfold bind, print, ret. discriminate.
Qed.


End Decoder.

Section RoundTripClaim.
Import Json FileHandler.
Variable self : FileHandler.t.


End RoundTripClaim.



(** A NaN is written and read back as a NaN, which is not equal to
    itself: the dict that comes back is not equal to the one written. *)
Lemma write_json_read_json_nan :
  let d := Json.PDict [("x", Json.PFloat SpecFloat.S754_nan)] in
  let w := Demo.world (Demo.site true true []) ∅ 0%Q [] in
  let fh := MainApplication.file_handler Demo.app in
  let p := Path false ["results"; "out.json"] in
  fst (FileHandler.write_json fh p d 2 w) = Val true
  /\ fst (FileHandler.read_json fh p (snd (FileHandler.write_json fh p d 2 w))) = Val d
  /\ Json.py_eq d d = false.
Proof. vm_compute. auto. Qed.
(** * More of the code

    ** youtube_automation.py: all of [search] and [get_video_titles] *)

Lemma console_add_calls cs w : console (add_calls cs w) = console w.
Proof. revert w. induction cs as [|c cs IH]; intros w; simpl; [reflexivity|]. now rewrite IH. Qed.

Lemma frames_except {X A} (proj : World -> X) c (handler : exn -> M A) :
  (forall e, frames proj (handler e)) ->
  forall e h, except c handler e = Some h -> frames proj h.
Proof.
  intros Hh e h. unfold except. destruct (isinstance e c); [|discriminate].
  intros [= <-]. apply Hh.
Qed.


Ltac frames_driver :=
  let w := fresh "w" in let r := fresh "r" in let w' := fresh "w'" in
  intros w r w';
  unfold print, driver_get, wait_until_presence, wait_until_presence_all, element_clear,
    element_send_keys, element_get_attribute, answer, answer_unit;
  repeat match goal with
         | |- context [match ?x with _ => _ end] => destruct x
         end;
  intros [= <- <-]; reflexivity.


Section Search.
Import YouTubeAutomation.
Variable self : YouTubeAutomation.t.

(** [search], by the first call that fails, if one does. *)
Lemma search_cases term w :
  (exists box,
     search self term w
     = (Val true,
        add_console ("[SUCCESS] Search completed for: " +:+ term)
          (add_calls (search_calls self box term)
             (add_console ("[INFO] Searching for: " +:+ term) w)))
     /\ on_wait (web w) (calls w) (driver self) (wait self) (NAME, "search_query") = inr box)
  \/ (exists e box n,
        (1 <= n <= 5)%nat
        /\ search self term w
           = (if isinstance e Exception
              then (Val false, add_console ("[ERROR] Search failed: " +:+ exn_str e)
                                 (add_calls (take n (search_calls self box term))
                                    (add_console ("[INFO] Searching for: " +:+ term) w)))
              else (Exc e, add_calls (take n (search_calls self box term))
                             (add_console ("[INFO] Searching for: " +:+ term) w)))).
Proof.
  unfold search, try_except, bind, print, wait_until_presence, element_clear,
    element_send_keys, answer, answer_unit, except, search_calls.
  cbn [web calls add_console add_call].
  destruct (on_wait (web w) (calls w) (driver self) (wait self) (NAME, "search_query"))
    as [e|box] eqn:E1.
  { right. exists e, 0%nat, 1%nat. split; [lia|]. destruct (isinstance e Exception); reflexivity. }
  destruct (on_clear _ _ _ _) as [e|] eqn:E2.
  { right. exists e, box, 2%nat. split; [lia|]. destruct (isinstance e Exception); reflexivity. }
  destruct (on_send_keys _ _ _ _ (Text term)) as [e|] eqn:E3.
  { right. exists e, box, 3%nat. split; [lia|]. destruct (isinstance e Exception); reflexivity. }
  destruct (on_send_keys _ _ _ _ RETURN) as [e|] eqn:E4.
  { right. exists e, box, 4%nat. split; [lia|]. destruct (isinstance e Exception); reflexivity. }
  destruct (on_wait _ _ _ _ (ID, "contents")) as [e|el] eqn:E5.
  { right. exists e, box, 5%nat. split; [lia|]. destruct (isinstance e Exception); reflexivity. }
  left. exists box. split; reflexivity.
Qed.
End Search.

Section SearchAndTitles.
Import YouTubeAutomation.
Variable self : YouTubeAutomation.t.

(** X1: a search that returns [True] has made five calls and no other:
    the wait for the search box, [clear] on it, the term and then RETURN
    sent to it, and the wait for the results; it has printed the two
    lines that frame them. *)
Theorem search_true_types_term term w w' :
  search self term w = (Val true, w') ->
  exists box,
    on_wait (web w) (calls w) (driver self) (wait self) (NAME, "search_query") = inr box
    /\ calls w' = calls w ++ search_calls self box term
    /\ console w' = console w ++ ["[INFO] Searching for: " +:+ term;
                                  "[SUCCESS] Search completed for: " +:+ term].
Proof.
  intros H. destruct (search_cases self term w) as [(box & E & B)|(e & box & n & _ & E)].
  - rewrite E in H. injection H as <-. exists box. split; [exact B|]. split.
    + unfold search_calls. cbn. now rewrite <- !app_assoc.
    + unfold search_calls. cbn. now rewrite <- app_assoc.
  - rewrite E in H. destruct (isinstance e Exception); discriminate.
Qed.

(** X2: a search that returns [False] stopped at the first call that
    raised: the calls made are the first [n] of the five, the one that
    raised being the last, and the line printed after the first one
    reports that exception, an [Exception]. *)
Theorem search_false_stops term w w' :
  search self term w = (Val false, w') ->
  exists e box n,
    (1 <= n <= 5)%nat /\ isinstance e Exception = true
    /\ calls w' = calls w ++ take n (search_calls self box term)
    /\ console w' = console w ++ ["[INFO] Searching for: " +:+ term;
                                  "[ERROR] Search failed: " +:+ exn_str e].
Proof.
  intros H. destruct (search_cases self term w) as [(box & E & B)|(e & box & n & N & E)].
  - rewrite E in H. discriminate.
  - rewrite E in H. destruct (isinstance e Exception) eqn:I; [|discriminate].
    injection H as <-. exists e, box, n. split; [exact N|]. split; [exact I|]. split.
    + cbn [calls add_console]. now rewrite calls_add_calls.
    + cbn [console add_console]. rewrite console_add_calls. cbn. now rewrite <- app_assoc.
Qed.

(** X3: what [search] raises is never an [Exception]: those it turns
    into [False]; a [KeyboardInterrupt] of the driver passes through. *)
Theorem search_raises_no_exception term w e w' :
  search self term w = (Exc e, w') -> isinstance e Exception = false.
Proof.
  intros H. destruct (search_cases self term w) as [(box & E & B)|(e0 & box & n & N & E)].
  - rewrite E in H. discriminate.
  - rewrite E in H. destruct (isinstance e0 Exception) eqn:I; [discriminate|].
    now injection H as <- _.
Qed.

Lemma collect_titles_any els : forall titles w r w',
  collect_titles self els titles w = (r, w') ->
  exists k, (k <= length els)%nat
    /\ calls w' = calls w ++ map (title_call (driver self)) (take k els)
    /\ match r with
       | Val ts => k = length els
                   /\ exists new, ts = titles ++ new /\ (length new <= length els)%nat
                                  /\ Forall (fun t => t <> "") new
       | Exc _ => True
       end.
Proof.
  induction els as [|el els IH]; intros titles w r w' H.
  - injection H as <- <-. exists 0%nat. split; [lia|]. split; [now rewrite app_nil_r|].
    split; [reflexivity|]. exists []. rewrite app_nil_r. repeat split; auto.
  - cbn [collect_titles] in H. unfold bind, element_get_attribute, answer in H.
    destruct (on_get_attribute _ _ _ _ _) as [e|a].
    + injection H as <- <-. exists 1%nat. cbn. split; [lia|]. split; [|exact I].
      now rewrite take_0.
    + destruct (truthy a) eqn:T.
      * destruct (IH _ _ _ _ H) as (k & K & C & R).
        exists (S k). cbn [length take map]. split; [lia|]. split.
        { rewrite C. cbn [calls add_call]. now rewrite <- app_assoc. }
        destruct r as [ts|e]; [|exact I].
        destruct R as (-> & new & -> & L & F). split; [reflexivity|].
        exists (default "" a :: new). rewrite <- app_assoc. split; [reflexivity|].
        split; [cbn; lia|]. constructor; [|exact F].
        destruct a as [[|c s]|]; cbn in T |- *; discriminate.
      * destruct (IH _ _ _ _ H) as (k & K & C & R).
        exists (S k). cbn [length take map]. split; [lia|]. split.
        { rewrite C. cbn [calls add_call]. now rewrite <- app_assoc. }
        destruct r as [ts|e]; [|exact I].
        destruct R as (-> & new & -> & L & F). split; [reflexivity|].
        exists new. split; [reflexivity|]. split; [lia|exact F].
Qed.

Lemma slice_to_length {A} (l : list A) (n : Z) :
  0 <= n -> (length (slice_to l n) <= Z.to_nat n)%nat.
Proof.
  intros H. unfold slice_to. destruct (Z.leb_spec 0 n); [|lia].
  rewrite length_take. lia.
Qed.


(** What [get_video_titles] does, whatever the driver answers. *)
Lemma get_video_titles_any max_results w r w' :
  get_video_titles self max_results w = (r, w') ->
  exists els k,
    (k <= length (slice_to els max_results))%nat
    /\ calls w' = calls w ++ CWaitAll (driver self) (wait self) titles_locator
                          :: map (title_call (driver self)) (take k (slice_to els max_results))
    /\ match r with
       | Val ts => (length ts <= length (slice_to els max_results))%nat
                   /\ Forall (fun t => t <> "") ts
       | Exc e => isinstance e Exception = false
       end.
Proof.
  unfold get_video_titles, try_except. unfold bind at 1.
  destruct (wait_until_presence_all _ _ _ w) as [[els|e] w1] eqn:Ew.
  - assert (calls w1 = calls w ++ [CWaitAll (driver self) (wait self) titles_locator]) as C1.
    { unfold wait_until_presence_all in Ew.
      destruct (on_wait_all _ _ _ _ _) as [e|[|el els']]; simplify_eq; reflexivity. }
    unfold bind at 1.
    destruct (collect_titles self (slice_to els max_results) [] w1) as [[ts|e] w2] eqn:Ec.
    + destruct (collect_titles_any _ _ _ _ _ Ec) as (k & K & C & -> & new & E & L & F).
      cbn [app] in E. subst new.
      unfold bind, print, ret. intros [= <- <-]. exists els, (length (slice_to els max_results)).
      split; [lia|]. split.
      * cbn [calls add_console]. rewrite C, C1, <- app_assoc. reflexivity.
      * split; [exact L|exact F].
    + destruct (collect_titles_any _ _ _ _ _ Ec) as (k & K & C & _).
      unfold except. destruct (isinstance e Exception) eqn:I.
      * unfold bind, print, ret. intros [= <- <-]. exists els, k. split; [exact K|]. split.
        { cbn [calls add_console]. rewrite C, C1, <- app_assoc. reflexivity. }
        split; [cbn; lia|constructor].
      * intros [= <- <-]. exists els, k. split; [exact K|]. split; [|exact I].
        rewrite C, C1, <- app_assoc. reflexivity.
  - assert (calls w1 = calls w ++ [CWaitAll (driver self) (wait self) titles_locator]) as C1.
    { unfold wait_until_presence_all in Ew.
      destruct (on_wait_all _ _ _ _ _) as [e'|[|el els']]; simplify_eq; reflexivity. }
    unfold except. destruct (isinstance e Exception) eqn:I.
    + unfold bind, print, ret. intros [= <- <-]. exists [], 0%nat.
      split; [lia|]. split; [cbn [calls add_console]; rewrite C1; now rewrite take_0|].
      split; [cbn; lia|constructor].
    + intros [= <- <-]. exists [], 0%nat. split; [lia|].
      split; [rewrite C1; now rewrite take_0|exact I].
Qed.

(** X4: no title [get_video_titles] returns is the empty string; for a
    bound [max_results] that is not negative it returns at most
    [max_results] titles and, after the wait, reads the [title] of at
    most [max_results] elements and calls nothing else. *)
Theorem get_video_titles_bounded max_results w ts w' :
  get_video_titles self max_results w = (Val ts, w') ->
  Forall (fun t => t <> "") ts
  /\ (0 <= max_results ->
      (length ts <= Z.to_nat max_results)%nat
      /\ exists els,
           (length els <= Z.to_nat max_results)%nat
           /\ calls w' = calls w ++ CWaitAll (driver self) (wait self) titles_locator
                                 :: map (title_call (driver self)) els).
Proof.
  intros H. destruct (get_video_titles_any _ _ _ _ H) as (els & k & K & C & L & F).
  split; [exact F|]. intros Hm.
  pose proof (slice_to_length els max_results Hm) as S.
  split; [lia|]. exists (take k (slice_to els max_results)). split; [|exact C].
  rewrite length_take. lia.
Qed.

End SearchAndTitles.

Section TitlesAndNews.
Import YouTubeAutomation.
Variable self : YouTubeAutomation.t.

Lemma collect_titles_read_fails pre : forall attrs titles w el post e,
  title_answers (web w) (driver self) (calls w) pre = map inr attrs ->
  on_get_attribute (web w) (calls w ++ map (title_call (driver self)) pre)
                   (driver self) el "title" = inl e ->
  collect_titles self (pre ++ el :: post) titles w
  = (Exc e, add_calls (map (title_call (driver self)) (pre ++ [el])) w).
Proof.
  induction pre as [|x pre IH]; intros attrs titles w el post e Ha He.
  - cbn in He |- *. rewrite app_nil_r in He.
    unfold bind, element_get_attribute. now rewrite He.
  - destruct attrs as [|a attrs]; [discriminate|].
    cbn [title_answers map] in Ha. injection Ha as Ha Hr.
    cbn [app collect_titles].
    erewrite bind_val.
    2:{ unfold element_get_attribute. rewrite Ha. reflexivity. }
    cbn [map add_calls fold_left].
    assert (forall titles',
              collect_titles self (pre ++ el :: post) titles'
                (add_call (CGetAttribute (driver self) x "title") w)
              = (Exc e, add_calls (map (title_call (driver self)) (pre ++ [el]))
                          (add_call (title_call (driver self) x) w))) as K.
    { intros titles'. apply (IH attrs); [exact Hr|].
      cbn [web calls add_call]. cbn [map] in He.
      now rewrite <- app_assoc. }
    destruct (truthy a); apply K.
Qed.

(** X5: when reading the [title] of one of the elements raises an [Exception],
    [get_video_titles] returns the empty list: the titles read before it
    are dropped, and no element after it is read. *)
Theorem get_video_titles_read_fails max_results w els pre el post attrs e :
  on_wait_all (web w) (calls w) (driver self) (wait self) titles_locator = inr els ->
  slice_to els max_results = pre ++ el :: post ->
  title_answers (web w) (driver self)
                (calls w ++ [CWaitAll (driver self) (wait self) titles_locator]) pre
  = map inr attrs ->
  on_get_attribute (web w)
    (calls w ++ CWaitAll (driver self) (wait self) titles_locator
             :: map (title_call (driver self)) pre)
    (driver self) el "title" = inl e ->
  isinstance e Exception = true ->
  exists w',
    get_video_titles self max_results w = (Val [], w')
    /\ calls w' = calls w ++ CWaitAll (driver self) (wait self) titles_locator
                          :: map (title_call (driver self)) (pre ++ [el])
    /\ console w' = console w ++ ["[ERROR] Failed to get video titles: " +:+ exn_str e].
Proof.
  intros Hw Hs Ha He Hi.
  assert (els <> []) as Hne.
  { intros ->. unfold slice_to in Hs. destruct (0 <=? max_results)%Z; rewrite take_nil in Hs;
      now destruct pre. }
  set (w1 := add_call (CWaitAll (driver self) (wait self) titles_locator) w).
  assert (wait_until_presence_all (driver self) (wait self) titles_locator w = (Val els, w1))
    as Ew.
  { unfold wait_until_presence_all. rewrite Hw. now destruct els. }
  eexists. split; [|split].
  - unfold get_video_titles.
    erewrite try_except_caught; [reflexivity| |exact Hi].
    unfold titles_locator in Ew. erewrite bind_val; [|exact Ew].
    apply bind_exc. rewrite Hs.
    apply (collect_titles_read_fails pre attrs); [exact Ha|].
    cbn [web calls add_call w1]. rewrite <- app_assoc. exact He.
  - cbn [calls add_console]. rewrite calls_add_calls. cbn [calls add_call w1].
    now rewrite <- app_assoc.
  - cbn [console add_console]. rewrite console_add_calls. reflexivity.
Qed.

Lemma print_numbered_console titles : forall i w,
  exists w', print_numbered i titles w = (Val tt, w')
    /\ console w' = console w ++ imap (fun k t => str_of_Z (i + Z.of_nat k) +:+ ". " +:+ t) titles
    /\ calls w' = calls w /\ beside_browser w' = beside_browser w.
Proof.
  induction titles as [|t titles IH]; intros i w.
  - exists w. cbn. rewrite app_nil_r. auto.
  - cbn [print_numbered]. unfold bind, print.
    destruct (IH (i + 1) (add_console (str_of_Z i +:+ ". " +:+ t) w)) as (w' & E & C & K & B).
    rewrite E. exists w'. split; [reflexivity|]. split; [|split; [exact K|exact B]].
    rewrite C. cbn [console add_console]. rewrite <- app_assoc. cbn [app imap].
    f_equal. f_equal; [now rewrite Z.add_0_r|].
    apply imap_ext. intros k x _. cbn. do 2 f_equal. lia.
Qed.

(** How [search_tech_news] comes to a list: the empty one, or the one of
    [get_video_titles] with the default bound, printed with numbers. *)
Lemma search_tech_news_result term w ts w' :
  search_tech_news self term w = (Val ts, w') ->
  ts = []
  \/ exists w2 w3,
       get_video_titles self 10 w2 = (Val ts, w3)
       /\ console w'
          = console w3
            ++ (nl +:+ "=== Search Results for '" +:+ default Config.DEFAULT_SEARCH_TERM term
                +:+ "' ===") :: numbered ts ++ [str_repeat "=" 40].
Proof.
  unfold search_tech_news. unfold bind at 1.
  destruct (navigate_to_youtube self w) as [[[]|e] w1]; [|discriminate].
  unfold bind at 1.
  destruct (search self _ w1) as [[[]|e] w2]; [| |discriminate].
  2:{ intros [= <- <-]. now left. }
  unfold bind at 1.
  destruct (get_video_titles self 10 w2) as [[ts'|e] w3] eqn:G; [|discriminate].
  destruct ts' as [|t ts'].
  - intros [= <- <-]. now left.
  - unfold bind at 1. unfold bind at 1. unfold print at 1. unfold bind at 1.
    destruct (print_numbered_console (t :: ts') 1
                (add_console (nl +:+ "=== Search Results for '"
                   +:+ default Config.DEFAULT_SEARCH_TERM term +:+ "' ===") w3))
      as (v & E & C & _). rewrite E. unfold print, ret. intros [= <- <-].
    right. exists w2, w3. split; [exact G|].
    cbn [console add_console] in C |- *. rewrite C, <- !app_assoc. cbn [app].
    do 2 f_equal. unfold numbered. f_equal. apply imap_ext. intros k x _. cbn.
    do 2 f_equal. lia.
Qed.

(** X6: [search_tech_news] never returns more than ten titles, and none
    of them is empty. *)
Theorem search_tech_news_at_most_ten term w ts w' :
  search_tech_news self term w = (Val ts, w') ->
  (length ts <= 10)%nat /\ Forall (fun t => t <> "") ts.
Proof.
  intros H. destruct (search_tech_news_result _ _ _ _ H) as [->|(w2 & w3 & G & _)].
  - split; [cbn; lia|constructor].
  - destruct (get_video_titles_any _ _ _ _ _ G) as (els & k & _ & _ & L & F).
    pose proof (slice_to_length els 10 ltac:(lia)) as S.
    split; [change (Z.to_nat 10) with 10%nat in S; lia|exact F].
Qed.
End TitlesAndNews.

Section NewsOutput.
Import YouTubeAutomation.
Variable self : YouTubeAutomation.t.

(** X7: when titles were found, [search_tech_news] ends its output with a
    header naming the search term, the titles numbered from 1 in the
    order returned, and a rule of forty [=]. *)
Theorem search_tech_news_prints_numbered term w ts w' :
  search_tech_news self term w = (Val ts, w') ->
  ts <> [] ->
  exists before,
    console w'
    = before
      ++ (nl +:+ "=== Search Results for '" +:+ default Config.DEFAULT_SEARCH_TERM term
          +:+ "' ===") :: numbered ts ++ [str_repeat "=" 40].
Proof.
  intros H N. destruct (search_tech_news_result _ _ _ _ _ H) as [->|(w2 & w3 & _ & C)].
  - now destruct N.
  - now exists (console w3).
Qed.

Lemma frames_collect_titles els : forall titles,
  frames beside_browser (collect_titles self els titles).
Proof.
  induction els as [|el els IH]; intros titles; cbn [collect_titles].
  - apply frames_ret.
  - apply frames_bind; [frames_driver|]. intros a. destruct (truthy a); apply IH.
Qed.

Lemma frames_print_numbered titles : forall i, frames beside_browser (print_numbered i titles).
Proof.
  induction titles as [|t titles IH]; intros i; cbn [print_numbered].
  - apply frames_ret.
  - apply frames_bind; [frames_driver|]. intros _. apply IH.
Qed.

Lemma frames_search_tech_news term : frames beside_browser (search_tech_news self term).
Proof.
  unfold search_tech_news, navigate_to_youtube, search, get_video_titles.
  repeat first
    [ apply frames_bind; [|intros ?]
    | apply frames_ret
    | apply frames_try_except; [|apply frames_except; intros ?]
    | apply frames_collect_titles
    | apply frames_print_numbered
    | match goal with
      | |- frames _ (if ?b then _ else _) => destruct b
      | |- frames _ (match ?x with _ => _ end) => destruct x
      end
    | frames_driver ].
Qed.

(** X8: [search_tech_news] works through the driver and the console only: the
    filesystem, the working directory, the browser processes and the
    standard input are as it found them, however it ends. *)
Theorem search_tech_news_beside_browser term w :
  let w' := snd (search_tech_news self term w) in
  fs w' = fs w /\ cwd w' = cwd w /\ procs w' = procs w /\ stdin w' = stdin w.
Proof.
  cbv zeta.
  pose proof (frames_search_tech_news term w _ _ (surjective_pairing _)) as H.
  unfold beside_browser in H. now injection H as -> -> -> ->.
Qed.
End NewsOutput.

Lemma search_true_types_term_witness :
  let w := Demo.world (Demo.site true true []) ∅ 0%Q [] in
  exists box,
    calls (snd (YouTubeAutomation.search Demo.youtube "rocq" w))
    = search_calls Demo.youtube box "rocq".
Proof.
  intros w.
  set (s := YouTubeAutomation.search Demo.youtube "rocq" w).
  assert (s = (Val true, snd s)) as E.
  { rewrite (surjective_pairing s) at 1. f_equal. }
  destruct (search_true_types_term Demo.youtube "rocq" w (snd s) E) as (box & _ & C & _).
  exists box. exact C.
Defined.

Lemma search_false_stops_witness :
  let w := Demo.world (Demo.site true false []) ∅ 0%Q [] in
  exists e box n,
    calls (snd (YouTubeAutomation.search Demo.youtube "rocq" w))
    = take n (search_calls Demo.youtube box "rocq")
    /\ isinstance e Exception = true.
Proof.
  intros w.
  set (s := YouTubeAutomation.search Demo.youtube "rocq" w).
  assert (s = (Val false, snd s)) as E.
  { rewrite (surjective_pairing s) at 1. f_equal. }
  destruct (search_false_stops Demo.youtube "rocq" w (snd s) E) as (e & box & n & _ & I & C & _).
  exists e, box, n. split; [exact C|exact I].
Defined.

Lemma search_raises_no_exception_witness :
  let w := Demo.world (Scenario.waits_raise Scenario.interrupt) ∅ 0%Q [] in
  fst (YouTubeAutomation.search Demo.youtube "rocq" w) = Exc Scenario.interrupt
  /\ isinstance Scenario.interrupt Exception = false.
Proof.
  intros w.
  set (s := YouTubeAutomation.search Demo.youtube "rocq" w).
  assert (s = (Exc Scenario.interrupt, snd s)) as E.
  { rewrite (surjective_pairing s) at 1. f_equal. }
  split; [reflexivity|].
  exact (search_raises_no_exception Demo.youtube "rocq" w Scenario.interrupt (snd s) E).
Defined.

Lemma get_video_titles_bounded_witness :
  let w := Demo.world (Demo.site true true [Some "First"; Some ""; None; Some "Fourth";
                                            Some "Fifth"]) ∅ 0%Q [] in
  fst (YouTubeAutomation.get_video_titles Demo.youtube 4 w) = Val ["First"; "Fourth"]
  /\ Forall (fun t => t <> "") ["First"; "Fourth"]
  /\ (length ["First"; "Fourth"] <= 4)%nat.
Proof.
  intros w.
  set (g := YouTubeAutomation.get_video_titles Demo.youtube 4 w).
  assert (g = (Val ["First"; "Fourth"], snd g)) as E.
  { rewrite (surjective_pairing g) at 1. f_equal. }
  destruct (get_video_titles_bounded Demo.youtube 4 w _ (snd g) E) as [F B].
  destruct (B ltac:(lia)) as [L _].
  split; [reflexivity|]. split; [exact F|exact L].
Defined.

Lemma get_video_titles_read_fails_witness :
  let w := Demo.world (Scenario.title_raises [Some "First"; Some "Second"; Some "Third"]
                         11%nat Scenario.stale) ∅ 0%Q [] in
  exists w', YouTubeAutomation.get_video_titles Demo.youtube 10 w = (Val [], w').
Proof.
  intros w.
  destruct (get_video_titles_read_fails Demo.youtube 10 w [10; 11; 12]%nat [10%nat] 11%nat
              [12%nat] [Some "First"] Scenario.stale) as (w' & H & _).
  - reflexivity.
  - reflexivity.
  - reflexivity.
  - reflexivity.
  - reflexivity.
  - exists w'. exact H.
Defined.

Lemma search_tech_news_at_most_ten_witness :
  let w := Demo.world (Demo.site true true (repeat (Some "Title") 12)) ∅ 0%Q [] in
  (length (repeat "Title" 10) <= 10)%nat
  /\ fst (YouTubeAutomation.search_tech_news Demo.youtube None w) = Val (repeat "Title" 10).
Proof.
  intros w.
  set (s := YouTubeAutomation.search_tech_news Demo.youtube None w).
  assert (s = (Val (repeat "Title" 10), snd s)) as E.
  { rewrite (surjective_pairing s) at 1. f_equal. }
  split; [|reflexivity].
  now destruct (search_tech_news_at_most_ten Demo.youtube None w _ (snd s) E).
Defined.

Lemma search_tech_news_prints_numbered_witness :
  let w := Demo.world (Demo.site true true [Some "First"; Some "Second"]) ∅ 0%Q [] in
  exists before,
    console (snd (YouTubeAutomation.search_tech_news Demo.youtube (Some "rocq") w))
    = before ++ [nl +:+ "=== Search Results for 'rocq' ==="; "1. First"; "2. Second";
                 str_repeat "=" 40].
Proof.
  intros w.
  set (s := YouTubeAutomation.search_tech_news Demo.youtube (Some "rocq") w).
  assert (s = (Val ["First"; "Second"], snd s)) as E.
  { rewrite (surjective_pairing s) at 1. f_equal. }
  destruct (search_tech_news_prints_numbered Demo.youtube (Some "rocq") w _ (snd s) E)
    as (before & C); [discriminate|].
  exists before. exact C.
Defined.

(** ** config.py and chrome_driver.py: the paths, [create_driver], and the
    ways into and out of [managed_driver] *)

Section ConfigPaths.
Import ChromeDriverManager.



(** X11: for a manager made on this host, the two places that work out
    directories agree: without [appmanager], Chrome for Testing and the
    profiles lie under one directory, and where [_get_chrome_paths] raises
    [get_chrome_profile_path] raises the same error; with [appmanager]
    neither fails. *)
Theorem chrome_paths_beside_profiles self w :
  fst (init w) = Val self ->
  (exists chrome_binary driver_path root,
     fst (_get_chrome_paths self w) = Val (chrome_binary, driver_path)
     /\ fst (Config.get_chrome_profile_path w) = Val root
     /\ (appmanager (host w) = None ->
         exists app_dir bin drv,
           chrome_binary = app_dir /: ["ChromeForTesting"] /: bin
           /\ driver_path = app_dir /: ["ChromeForTesting"] /: drv
           /\ root = app_dir /: ["ChromeProfiles"] /: [Config.DEFAULT_PROFILE_NAME (host w)]))
  \/ (exists e,
        fst (_get_chrome_paths self w) = Exc e
        /\ fst (Config.get_chrome_profile_path w) = Exc e).
Proof.
  unfold init, bind, get_host, ret, _get_platform. cbn [fst]. intros [= <-].
  unfold _get_chrome_paths, Config.get_chrome_profile_path, bind, get_host. cbn [platform].
  destruct (appmanager (host w)) as [app|].
  - left. destruct (String.eqb (get_platform app) "Windows"); cbn [fst ret];
      do 3 eexists; (split; [reflexivity|]); (split; [reflexivity|]); discriminate.
  - destruct (String.eqb (platform_system (host w)) "Windows").
    + destruct (Config.env_truthy _); cbn [fst ret raise].
      * left. do 3 eexists. split; [reflexivity|]. split; [reflexivity|].
        intros _. do 3 eexists. repeat split.
      * right. eexists. split; reflexivity.
    + left. destruct (String.eqb (platform_system (host w)) "Linux"); cbn [fst ret];
        do 3 eexists; (split; [reflexivity|]); (split; [reflexivity|]);
        intros _; do 3 eexists; repeat split.
Qed.

End ConfigPaths.


Lemma chrome_paths_beside_profiles_witness :
  let w := Demo.world (Demo.site true true []) ∅ 0%Q [] in
  exists app_dir bin drv,
    fst (ChromeDriverManager._get_chrome_paths Demo.manager w)
    = Val (app_dir /: ["ChromeForTesting"] /: bin, app_dir /: ["ChromeForTesting"] /: drv)
    /\ fst (Config.get_chrome_profile_path w)
       = Val (app_dir /: ["ChromeProfiles"] /: ["PySeed_Demo_profile"]).
Proof.
  intros w.
  destruct (chrome_paths_beside_profiles Demo.manager w eq_refl)
    as [(cb & dp & root & P & R & D)|(e & P & _)]; [|discriminate P].
  destruct (D eq_refl) as (app_dir & bin & drv & -> & -> & ->).
  exists app_dir, bin, drv. split; [exact P|exact R].
Defined.

Section CreateDriver.
Import Contextlib ChromeDriverManager.
Variable self : ChromeDriverManager.t.

(** [get_chrome_profile_path] reads the host and nothing else. *)
Lemma get_chrome_profile_path_host w v :
  host v = host w ->
  Config.get_chrome_profile_path v = (fst (Config.get_chrome_profile_path w), v).
Proof.
  intros H. unfold Config.get_chrome_profile_path, bind, get_host. rewrite H.
  destruct (appmanager (host w)); [reflexivity|].
  destruct (String.eqb _ "Windows").
  - destruct (Config.env_truthy _); reflexivity.
  - destruct (String.eqb _ "Linux"); reflexivity.
Qed.

(** [create_driver], step by step. *)
Lemma create_driver_steps profile_name detach w chrome_binary driver_path :
  fst (_get_chrome_paths self w) = Val (chrome_binary, driver_path) ->
  create_driver self profile_name detach w
  = match Fs.node_at (fs w) (os_key w chrome_binary) with
    | None =>
        (Exc (mk_exn FileNotFoundError
                ("Chrome binary not found at: " +:+ str_of_path chrome_binary)), w)
    | Some _ =>
        match Fs.node_at (fs w) (os_key w driver_path) with
        | None =>
            (Exc (mk_exn FileNotFoundError
                    ("ChromeDriver not found at: " +:+ str_of_path driver_path)), w)
        | Some _ =>
            match fst (Config.get_chrome_profile_path w) with
            | Val root =>
                webdriver_Chrome (str_of_path driver_path)
                  (build_options self chrome_binary
                     (profile_path_at root
                        (default (Config.DEFAULT_PROFILE_NAME (host w)) profile_name)
                        (now w))
                     detach) w
            | Exc e => (Exc e, w)
            end
        end
    end.
Proof.
  intros Hp. unfold create_driver.
  unfold bind at 1. unfold get_host at 1.
  unfold bind at 1. rewrite (get_chrome_paths_host self w w eq_refl), Hp.
  cbn [fst snd].
  unfold bind at 1. unfold path_exists at 1.
  destruct (Fs.node_at (fs w) (os_key w chrome_binary)) as [n1|]; [|reflexivity].
  rewrite bool_decide_eq_true_2 by eauto. cbn [negb].
  unfold bind at 1. unfold path_exists at 1.
  destruct (Fs.node_at (fs w) (os_key w driver_path)) as [n2|]; [|reflexivity].
  rewrite bool_decide_eq_true_2 by eauto. cbn [negb].
  unfold bind at 1. unfold time_time at 1.
  unfold bind. rewrite (get_chrome_profile_path_host w w eq_refl).
  destruct (fst (Config.get_chrome_profile_path w)); reflexivity.
Qed.



End CreateDriver.

Section ManagedDriver2.
Import Contextlib ChromeDriverManager.
Variable self : ChromeDriverManager.t.

Lemma FileNotFoundError_is_Exception e :
  isinstance e FileNotFoundError = true -> isinstance e Exception = true.
Proof. unfold isinstance. now destruct (exn_cls e). Qed.

(** The [except] clauses, by the class of the exception. *)
Lemma managed_driver_clauses_cases e w :
  match managed_driver_clauses e with
  | Some h =>
      isinstance e Exception = true
      /\ exists w', h w = (Val tt, w')
           /\ console w' = console w ++ setup_report e
           /\ calls w' = calls w /\ procs w' = procs w
           /\ mgr_keep_open w' = mgr_keep_open w
  | None => isinstance e Exception = false /\ setup_report e = []
  end.
Proof.
  unfold managed_driver_clauses, orelse, except, setup_report.
  destruct (isinstance e FileNotFoundError) eqn:F.
  - split; [now apply FileNotFoundError_is_Exception|].
    eexists. split; [reflexivity|]. cbn. rewrite <- app_assoc. auto.
  - destruct (isinstance e Exception) eqn:X.
    + split; [reflexivity|]. eexists. split; [reflexivity|]. cbn. auto.
    + auto.
Qed.

(** The generator up to its [yield], by what [create_driver] does once
    the flag is stored and the launch line printed. *)
Lemma gen_start_steps profile_name keep_open w :
  gen_start (managed_driver self profile_name keep_open) w
  = match create_driver self profile_name false
            (add_console (launch_line (host w) profile_name)
               (set_mgr_keep_open (Some keep_open) w)) with
    | (Val d, w1) => (Val (Yielded (Some d)), w1)
    | (Exc e, w1) =>
        match managed_driver_clauses e with
        | Some h => (Val Returned, snd (h w1))
        | None => (Exc e, w1)
        end
    end.
Proof.
  cbn [gen_start managed_driver].
  unfold bind at 1. unfold set_keep_open. unfold bind at 1. unfold get_host.
  cbn [host set_mgr_keep_open]. unfold bind at 1. unfold print at 1.
  fold (launch_line (host w) profile_name).
  destruct (create_driver _ _ _ _) as [[d|e] w1]; [reflexivity|].
  unfold bind, try_finally, try_except, reraise, managed_driver_finally, ret.
  pose proof (managed_driver_clauses_cases e w1) as K.
  destruct (managed_driver_clauses e) as [h|]; [|reflexivity].
  destruct K as (_ & w' & -> & _). reflexivity.
Qed.

(** X13: when the browser does not start ([webdriver.Chrome] raises an
    [Exception]), [managed_driver] reports it and ends without a [yield]:
    the [with] statement raises [RuntimeError] at its entry and the block
    is not run.  The launch is the only driver call; no process is added
    and none is quit. *)
Theorem managed_driver_launch_fails {A} profile_name keep_open (body : option handle -> M A)
    w chrome_binary driver_path root e :
  fst (_get_chrome_paths self w) = Val (chrome_binary, driver_path) ->
  Fs.node_at (fs w) (os_key w chrome_binary) <> None ->
  Fs.node_at (fs w) (os_key w driver_path) <> None ->
  fst (Config.get_chrome_profile_path w) = Val root ->
  let options :=
    build_options self chrome_binary
      (profile_path_at root (default (Config.DEFAULT_PROFILE_NAME (host w)) profile_name)
         (now w)) false in
  on_launch (web w) (calls w) (str_of_path driver_path) options = Some e ->
  isinstance e Exception = true ->
  exists w',
    with_ (managed_driver self profile_name keep_open) body w
    = (Exc (mk_exn RuntimeError "generator didn't yield"), w')
    /\ calls w' = calls w ++ [CLaunch (str_of_path driver_path) options]
    /\ procs w' = procs w
    /\ console w' = console w ++ launch_line (host w) profile_name :: setup_report e.
Proof.
  intros Hp Hb Hd Hr options Hl He.
  set (w0 := add_console (launch_line (host w) profile_name)
               (set_mgr_keep_open (Some keep_open) w)).
  assert (create_driver self profile_name false w0
          = (Exc e, add_call (CLaunch (str_of_path driver_path) options) w0)) as Hc.
  { rewrite (create_driver_steps self profile_name false w0 chrome_binary driver_path).
    2:{ rewrite (get_chrome_paths_host self w w0 eq_refl). exact Hp. }
    change (fs w0) with (fs w). change (os_key w0) with (os_key w).
    destruct (Fs.node_at (fs w) (os_key w chrome_binary)); [|congruence].
    destruct (Fs.node_at (fs w) (os_key w driver_path)); [|congruence].
    rewrite (get_chrome_profile_path_host w w0 eq_refl). cbn [fst]. rewrite Hr.
    unfold webdriver_Chrome. change (web w0) with (web w). change (calls w0) with (calls w).
    change (host w0) with (host w). change (now w0) with (now w). fold options.
    now rewrite Hl. }
  pose proof (gen_start_steps profile_name keep_open w) as G. fold w0 in G.
  rewrite Hc in G.
  pose proof (managed_driver_clauses_cases e
                (add_call (CLaunch (str_of_path driver_path) options) w0)) as K.
  destruct (managed_driver_clauses e) as [h|]; [|destruct K; congruence].
  destruct K as (_ & w' & Eh & C1 & C2 & C3 & _). rewrite Eh in G. cbn [snd] in G.
  exists w'. split.
  - unfold with_. unfold bind at 1. unfold enter. unfold bind at 1. rewrite G. reflexivity.
  - rewrite C1, C2, C3. cbn. rewrite <- app_assoc. auto.
Qed.

(** X14: an [Exception] raised inside a [with managed_driver(...)] block does
    not leave the statement: the [except] clauses of the generator take
    it for a setup failure, report it, and the statement ends normally
    once the [finally] block has run.  What is not an [Exception]
    ([KeyboardInterrupt]) is raised again after the [finally] block. *)
Theorem managed_driver_swallows_exception {A} profile_name keep_open
    (body : option handle -> M A) w d w1 e w2 :
  gen_start (managed_driver self profile_name keep_open) w = (Val (Yielded (Some d)), w1) ->
  body (Some d) w1 = (Exc e, w2) ->
  exists w3,
    with_ (managed_driver self profile_name keep_open) body w
    = (if isinstance e Exception then Val None else Exc e, w3)
    /\ console w3 = console w2 ++ setup_report e ++ [closing_line w2].
Proof.
  intros Hs Hb.
  unfold with_. unfold bind at 1. unfold enter. unfold bind at 1. rewrite Hs.
  cbn [ret]. rewrite Hb.
  unfold exit. unfold bind at 1. unfold bind at 1.
  cbn [gen_resume managed_driver]. unfold try_finally, try_except, reraise.
  pose proof (managed_driver_clauses_cases e w2) as K.
  destruct (managed_driver_clauses e) as [h|].
  - destruct K as (-> & w' & -> & C & _ & _ & Ko).
    rewrite managed_driver_finally_spec. unfold closing_line. rewrite <- Ko.
    destruct (default false (mgr_keep_open w')); eexists; (split; [reflexivity|]);
      cbn; rewrite C, <- app_assoc; reflexivity.
  - destruct K as (-> & ->).
    rewrite managed_driver_finally_spec. unfold closing_line.
    destruct (default false (mgr_keep_open w2)); eexists; (split; [reflexivity|]);
      reflexivity.
Qed.

End ManagedDriver2.













Lemma managed_driver_launch_fails_witness :
  let e := mk_exn WebDriverException "Message: unknown error: Chrome failed to start" in
  let w := Demo.world (Scenario.launch_raises e) Demo.installed 0%Q [] in
  exists w',
    Contextlib.with_ (ChromeDriverManager.managed_driver Demo.manager None false)
      (fun _ => ret tt) w
    = (Exc (mk_exn RuntimeError "generator didn't yield"), w')
    /\ procs w' = [].
Proof.
  intros e w.
  destruct (managed_driver_launch_fails Demo.manager None false (fun _ => ret tt) w
              (Path true (Demo.chrome_dir ++ ["chrome-linux64"; "chrome"]))
              (Path true (Demo.chrome_dir ++ ["chromedriver-linux64"; "chromedriver"]))
              (Path true ["home"; "demo"; ".local"; "share"; "pyseed_demo"; "ChromeProfiles";
                          "PySeed_Demo_profile"])
              e)
    as (w' & H & _ & P & _).
  - reflexivity.
  - vm_compute. discriminate.
  - vm_compute. discriminate.
  - reflexivity.
  - reflexivity.
  - reflexivity.
  - exists w'. split; [exact H|exact P].
Defined.

Lemma managed_driver_swallows_exception_witness :
  let w := Demo.world (Demo.site true true []) Demo.installed 0%Q [] in
  exists w',
    Contextlib.with_ (ChromeDriverManager.managed_driver Demo.manager None false)
      (fun _ => @raise unit ValueError "not a setup failure") w
    = (Val None, w')
    /\ drop 1 (console w')
       = [nl +:+ "[ERROR] Chrome setup failed: not a setup failure"; "[INFO] Chrome closed."].
Proof.
  intros w.
  set (g := Contextlib.gen_start
              (ChromeDriverManager.managed_driver Demo.manager None false) w).
  assert (g = (Val (Contextlib.Yielded (Some 0%nat)), snd g)) as E.
  { rewrite (surjective_pairing g) at 1. f_equal. }
  destruct (managed_driver_swallows_exception Demo.manager None false
              (fun _ => @raise unit ValueError "not a setup failure") w 0%nat (snd g)
              (mk_exn ValueError "not a setup failure") (snd g) E eq_refl)
    as (w' & H & C).
  exists w'. split; [exact H|]. rewrite C. reflexivity.
Defined.



(** ** utils.py: what the methods of [FileHandler] do to the filesystem *)

Ltac frames_file :=
  let w := fresh "w" in let r := fresh "r" in let w' := fresh "w'" in
  intros w r w';
  unfold print, open_, file_read, path_exists;
  repeat match goal with
         | |- context [match ?x with _ => _ end] => destruct x
         end;
  intros [= <- <-]; reflexivity.


Section FsFacts.
Implicit Types f : gmap (list string) fnode.

Lemma os_mkdir_inv k f f' :
  Fs.os_mkdir k f = inr f' -> f !! k = None /\ f' = <[k := Dir true]> f /\ k <> [].
Proof.
  unfold Fs.os_mkdir. destruct (Fs.walk f [] k); [discriminate|].
  destruct k as [|s k]; [discriminate|]. cbn [Fs.node_at].
  destruct (f !! (s :: k)) eqn:E; [discriminate|].
  destruct (Fs.node_at f (removelast (s :: k))) as [[[]|]|]; try discriminate.
  intros [= <-]. auto.
Qed.

(** [mkdir] with parents only adds directories: every node that was there
    stays as it was. *)
Lemma mkdir_parents_keeps n : forall k f f',
  Fs.mkdir_parents n k f = inr f' ->
  forall k' nd, f !! k' = Some nd -> f' !! k' = Some nd.
Proof.
  induction n as [|n IH]; intros k f f' H k' nd L; cbn [Fs.mkdir_parents] in H.
  - destruct (Fs.os_mkdir k f) as [c|f1] eqn:E.
    + destruct c; try (destruct (Fs.is_dir f k); [|discriminate]; now injection H as <-).
      discriminate.
    + injection H as <-. destruct (os_mkdir_inv _ _ _ E) as (N & -> & _).
      rewrite lookup_insert_ne; [exact L|congruence].
  - destruct (Fs.os_mkdir k f) as [c|f1] eqn:E.
    + destruct c; try (destruct (Fs.is_dir f k); [|discriminate]; now injection H as <-).
      destruct k as [|s k]; [discriminate|].
      destruct (Fs.mkdir_parents n (removelast (s :: k)) f) as [c|f1] eqn:E1; [discriminate|].
      pose proof (IH _ _ _ E1 k' nd L) as L1.
      destruct (Fs.os_mkdir (s :: k) f1) as [c|f2] eqn:E2.
      * destruct c; try (destruct (Fs.is_dir f1 (s :: k)); [|discriminate];
                         now injection H as <-).
        discriminate.
      * injection H as <-. destruct (os_mkdir_inv _ _ _ E2) as (N & -> & _).
        rewrite lookup_insert_ne; [exact L1|congruence].
    + injection H as <-. destruct (os_mkdir_inv _ _ _ E) as (N & -> & _).
      rewrite lookup_insert_ne; [exact L|congruence].
Qed.

(** After [mkdir] with parents, the path is a directory. *)
Lemma mkdir_parents_is_dir n : forall k f f',
  Fs.mkdir_parents n k f = inr f' -> Fs.is_dir f' k = true.
Proof.
  assert (forall k f f', Fs.os_mkdir k f = inr f' -> Fs.is_dir f' k = true) as K.
  { intros k f f' E. destruct (os_mkdir_inv _ _ _ E) as (_ & -> & N).
    unfold Fs.is_dir. destruct k; [congruence|]. cbn [Fs.node_at].
    now rewrite lookup_insert_eq. }
  induction n as [|n IH]; intros k f f' H; cbn [Fs.mkdir_parents] in H.
  - destruct (Fs.os_mkdir k f) as [c|f1] eqn:E; [|injection H as <-; eauto].
    destruct c; try (destruct (Fs.is_dir f k) eqn:D; [|discriminate]; now injection H as <-).
    discriminate.
  - destruct (Fs.os_mkdir k f) as [c|f1] eqn:E; [|injection H as <-; eauto].
    destruct c; try (destruct (Fs.is_dir f k) eqn:D; [|discriminate]; now injection H as <-).
    destruct k as [|s k]; [discriminate|].
    destruct (Fs.mkdir_parents n (removelast (s :: k)) f) as [c|f1] eqn:E1; [discriminate|].
    destruct (Fs.os_mkdir (s :: k) f1) as [c|f2] eqn:E2; [|injection H as <-; eauto].
    destruct c; try (destruct (Fs.is_dir f1 (s :: k)) eqn:D; [|discriminate];
                     now injection H as <-).
    discriminate.
Qed.

(** Opening for writing touches the file and nothing else. *)
Lemma open_write_inv k f f' :
  Fs.open_write k f = inr f' ->
  exists r, f' = <[k := File r true (Utf8 "")]> f
            /\ (f !! k = None \/ exists wr d, f !! k = Some (File r wr d)).
Proof.
  unfold Fs.open_write. destruct (Fs.walk f [] k); [discriminate|].
  destruct k as [|s k]; [discriminate|]. cbn [Fs.node_at].
  destruct (f !! (s :: k)) as [[wr|r [] d]|] eqn:E; try discriminate.
  - intros [= <-]. exists r. eauto.
  - destruct (Fs.node_at f (removelast (s :: k))) as [[[]|]|]; try discriminate.
    intros [= <-]. exists true. auto.
Qed.

Lemma put_text_other k text f k' : k' <> k -> put_text k text f !! k' = f !! k'.
Proof.
  intros N. unfold put_text. destruct (f !! k) as [[|r wr [old|]]|]; try reflexivity.
  now rewrite lookup_insert_ne.
Qed.

Lemma fs_after_write_keeps w p text k nd :
  k <> os_key w p -> fs w !! k = Some nd -> fs_after_write w p text !! k = Some nd.
Proof.
  intros N L. unfold fs_after_write.
  destruct (Fs.mkdir_parents _ _ _) as [c|f1] eqn:E1; [exact L|].
  pose proof (mkdir_parents_keeps _ _ _ _ E1 k nd L) as L1.
  destruct (Fs.open_write (os_key w p) f1) as [c|f2] eqn:E2; [exact L1|].
  destruct (open_write_inv _ _ _ E2) as (r & -> & _).
  rewrite put_text_other by exact N. now rewrite lookup_insert_ne.
Qed.

Lemma fs_after_write_opened w p text f2 :
  opened_for_write w p = Some f2 ->
  exists r, fs_after_write w p text
            = <[os_key w p := File r true (Utf8 text)]> f2
            /\ f2 !! os_key w p = Some (File r true (Utf8 "")).
Proof.
  unfold opened_for_write, fs_after_write.
  destruct (Fs.mkdir_parents _ _ _) as [c|f1]; [discriminate|].
  destruct (Fs.open_write (os_key w p) f1) as [c|f2'] eqn:E2; [discriminate|].
  intros [= ->]. destruct (open_write_inv _ _ _ E2) as (r & -> & _).
  exists r. unfold put_text. rewrite lookup_insert_eq. split; [|reflexivity].
  reflexivity.
Qed.

End FsFacts.

Section Writers.
Import FileHandler.
Context {codec : CsvCodec}.
Variable self : FileHandler.t.

Lemma try_except_disk {A} (m : M A) clauses w :
  (forall e h, clauses e = Some h -> frames disk h) ->
  disk (snd (try_except m clauses w)) = disk (snd (m w)).
Proof.
  intros Hc. unfold try_except. destruct (m w) as [[a|e] w1]; [reflexivity|].
  destruct (clauses e) as [h|] eqn:E; [|reflexivity].
  cbn [snd]. exact (Hc e h E w1 _ _ (surjective_pairing _)).
Qed.

Lemma report_frames_disk {A} (line : exn -> string) (a : A) :
  forall e h, except Exception (fun e => print (line e) ;; ret a) e = Some h ->
              frames disk h.
Proof.
  apply frames_except. intros e. apply frames_bind; [|intros _; apply frames_ret].
  now intros w r w' [= <- <-].
Qed.

(** The steps the writing methods share: make the directories, open the
    file, write [text]; [k] is what follows the opening. *)
Lemma writer_disk {A} p text (k : file -> M A) w :
  (forall f v, disk (snd (k f v)) = disk (snd (file_write f text v))) ->
  disk (snd ((path_mkdir_parents (path_parent p) ;; f <- open_ p ModeW ;; k f) w))
  = (fs_after_write w p text, cwd w).
Proof.
  intros Hk. unfold bind at 1. unfold path_mkdir_parents, fs_after_write.
  destruct (Fs.mkdir_parents _ _ _) as [c|f1]; [reflexivity|].
  unfold bind, open_. cbn [fs set_fs]. change (os_key (set_fs f1 w) p) with (os_key w p).
  destruct (Fs.open_write (os_key w p) f1) as [c|f2] eqn:E2; [reflexivity|].
  rewrite Hk. unfold file_write, put_text. cbn [fs set_fs].
  change (os_key (set_fs f2 (set_fs f1 w)) p) with (os_key w p).
  destruct (f2 !! os_key w p) as [[|r wr [old|]]|]; reflexivity.
Qed.

Lemma write_text_disk p content w :
  disk (snd (write_text self p content w))
  = (fs_after_write w (_resolve_path self p) content, cwd w).
Proof.
  unfold write_text. rewrite try_except_disk by apply report_frames_disk.
  apply (writer_disk _ content (fun f => file_write f content ;; _ ;; ret true)).
  intros f v. unfold bind, print. destruct (file_write f content v) as [[[]|e] v1]; reflexivity.
Qed.

Lemma write_json_disk p data indent w :
  disk (snd (write_json self p data indent w))
  = (fs_after_write w (_resolve_path self p) (fst (Json.iterencode indent data 0)), cwd w).
Proof.
  unfold write_json. rewrite try_except_disk by apply report_frames_disk.
  apply (writer_disk _ _ (fun f => json_dump data f indent ;; _ ;; ret true)).
  intros f v. unfold json_dump, bind, print.
  destruct (file_write f _ v) as [[[]|e] v1]; [|reflexivity].
  destruct (snd (Json.iterencode indent data 0)); reflexivity.
Qed.

Lemma write_csv_disk p first rest fieldnames w :
  disk (snd (write_csv self p (first :: rest) fieldnames w))
  = (fs_after_write w (_resolve_path self p)
       (fst (csv_DictWriter (csv_fieldnames fieldnames (first :: rest)) (first :: rest))),
     cwd w).
Proof.
  unfold write_csv. rewrite try_except_disk by apply report_frames_disk.
  fold (csv_fieldnames fieldnames (first :: rest)).
  apply (writer_disk _ _ (fun f => csv_write_all f _ (first :: rest) ;; _ ;; ret true)).
  intros f v. unfold csv_write_all, bind, print.
  destruct (file_write f _ v) as [[[]|e] v1]; [|reflexivity].
  destruct (snd (csv_DictWriter _ _)); reflexivity.
Qed.

End Writers.

Section Writers2.
Import FileHandler.
Context {codec : CsvCodec}.
Variable self : FileHandler.t.

Lemma disk_inv w f c : disk w = (f, c) -> fs w = f /\ cwd w = c.
Proof. now intros [= -> ->]. Qed.


Lemma write_text_written p content w w1 :
  write_text self p content w = (Val true, w1) ->
  cwd w1 = cwd w
  /\ exists r, fs w1 !! os_key w (_resolve_path self p) = Some (File r true (Utf8 content)).
Proof.
  intros H. pose proof (write_text_value self p content w) as V.
  pose proof (write_text_disk self p content w) as D. rewrite H in V, D.
  cbn [fst snd] in V, D. injection V as V. apply disk_inv in D as [D1 D2].
  split; [exact D2|]. symmetry in V. apply bool_decide_eq_true_1 in V as [f2 O].
  destruct (fs_after_write_opened w _ content f2 O) as (r & E & _).
  exists r. rewrite D1, E. apply lookup_insert_eq.
Qed.

Lemma write_csv_written p rows fieldnames w w1 :
  write_csv self p rows fieldnames w = (Val true, w1) ->
  cwd w1 = cwd w
  /\ exists r text, fs w1 !! os_key w (_resolve_path self p) = Some (File r true (Utf8 text)).
Proof.
  intros H. pose proof (write_csv_value self p rows fieldnames w) as V.
  destruct rows as [|first rest]; [rewrite H in V; discriminate|].
  pose proof (write_csv_disk self p first rest fieldnames w) as D. rewrite H in V, D.
  cbn [fst snd] in V, D. injection V as V. apply disk_inv in D as [D1 D2].
  split; [exact D2|]. symmetry in V. apply andb_true_iff in V as [V _].
  apply bool_decide_eq_true_1 in V as [f2 O].
  destruct (fs_after_write_opened w _ (fst (csv_DictWriter
              (csv_fieldnames fieldnames (first :: rest)) (first :: rest))) f2 O)
    as (r & E & _).
  exists r. eexists. rewrite D1, E. apply lookup_insert_eq.
Qed.


(** X19: after a writing method has returned [True], [file_exists] says
    [True] for the path, and changes nothing. *)
Theorem written_file_exists p content data indent rows fieldnames w w1 :
  write_text self p content w = (Val true, w1)
  \/ write_json self p data indent w = (Val true, w1)
  \/ write_csv self p rows fieldnames w = (Val true, w1) ->
  file_exists self p w1 = (Val true, w1).
Proof.
  intros H.
  assert (cwd w1 = cwd w
          /\ is_Some (fs w1 !! os_key w (_resolve_path self p))) as (C & S).
  { destruct H as [H|[H|H]].
    - destruct (write_text_written p content w w1 H) as (C & r & L). rewrite L. eauto.
    - destruct (write_json_written indent self p data w w1 H) as (_ & C & r & L).
      rewrite L. eauto.
    - destruct (write_csv_written p rows fieldnames w w1 H) as (C & r & t & L).
      rewrite L. eauto. }
  unfold file_exists, path_exists.
  replace (os_key w1 (_resolve_path self p)) with (os_key w (_resolve_path self p))
    by (unfold os_key; now rewrite C).
  rewrite bool_decide_eq_true_2; [reflexivity|].
  unfold Fs.node_at. destruct (os_key w (_resolve_path self p)); eauto.
Qed.

(** X20: a [write_json] that stops on a value json cannot encode returns
    [False] only after the file was opened: what the file held is lost,
    and the file is left with the part of the text the encoder had
    produced. *)
Theorem write_json_failure_leaves_partial_file p data indent w :
  is_Some (opened_for_write w (_resolve_path self p)) ->
  serialisable data = false ->
  exists r w1,
    write_json self p data indent w = (Val false, w1)
    /\ fs w1 !! os_key w (_resolve_path self p)
       = Some (File r true (Utf8 (fst (Json.iterencode indent data 0)))).
Proof.
  intros [f2 O] S.
  pose proof (write_json_value self p data indent w) as V.
  pose proof (write_json_disk self p data indent w) as D.
  destruct (write_json self p data indent w) as [r w1]. cbn [fst snd] in V, D.
  rewrite O in V. rewrite bool_decide_eq_true_2 in V by eauto.
  rewrite bool_decide_eq_false_2 in V.
  2:{ intros E. apply encoded_serialisable in E. congruence. }
  cbn in V. subst r. apply disk_inv in D as [D _].
  destruct (fs_after_write_opened w _ (fst (Json.iterencode indent data 0)) f2 O)
    as (r & E & _).
  exists r, w1. split; [reflexivity|]. rewrite D, E. apply lookup_insert_eq.
Qed.

Lemma frames_read_body {A} (parse : string -> M A) p :
  (forall s, frames beside_console (parse s)) ->
  frames beside_console (f <- open_ p ModeR ;; s <- file_read f ;; parse s).
Proof.
  intros Hp. apply frames_bind; [frames_file|intros f].
  apply frames_bind; [frames_file|intros s]. apply Hp.
Qed.

Lemma frames_report {X A} (proj : World -> X) c (line : exn -> string) (a : A) :
  (forall w s, proj (add_console s w) = proj w) ->
  forall e h, except c (fun e => print (line e) ;; ret a) e = Some h -> frames proj h.
Proof.
  intros Hp. apply frames_except. intros e. apply frames_bind; [|intros _; apply frames_ret].
  intros w r w' [= <- <-]. apply Hp.
Qed.

Lemma frames_orelse {X A} (proj : World -> X) (c1 c2 : exn -> option (M A)) :
  (forall e h, c1 e = Some h -> frames proj h) ->
  (forall e h, c2 e = Some h -> frames proj h) ->
  forall e h, orelse c1 c2 e = Some h -> frames proj h.
Proof.
  intros H1 H2 e h. unfold orelse. destruct (c1 e) as [h1|] eqn:E.
  - intros [= <-]. eauto.
  - eauto.
Qed.

(** X21: the reading methods and [file_exists] change nothing but the console:
    the filesystem, the working directory, the calls made to the driver,
    the browser processes and the standard input are as before. *)
Theorem readers_change_nothing p w :
  beside_console (snd (read_text self p w)) = beside_console w
  /\ beside_console (snd (read_json self p w)) = beside_console w
  /\ beside_console (snd (read_csv self p w)) = beside_console w
  /\ snd (file_exists self p w) = w.
Proof.
  split; [|split; [|split; [|reflexivity]]].
  - refine (frames_try_except beside_console _ _ _ _ w _ _
              (surjective_pairing (read_text self p w))).
    + apply frames_bind; [frames_file|intros f]. frames_file.
    + repeat apply frames_orelse; apply frames_report; reflexivity.
  - refine (frames_try_except beside_console _ _ _ _ w _ _
              (surjective_pairing (read_json self p w))).
    + unfold json_load. apply frames_read_body. intros s.
      destruct (Json.loads s); [apply frames_ret|apply frames_raise].
    + repeat apply frames_orelse; apply frames_report; reflexivity.
  - refine (frames_try_except beside_console _ _ _ _ w _ _
              (surjective_pairing (read_csv self p w))).
    + unfold csv_read_all. apply frames_read_body. intros s.
      destruct (csv_DictReader s); [apply frames_raise|apply frames_ret].
    + repeat apply frames_orelse; apply frames_report; reflexivity.
Qed.

End Writers2.

Section Directories.
Import FileHandler.
Variable self : FileHandler.t.
Implicit Types f : gmap (list string) fnode.

Lemma node_at_insert_ne f k k' x : k' <> k -> Fs.node_at (<[k := x]> f) k' = Fs.node_at f k'.
Proof.
  intros N. unfold Fs.node_at. destruct k'; [reflexivity|]. now rewrite lookup_insert_ne.
Qed.

(** A node put at the end of a path does not change how the path resolves. *)
Lemma walk_insert f x rest : forall pre,
  Fs.walk (<[pre ++ rest := x]> f) pre rest = Fs.walk f pre rest.
Proof.
  induction rest as [|s rest IH]; intros pre; [reflexivity|].
  cbn [Fs.walk]. rewrite node_at_insert_ne.
  2:{ intros E. apply (f_equal length) in E. rewrite length_app in E. cbn in E. lia. }
  destruct (Fs.node_at f pre) as [[|]|]; try reflexivity.
  specialize (IH (pre ++ [s])). rewrite <- app_assoc in IH. exact IH.
Qed.

Lemma os_mkdir_again k f f' : Fs.os_mkdir k f = inr f' -> Fs.os_mkdir k f' = inl Fs.EEXIST.
Proof.
  intros E. destruct (os_mkdir_inv _ _ _ E) as (_ & -> & N).
  unfold Fs.os_mkdir in E |- *.
  pose proof (walk_insert f (Dir true) k []) as W. cbn [app] in W. rewrite W.
  destruct (Fs.walk f [] k); [discriminate|].
  destruct k; [congruence|]. cbn [Fs.node_at]. now rewrite lookup_insert_eq.
Qed.

(** Making a directory that [mkdir] with parents has made is no change. *)
Lemma mkdir_parents_again n k f f' :
  Fs.mkdir_parents n k f = inr f' -> Fs.mkdir_parents n k f' = inr f'.
Proof.
  intros H. pose proof (mkdir_parents_is_dir _ _ _ _ H) as D.
  assert (forall c, c <> Fs.ENOENT -> Fs.os_mkdir k f' = inl c ->
                    Fs.mkdir_parents n k f' = inr f') as K.
  { intros c N E. destruct n; cbn [Fs.mkdir_parents]; rewrite E, D; now destruct c. }
  destruct n as [|n]; cbn [Fs.mkdir_parents] in H.
  - destruct (Fs.os_mkdir k f) as [c|f1] eqn:E.
    + destruct c; try discriminate;
        (destruct (Fs.is_dir f k); [|discriminate]; injection H as <-;
         eapply K; [|exact E]; discriminate).
    + injection H as <-. apply (K Fs.EEXIST); [discriminate|]. now apply os_mkdir_again in E.
  - destruct (Fs.os_mkdir k f) as [c|f1] eqn:E.
    + destruct c;
        try (destruct (Fs.is_dir f k); [|discriminate]; injection H as <-;
             eapply K; [|exact E]; discriminate).
      destruct k as [|s k]; [discriminate|].
      destruct (Fs.mkdir_parents n (removelast (s :: k)) f) as [c|f1] eqn:E1; [discriminate|].
      destruct (Fs.os_mkdir (s :: k) f1) as [c|f2] eqn:E2.
      * destruct c; try discriminate;
          (destruct (Fs.is_dir f1 (s :: k)); [|discriminate]; injection H as <-;
           eapply K; [|exact E2]; discriminate).
      * injection H as <-. apply (K Fs.EEXIST); [discriminate|].
        now apply os_mkdir_again in E2.
    + injection H as <-. apply (K Fs.EEXIST); [discriminate|]. now apply os_mkdir_again in E.
Qed.

(** [create_directory], by what [mkdir] with parents gives. *)
Lemma create_directory_steps p w :
  create_directory self p w
  = let full := _resolve_path self p in
    match Fs.mkdir_parents (length (os_key w full)) (os_key w full) (fs w) with
    | inr f' => (Val true, set_fs f' w)
    | inl c =>
        (Val false,
         add_console ("[ERROR] Failed to create directory " +:+ str_of_path full +:+ ": "
                      +:+ exn_str (Fs.os_error c full)) w)
    end.
Proof.
  unfold create_directory, try_except, bind, path_mkdir_parents. cbv zeta.
  destruct (Fs.mkdir_parents _ _ _) as [c|f']; [|reflexivity].
  unfold except. rewrite os_error_is_Exception. reflexivity.
Qed.

(** X22: when [create_directory] returns [True] the path is a directory, every
    node that was there before is unchanged, [file_exists] says [True],
    and a second [create_directory] returns [True] again without
    changing anything. *)
Theorem create_directory_idempotent p w w1 :
  create_directory self p w = (Val true, w1) ->
  Fs.is_dir (fs w1) (os_key w1 (_resolve_path self p)) = true
  /\ (forall k nd, fs w !! k = Some nd -> fs w1 !! k = Some nd)
  /\ file_exists self p w1 = (Val true, w1)
  /\ create_directory self p w1 = (Val true, w1).
Proof.
  rewrite create_directory_steps. cbv zeta.
  destruct (Fs.mkdir_parents _ _ _) as [c|f'] eqn:E; [discriminate|].
  intros [= <-]. cbn [fs set_fs]. change (os_key (set_fs f' w)) with (os_key w).
  pose proof (mkdir_parents_is_dir _ _ _ _ E) as D.
  split; [exact D|]. split; [exact (mkdir_parents_keeps _ _ _ _ E)|]. split.
  - unfold file_exists, path_exists. cbn [fs set_fs].
    change (os_key (set_fs f' w)) with (os_key w).
    rewrite bool_decide_eq_true_2; [reflexivity|].
    unfold Fs.is_dir in D. destruct (Fs.node_at f' _); [eauto|discriminate].
  - rewrite create_directory_steps. cbv zeta. cbn [fs set_fs].
    change (os_key (set_fs f' w)) with (os_key w).
    rewrite (mkdir_parents_again _ _ _ _ E). reflexivity.
Qed.

(** X23: where the path is a file, [create_directory] returns [False] and the
    filesystem stays as it is. *)
Theorem create_directory_over_file p w r wr d :
  Fs.node_at (fs w) (os_key w (_resolve_path self p)) = Some (File r wr d) ->
  fst (create_directory self p w) = Val false
  /\ fs (snd (create_directory self p w)) = fs w.
Proof.
  intros L. rewrite create_directory_steps. cbv zeta.
  destruct (Fs.mkdir_parents _ _ _) as [c|f'] eqn:E; [split; reflexivity|].
  exfalso. pose proof (mkdir_parents_is_dir _ _ _ _ E) as D.
  unfold Fs.is_dir, Fs.node_at in D, L.
  destruct (os_key w (_resolve_path self p)) as [|s k]; [discriminate|].
  rewrite (mkdir_parents_keeps _ _ _ _ E _ _ L) in D. discriminate.
Qed.

End Directories.

Section TuplesAsLists.
Import FileHandler.
Variable self : FileHandler.t.


End TuplesAsLists.



Lemma written_file_exists_witness :
  let fh := MainApplication.file_handler Demo.app in
  let w := Demo.world (Demo.site true true []) ∅ 0%Q [] in
  let p := Path false ["results"; "out.csv"] in
  let w1 := snd (FileHandler.write_csv (codec := Demo.plain_csv) fh p
                   [[("title", "First")]] None w) in
  FileHandler.file_exists fh p w1 = (Val true, w1).
Proof.
  intros fh w p w1.
  apply (written_file_exists (codec := Demo.plain_csv) fh p "" Json.PNone 2
           [[("title", "First")]] None w w1).
  right. right. unfold w1.
  rewrite (surjective_pairing (FileHandler.write_csv _ _ _ _ _)) at 1. f_equal.
Defined.

Lemma write_json_failure_leaves_partial_file_witness :
  let fh := MainApplication.file_handler Demo.app in
  let w := Demo.world (Demo.site true true []) ∅ 0%Q [] in
  let p := Path false ["results"; "out.json"] in
  let data := Json.PDict [("a", Json.PInt 1); ("b", Json.PBytes "x")] in
  exists r w1,
    FileHandler.write_json fh p data 2 w = (Val false, w1)
    /\ fs w1 !! ["opt"; "PySeed_Demo"; "results"; "out.json"]
       = Some (File r true
                 (Utf8 ("{" +:+ nl +:+ "  " +:+ String Json.dq ("a" +:+ String Json.dq
                          (": 1," +:+ nl +:+ "  " +:+ String Json.dq ("b"
                             +:+ String Json.dq ": ")))))).
Proof.
  intros fh w p data.
  destruct (write_json_failure_leaves_partial_file fh p data 2 w) as (r & w1 & H & L).
  { apply (bool_decide_unpack (is_Some _)). vm_compute. exact I. }
  { reflexivity. }
  exists r, w1. split; [exact H|exact L].
Defined.

Lemma create_directory_idempotent_witness :
  let fh := MainApplication.file_handler Demo.app in
  let w := Demo.world (Demo.site true true []) ∅ 0%Q [] in
  let p := Path false ["results"; "archive"] in
  let w1 := snd (FileHandler.create_directory fh p w) in
  FileHandler.create_directory fh p w1 = (Val true, w1).
Proof.
  intros fh w p w1.
  assert (FileHandler.create_directory fh p w = (Val true, w1)) as E.
  { unfold w1. rewrite (surjective_pairing (FileHandler.create_directory fh p w)) at 1.
    f_equal. }
  now destruct (create_directory_idempotent fh p w w1 E) as (_ & _ & _ & H).
Defined.

Lemma create_directory_over_file_witness :
  let fh := MainApplication.file_handler Demo.app in
  let w := Demo.world (Demo.site true true []) Demo.installed 0%Q [] in
  let p := Path true (Demo.chrome_dir ++ ["chrome-linux64"; "chrome"]) in
  fst (FileHandler.create_directory fh p w) = Val false.
Proof.
  intros fh w p.
  now destruct (create_directory_over_file fh p w true true (Utf8 "") eq_refl) as [H _].
Defined.

(** ** core.py: [run_youtube_demo], [_save_results] and the block under [with] *)

Ltac frames_disk :=
  let w := fresh "w" in let r := fresh "r" in let w' := fresh "w'" in
  intros w r w';
  unfold print, open_, file_read, file_write, path_exists, path_mkdir_parents;
  repeat match goal with
         | |- context [match ?x with _ => _ end] => destruct x
         end;
  intros [= <- <-]; reflexivity.

Section Orchestrator2.
Import MainApplication.
Variable app : MainApplication.t.

(** X16: no [Exception] and no [KeyboardInterrupt] leaves [run_youtube_demo]. *)
Theorem run_youtube_demo_lets_nothing_escape w e :
  isinstance e Exception = true \/ isinstance e KeyboardInterrupt = true ->
  fst (run_youtube_demo app w) <> Exc e.
Proof.
  intros He. unfold run_youtube_demo, bind, get_host, try_except. cbn [print].
  match goal with
  | |- context [Contextlib.with_ ?g ?b ?v] => destruct (Contextlib.with_ g b v) as [[a|e'] w1]
  end.
  - discriminate.
  - unfold orelse, except.
    destruct (isinstance e' KeyboardInterrupt) eqn:K; [discriminate|].
    destruct (isinstance e' Exception) eqn:X; [discriminate|].
    cbn [fst]. intros [= ->]. destruct He; congruence.
Qed.

End Orchestrator2.

Lemma run_youtube_demo_lets_nothing_escape_witness :
  let w := Demo.world (Demo.site false true []) Demo.installed 0%Q [] in
  fst (MainApplication.run_youtube_demo Demo.app w) <> Exc Demo.timeout_exn.
Proof.
  intros w. apply (run_youtube_demo_lets_nothing_escape Demo.app w Demo.timeout_exn).
  left. reflexivity.
Defined.


Section SaveResults.
Import FileHandler MainApplication.
Variable self : MainApplication.t.

Lemma frames_write_text fh p content : frames beside_disk (write_text fh p content).
Proof.
  unfold write_text. apply frames_try_except; [|apply frames_report; reflexivity].
  repeat (apply frames_bind; [frames_disk|intros ?]). apply frames_ret.
Qed.

Lemma frames_write_json fh p data indent : frames beside_disk (write_json fh p data indent).
Proof.
  unfold write_json, json_dump. apply frames_try_except; [|apply frames_report; reflexivity].
  apply frames_bind; [frames_disk|intros ?].
  apply frames_bind; [frames_disk|intros ?].
  apply frames_bind.
  - apply frames_bind; [frames_disk|intros ?].
    destruct (snd _); [apply frames_reraise|apply frames_ret].
  - intros ?. apply frames_bind; [frames_disk|intros ?]. apply frames_ret.
Qed.

(** [_save_results], write by write. *)
Lemma save_results_steps titles w :
  let hst := host w in
  let fh := file_handler self in
  let term := default Config.DEFAULT_SEARCH_TERM (_last_search_term self) in
  let stamp := strftime hst (now w) in
  let text :=
    "YouTube Search Results" +:+ nl +:+ "Search Term: " +:+ term +:+ nl +:+
    "Timestamp: " +:+ stamp +:+ nl +:+ nl +:+ numbered_lines 1 titles in
  let j := write_json fh (results_json hst) (results_data term stamp titles) 2 w in
  let w1 := match fst j with
            | Val true =>
                add_console ("[INFO] Results saved to: " +:+ str_of_path (results_json hst))
                  (snd j)
            | _ => snd j
            end in
  let t := write_text fh (results_txt hst) text w1 in
  exists w2,
    _save_results self titles w = (Val tt, w2)
    /\ disk w2 = disk (snd t) /\ beside_disk w2 = beside_disk w
    /\ exists b, fst j = Val b.
Proof.
  cbv zeta. unfold _save_results, try_except.
  unfold bind at 1. unfold get_host at 1. unfold bind at 1. unfold _get_timestamp at 1.
  fold (results_json (host w)). fold (results_txt (host w)).
  fold (results_data (default Config.DEFAULT_SEARCH_TERM (_last_search_term self))
          (strftime (host w) (now w)) titles).
  unfold bind at 1.
  pose proof (write_json_value (file_handler self) (results_json (host w))
                (results_data (default Config.DEFAULT_SEARCH_TERM (_last_search_term self))
                   (strftime (host w) (now w)) titles) 2 w) as V.
  pose proof (frames_write_json (file_handler self) (results_json (host w))
                (results_data (default Config.DEFAULT_SEARCH_TERM (_last_search_term self))
                   (strftime (host w) (now w)) titles) 2 w _ _ (surjective_pairing _)) as F.
  destruct (write_json _ _ _ _ w) as [rj wj]. cbn [fst snd] in V, F |- *. subst rj.
  match goal with
  | |- context [Val (?a && ?b)] => set (bj := a && b)
  end.
  unfold bind at 1.
  assert (exists w1,
            (if bj then print ("[INFO] Results saved to: "
                               +:+ str_of_path (results_json (host w)))
             else ret tt) wj = (Val tt, w1)
            /\ w1 = (if bj then add_console ("[INFO] Results saved to: "
                                             +:+ str_of_path (results_json (host w))) wj
                     else wj)) as (w1 & -> & E1).
  { destruct bj; eexists; split; reflexivity. }
  rewrite <- E1.
  assert (beside_disk w1 = beside_disk w) as F1.
  { rewrite <- F, E1. now destruct bj. }
  unfold bind at 1. unfold _get_timestamp at 1.
  assert (host w1 = host w /\ now w1 = now w) as [-> ->].
  { unfold beside_disk in F1. now injection F1. }
  unfold bind at 1.
  match goal with
  | |- context [write_text ?fh ?p ?s w1] =>
      pose proof (write_text_value fh p s w1) as V2;
      pose proof (frames_write_text fh p s w1 _ _ (surjective_pairing _)) as F2;
      destruct (write_text fh p s w1) as [rt wt]
  end.
  cbn [fst snd] in V2, F2 |- *. subst rt.
  match goal with
  | |- context [if bool_decide ?P then _ else _] => destruct (bool_decide P)
  end.
  - eexists. split; [reflexivity|]. cbn. split; [reflexivity|]. split; [|eauto].
    rewrite <- F1, <- F2. reflexivity.
  - eexists. split; [reflexivity|]. split; [reflexivity|]. split; [|eauto].
    rewrite <- F1, <- F2. reflexivity.
Qed.

End SaveResults.

Section SaveResults2.
Import FileHandler MainApplication.
Variable self : MainApplication.t.

Lemma results_data_image term stamp titles :
  json_image (results_data term stamp titles) = results_data term stamp titles.
Proof.
  unfold results_data. cbn. do 6 f_equal.
  induction titles as [|t titles IH]; cbn; [reflexivity|]. now rewrite IH.
Qed.

Lemma results_data_distinct_keys term stamp titles :
  distinct_keys (results_data term stamp titles).
Proof.
  unfold results_data. cbn. split.
  - repeat (apply NoDup_cons_2;
            [rewrite ?elem_of_cons, elem_of_nil; intuition discriminate|]).
    apply NoDup_nil_2.
  - repeat split. induction titles as [|t titles IH]; cbn; auto.
Qed.

Lemma results_data_floats term stamp titles :
  floats_read_back (results_data term stamp titles) = true.
Proof.
  unfold results_data. cbn. rewrite andb_true_r.
  induction titles as [|t titles IH]; cbn; auto.
Qed.

(** The key of a path under a handler ends with the last segment given. *)
Lemma resolved_key_last fh w dir seg name :
  exists pre, os_key w (_resolve_path fh (dir /: [seg] /: [name])) = pre ++ [name].
Proof.
  unfold os_key, _resolve_path, joinsegs, joinpath. cbn [is_absolute parts].
  destruct (is_absolute dir); cbn [is_absolute parts].
  - eexists. reflexivity.
  - destruct (is_absolute (base_path fh)); eexists; rewrite ?app_assoc; reflexivity.
Qed.

Lemma results_keys_differ fh w hst :
  os_key w (_resolve_path fh (results_json hst))
  <> os_key w (_resolve_path fh (results_txt hst)).
Proof.
  unfold results_json, results_txt.
  destruct (resolved_key_last fh w (PROJECT_DIR hst) "results" "youtube_results.json")
    as (p1 & ->).
  destruct (resolved_key_last fh w (PROJECT_DIR hst) "results" "youtube_results.txt")
    as (p2 & ->).
  intros E. apply app_inj_tail in E as [_ E]. discriminate.
Qed.

(** X25: where [_save_results] could write the JSON file, [read_json] on it
    then gives the search term, the timestamp and the titles in their
    order, once the file opens for reading. *)
Theorem save_results_read_back titles w w' :
  let hst := host w in
  let fh := file_handler self in
  let data :=
    results_data (default Config.DEFAULT_SEARCH_TERM (_last_search_term self))
      (strftime hst (now w)) titles in
  fst (write_json fh (results_json hst) data 2 w) = Val true ->
  _save_results self titles w = (Val tt, w') ->
  Fs.open_read (os_key w' (_resolve_path fh (results_json hst))) (fs w') = None ->
  fst (read_json fh (results_json hst) w') = Val data.
Proof.
  intros hst fh data Hj Hs Hr.
  destruct (save_results_steps self titles w) as (w2 & E & D & _ & _).
  rewrite Hs in E. injection E as <-.
  fold hst fh data in D.
  set (j := write_json fh (results_json hst) data 2 w) in *.
  assert (j = (Val true, snd j)) as Ej.
  { rewrite (surjective_pairing j) at 1. now rewrite Hj. }
  destruct (write_json_written 2 fh _ _ _ _ Ej) as (Se & C1 & r & L1).
  rewrite Hj in D.
  match type of D with
  | context [write_text fh ?p ?s ?v] =>
      pose proof (write_text_disk fh p s v) as T; set (t := write_text fh p s v) in *
  end.
  rewrite T in D. apply disk_inv in D as [D1 D2].
  cbn [cwd add_console] in D2.
  assert (os_key w' (_resolve_path fh (results_json hst))
          = os_key w (_resolve_path fh (results_json hst))) as K.
  { unfold os_key. now rewrite D2, C1. }
  rewrite read_json_value. unfold readable_text. rewrite Hr, K, D1.
  erewrite fs_after_write_keeps.
  3:{ cbn [fs add_console]. exact L1. }
  2:{ change (os_key (add_console _ (snd j))) with (os_key (snd j)).
      replace (os_key (snd j)) with (os_key w) by (unfold os_key; now rewrite C1).
      apply results_keys_differ. }
  cbn [mbind option_bind].
  pose proof (encoded_serialisable 2 data 0%nat Se) as Sd.
  rewrite (universal_newlines_id _ (txt_no_cr 2 data Sd 0%nat)).
  rewrite (loads_txt 2 data Sd (results_data_distinct_keys _ _ _)
             (results_data_floats _ _ _)).
  unfold data. now rewrite results_data_image.
Qed.

(** X26: [_save_results] never raises, makes no call to the driver and reads
    no input; on disk, every node other than its two result files that
    was there before is unchanged. *)
Theorem save_results_contained titles w :
  let fh := file_handler self in
  let w' := snd (_save_results self titles w) in
  fst (_save_results self titles w) = Val tt
  /\ beside_disk w' = beside_disk w
  /\ cwd w' = cwd w
  /\ forall k nd,
       fs w !! k = Some nd ->
       k <> os_key w (_resolve_path fh (results_json (host w))) ->
       k <> os_key w (_resolve_path fh (results_txt (host w))) ->
       fs w' !! k = Some nd.
Proof.
  intros fh w'. subst w'.
  destruct (save_results_steps self titles w) as (w2 & E & D & B & b & Ej).
  rewrite E. cbn [fst snd]. split; [reflexivity|]. split; [exact B|].
  fold fh in D, Ej.
  match type of Ej with
  | fst (write_json fh ?p ?d 2 w) = _ =>
      pose proof (write_json_disk fh p d 2 w) as J; set (j := write_json fh p d 2 w) in *
  end.
  apply disk_inv in J as [J1 J2].
  match type of D with
  | context [write_text fh ?p ?s ?v] =>
      pose proof (write_text_disk fh p s v) as T; set (t := write_text fh p s v) in *
  end.
  rewrite T in D. apply disk_inv in D as [D1 D2].
  assert (forall v, cwd (match fst j with
                         | Val true => add_console v (snd j)
                         | _ => snd j
                         end) = cwd w) as C.
  { intros v. rewrite Ej. now destruct b. }
  split; [now rewrite D2, C|].
  intros k nd L N1 N2. rewrite D1. apply fs_after_write_keeps.
  - unfold os_key at 1. rewrite C. exact N2.
  - rewrite Ej. destruct b; cbn [fs add_console]; rewrite J1;
      now apply fs_after_write_keeps.
Qed.

(** X27: when the search gives no title, the block under [with] writes no
    file: the filesystem is as it was. *)
Theorem demo_block_no_titles_no_files term d w w1 :
  YouTubeAutomation.search_tech_news (YouTubeAutomation.init d) (Some term) w = (Val [], w1) ->
  fs (snd (demo_block self term (Some d) w)) = fs w.
Proof.
  intros H. unfold demo_block. unfold bind at 1. rewrite H.
  pose proof (frames_search_tech_news _ _ _ _ _ H) as F.
  unfold beside_browser in F. injection F as F _ _ _. rewrite <- F.
  unfold bind, ret, input.
  destruct (stdin w1) as [|[s|] [|[s'|] rest]]; reflexivity.
Qed.

End SaveResults2.

Lemma save_results_read_back_witness :
  let w := Demo.world (Demo.site true true []) ∅ 0%Q [] in
  let w' := snd (MainApplication._save_results Demo.app ["First"; "Second"] w) in
  fst (FileHandler.read_json (MainApplication.file_handler Demo.app)
         (results_json Demo.demo_host) w')
  = Val (results_data "What's New" "2024-05-01 12:00:00" ["First"; "Second"]).
Proof.
  intros w w'.
  apply (save_results_read_back Demo.app ["First"; "Second"] w w').
  - vm_compute. reflexivity.
  - unfold w'.
    rewrite (surjective_pairing (MainApplication._save_results _ _ _)) at 1. f_equal.
  - vm_compute. reflexivity.
Defined.

Lemma demo_block_no_titles_no_files_witness :
  let w := Demo.world (Demo.site true true []) Demo.installed 0%Q [Line ""; Line ""] in
  fs (snd (MainApplication.demo_block Demo.app "rocq" (Some 0%nat) w)) = fs w.
Proof.
  intros w.
  set (s := YouTubeAutomation.search_tech_news (YouTubeAutomation.init 0%nat)
              (Some "rocq") w).
  assert (s = (Val [], snd s)) as E.
  { rewrite (surjective_pairing s) at 1. f_equal. }
  exact (demo_block_no_titles_no_files Demo.app "rocq" 0%nat w (snd s) E).
Defined.

(** ** __main__.py *)

Ltac frames_world :=
  let w := fresh "w" in let r := fresh "r" in let w' := fresh "w'" in
  intros w r w';
  unfold path_exists, open_, file_read, get_host, Main.py_get, Main.truediv, ret, raise;
  repeat match goal with
         | |- context [match ?x with _ => _ end] => destruct x
         end;
  intros [= <- <-]; reflexivity.

Section GetVersion.
Import Main.

Lemma reads_only_except_all {A} (handler : M A) :
  frames whole handler -> forall e h, except_all handler e = Some h -> frames whole h.
Proof. intros H e h [= <-]. exact H. Qed.


Lemma reads_only_possible_bundled_paths bundle_dir :
  frames whole (possible_bundled_paths bundle_dir).
Proof.
  unfold possible_bundled_paths, FileHandler.json_load.
  apply frames_try_except; [|apply reads_only_except_all, frames_ret].
  repeat first
    [ apply frames_bind; [|intros ?]
    | apply frames_ret
    | apply frames_raise
    | match goal with
      | |- frames _ (if ?b then _ else _) => destruct b
      | |- frames _ (match ?x with _ => _ end) => destruct x
      end
    | frames_world ].
Qed.


Lemma path_read_text_value p w :
  path_read_text p w
  = match readable_text w p with
    | Some text => (Val text, w)
    | None =>
        match Fs.open_read (os_key w p) (fs w) with
        | Some c => (Exc (Fs.os_error c p), w)
        | None => (Exc (mk_exn UnicodeDecodeError "'utf-8' codec can't decode byte"), w)
        end
    end.
Proof. apply open_read_text. Qed.

(** The loop over the files outside the bundle ends without an
    exception, with the stripped text of a file or with nothing, and
    changes nothing. *)
Lemma first_external_value paths : forall w,
  exists o, first_external paths w = (Val o, w)
            /\ forall v, o = Some v -> stripped_text_of_file w v.
Proof.
  induction paths as [|p paths IH]; intros w; cbn [first_external].
  - exists None. split; [reflexivity|discriminate].
  - unfold bind at 1, path_exists.
    destruct (bool_decide _); [|apply IH].
    unfold try_except. unfold bind. rewrite path_read_text_value.
    destruct (readable_text w p) as [text|] eqn:T.
    + eexists. split; [reflexivity|]. intros v [= <-]. now exists p, text.
    + destruct (Fs.open_read _ _); cbn [except_all]; apply IH.
Qed.



Lemma readable_text_exists w p text :
  readable_text w p = Some text -> path_exists p w = (Val true, w).
Proof.
  unfold readable_text, path_exists. intros H.
  destruct (Fs.open_read _ _) eqn:O; [discriminate|].
  destruct (fs w !! os_key w p) eqn:L; [|discriminate].
  rewrite bool_decide_eq_true_2; [reflexivity|].
  unfold Fs.node_at. destruct (os_key w p); [eauto|]. rewrite L. eauto.
Qed.

(** X29: in an executable whose bundle holds no [project_config.json], the
    version is the text of [project/requirements/version.txt] of the
    bundle, stripped, whenever that file can be read: the files beside
    the executable are not looked at. *)
Theorem get_version_bundled_first sys PROJECT_ROOT w bundle_dir text :
  frozen sys = true ->
  _MEIPASS sys = Some bundle_dir ->
  Fs.node_at (fs w) (os_key w (bundle_dir /: ["project_config.json"])) = None ->
  readable_text w (bundled_default bundle_dir) = Some text ->
  _get_version sys PROJECT_ROOT w = (Val (strip text), w).
Proof.
  intros F B C T. unfold _get_version. rewrite F, B.
  unfold bind at 1. unfold try_except. unfold bind at 1.
  assert (possible_bundled_paths bundle_dir w = (Val [bundled_default bundle_dir], w)) as ->.
  { unfold possible_bundled_paths, try_except. unfold bind at 1. unfold path_exists at 1.
    rewrite C. rewrite bool_decide_eq_false_2 by (intros [? ?]; discriminate).
    reflexivity. }
  cbn [first_bundled]. unfold bind at 1. rewrite (readable_text_exists _ _ _ T).
  unfold bind at 1. rewrite path_read_text_value, T. reflexivity.
Qed.

(** X30: in an executable, when the first bundled candidate exists but cannot
    be read, the bundle is given up as a whole: the candidates after it
    are not tried, and the version comes from the files beside the
    executable, or is the fallback. *)
Theorem get_version_unreadable_candidate sys PROJECT_ROOT w bundle_dir candidate rest :
  frozen sys = true ->
  _MEIPASS sys = Some bundle_dir ->
  fst (possible_bundled_paths bundle_dir w) = Val (candidate :: rest) ->
  Fs.node_at (fs w) (os_key w candidate) <> None ->
  readable_text w candidate = None ->
  exists external,
    first_external (possible_paths PROJECT_ROOT) w = (Val external, w)
    /\ _get_version sys PROJECT_ROOT w = (Val (default "1.0.0" external), w).
Proof.
  intros F B P0 X T. unfold _get_version. rewrite F, B.
  assert (possible_bundled_paths bundle_dir w = (Val (candidate :: rest), w)) as P.
  { rewrite (surjective_pairing (possible_bundled_paths bundle_dir w)), P0. f_equal.
    exact (reads_only_possible_bundled_paths bundle_dir w _ _ (surjective_pairing _)). }
  destruct (first_external_value (possible_paths PROJECT_ROOT) w) as (o & E & _).
  exists o. split; [exact E|].
  unfold bind at 1. unfold try_except. unfold bind at 1. rewrite P.
  cbn [first_bundled]. unfold bind at 1. unfold path_exists at 1.
  rewrite bool_decide_eq_true_2 by (now apply not_eq_None_Some).
  unfold bind at 1. rewrite path_read_text_value, T.
  destruct (Fs.open_read _ _); cbn [except_all ret]; unfold bind; rewrite E; reflexivity.
Qed.

End GetVersion.


Lemma get_version_bundled_first_witness :
  let w := Demo.world (Demo.site true true []) Scenario.plain_bundle 0%Q [] in
  Main._get_version Scenario.frozen_sys (Path true ["opt"; "PySeed_Demo"; "dist"]) w
  = (Val "2.1.0", w).
Proof.
  intros w.
  apply (get_version_bundled_first Scenario.frozen_sys (Path true ["opt"; "PySeed_Demo"; "dist"])
           w (Path true ["tmp"; "_MEI1"]) (" 2.1.0" +:+ nl)).
  - reflexivity.
  - reflexivity.
  - vm_compute. reflexivity.
  - vm_compute. reflexivity.
Defined.

Lemma get_version_unreadable_candidate_witness :
  let w := Demo.world (Demo.site true true []) Scenario.external_repo_bundle 0%Q [] in
  readable_text w (Main.bundled_default (Path true ["tmp"; "_MEI1"])) = Some "2.1.0"
  /\ Main._get_version Scenario.frozen_sys (Path true ["opt"; "PySeed_Demo"; "dist"]) w
     = (Val "1.0.0", w).
Proof.
  intros w. split; [vm_compute; reflexivity|].
  destruct (get_version_unreadable_candidate Scenario.frozen_sys
              (Path true ["opt"; "PySeed_Demo"; "dist"]) w (Path true ["tmp"; "_MEI1"])
              (Path true ["tmp"; "_MEI1"; "project"; "docs"])
              [Main.bundled_default (Path true ["tmp"; "_MEI1"])])
    as (external & E & H).
  - reflexivity.
  - reflexivity.
  - vm_compute. reflexivity.
  - vm_compute. discriminate.
  - vm_compute. reflexivity.
  - rewrite H. f_equal. f_equal.
    assert (fst (Main.first_external
                   (Main.possible_paths (Path true ["opt"; "PySeed_Demo"; "dist"])) w)
            = Val None) as N by (vm_compute; reflexivity).
    rewrite E in N. now injection N as ->.
Defined.

